(** * A shallow embedding of script.js: facade-first player controller

    The controller wraps an embeddable video player.  It is a set of
    event handlers and timer callbacks over a handful of global variables
    and DOM elements.  The embedding keeps that shape:

    - [Js]         strings as sequences of UTF-16 code units;
    - [Regex]      the backtracking matcher needed by the identifier pattern;
    - [Extractor]  [getYouTubeID];
    - [Quality]    [QUALITY_ORDER], [qualityMap], lowest-level selection;
    - [Controller] globals, DOM, timer queue, handlers, closures and the
                   event loop, parameterised by a simulated external player;
    - [Sim]        three simulated players;
    - [Props]      the vocabulary of the statements;
    - [Scenarios]  concrete event traces;
    - [Links]      link shapes;
    - [Reach]      reachable states and the discipline of the timer handles;
    - [Moments]    moments of a session;
    - [Draft]      the earlier draft of the script, embedded on its own.

    The facts follow the definitions: the quality selection, the
    extractor, the timer queue, load requests, the retry loop (ceiling and
    convergence), the pause debounce, a direct call of the simulated
    sequence; then what holds in every reachable state, the extractor on
    every input, the target as a function of the reported levels, the
    controls and callbacks step by step, the draft, and the simulated
    sequence where it is bound.

    Times on the clock are integers (milliseconds); playback positions are
    rationals (seconds).  Functions keep the names they have in script.js. *)

From Stdlib Require Import List String Ascii Bool ZArith NArith QArith Qround Lia.
Import ListNotations.

Set Implicit Arguments.

(* ------------------------------------------------------------------ *)
(** ** JavaScript strings *)

Module Js.

(** A code unit of a JavaScript string (0 .. 65535). *)
Definition char := N.
Definition str := list char.

(** An ASCII literal as a JavaScript string. *)
Fixpoint lit (s : string) : str :=
  match s with
  | EmptyString => []
  | String a s' => N_of_ascii a :: lit s'
  end.

Fixpoint strip_prefix (p s : str) : option str :=
  match p, s with
  | [], _ => Some s
  | a :: p', b :: s' => if N.eqb a b then strip_prefix p' s' else None
  | _ :: _, [] => None
  end.

Definition between (lo hi c : N) : bool := N.leb lo c && N.leb c hi.

(** [\s]: the WhiteSpace and LineTerminator code points of ECMAScript. *)
Definition is_space (c : char) : bool :=
  between 9 13 c || N.eqb c 32 || N.eqb c 160 || N.eqb c 5760
  || between 8192 8202 c || N.eqb c 8232 || N.eqb c 8233
  || N.eqb c 8239 || N.eqb c 8287 || N.eqb c 12288 || N.eqb c 65279.

(** [\S] *)
Definition not_space (c : char) : bool := negb (is_space c).

(** [[^\/\n\s]] *)
Definition not_slash_space (c : char) : bool :=
  negb (N.eqb c 47 || N.eqb c 10 || is_space c).

(** [[a-zA-Z0-9_-]] *)
Definition is_id_char (c : char) : bool :=
  between 97 122 c || between 65 90 c || between 48 57 c
  || N.eqb c 95 || N.eqb c 45.

(** [[?&]] *)
Definition is_query_sep (c : char) : bool := N.eqb c 63 || N.eqb c 38.

End Js.

(* ------------------------------------------------------------------ *)
(** ** Regular expressions: the backtracking matcher

    ECMAScript gives the meaning of a pattern as a matcher that takes the
    remaining input and a continuation; alternatives and quantifiers try
    their choices in priority order and fall back when the continuation
    fails.  Only the constructs of the identifier pattern are present.
    There is one capturing group. *)

Module Regex.
Import Js.

Inductive re : Type :=
| Lit (l : str)                    (* a literal run of characters *)
| Cls (p : char -> bool)           (* one character of a class *)
| Seq (r1 r2 : re)
| Alt (r1 r2 : re)                 (* r1|r2, r1 first *)
| Opt (r : re)                     (* (?:r)?  greedy *)
| Plus (p : char -> bool)          (* [class]+  greedy *)
| LazyStar (p : char -> bool)      (* [class]*? lazy *)
| Rep (n : nat) (p : char -> bool) (* [class]{n} *)
| Group (r : re).                  (* ( r ), capture 1 *)

Section Matcher.
Variable X : Type.

(** Greedy [*] on a class: longest run first, then shorter ones. *)
Fixpoint star_loop (p : char -> bool) (s : str) (k : str -> option X)
  : option X :=
  match s with
  | c :: s' =>
      if p c then
        match star_loop p s' k with
        | Some x => Some x
        | None => k s
        end
      else k s
  | [] => k s
  end.

Definition plus_loop (p : char -> bool) (s : str) (k : str -> option X)
  : option X :=
  match s with
  | c :: s' => if p c then star_loop p s' k else None
  | [] => None
  end.

(** Lazy [*?] on a class: shortest run first. *)
Fixpoint lazy_loop (p : char -> bool) (s : str) (k : str -> option X)
  : option X :=
  match k s with
  | Some x => Some x
  | None =>
      match s with
      | c :: s' => if p c then lazy_loop p s' k else None
      | [] => None
      end
  end.

Fixpoint rep_loop (n : nat) (p : char -> bool) (s : str)
         (k : str -> option X) : option X :=
  match n with
  | O => k s
  | S n' =>
      match s with
      | c :: s' => if p c then rep_loop n' p s' k else None
      | [] => None
      end
  end.

(** [run r s c k]: match [r] at the head of [s] with capture [c] so far,
    then continue with [k] on the rest. *)
Fixpoint run (r : re) (s : str) (c : option str)
         (k : str -> option str -> option X) : option X :=
  match r with
  | Lit l =>
      match strip_prefix l s with
      | Some s' => k s' c
      | None => None
      end
  | Cls p =>
      match s with
      | x :: s' => if p x then k s' c else None
      | [] => None
      end
  | Seq r1 r2 => run r1 s c (fun s' c' => run r2 s' c' k)
  | Alt r1 r2 =>
      match run r1 s c k with
      | Some x => Some x
      | None => run r2 s c k
      end
  | Opt r1 =>
      match run r1 s c k with
      | Some x => Some x
      | None => k s c
      end
  | Plus p => plus_loop p s (fun s' => k s' c)
  | LazyStar p => lazy_loop p s (fun s' => k s' c)
  | Rep n p => rep_loop n p s (fun s' => k s' c)
  | Group r1 =>
      run r1 s c
          (fun s' _ =>
             k s' (Some (firstn (List.length s - List.length s') s)))
  end.
End Matcher.

(** [String.prototype.match] with a non-global pattern: the first start
    position, left to right, at which the pattern matches.  The result is
    the value of capture 1 of that match. *)
Fixpoint search (r : re) (s : str) : option (option str) :=
  match run r s None (fun _ c => Some c) with
  | Some c => Some c
  | None =>
      match s with
      | _ :: s' => search r s'
      | [] => None
      end
  end.

End Regex.

(* ------------------------------------------------------------------ *)
(** ** The identifier extractor *)

Module Extractor.
Import Js Regex.

(** The pieces of the pattern
    [/(?:https?:\/\/)?(?:www\.)?(?:youtube\.com\/(?:[^\/\n\s]+\/\S+\/|(?:v|e(?:mbed)?)\/|\S*?[?&]v=)|youtu\.be\/)([a-zA-Z0-9_-]{11})/]. *)

(** [(?:https?:\/\/)?] *)
Definition scheme : re :=
  Opt (Seq (Lit (lit "http")) (Seq (Opt (Lit (lit "s"))) (Lit (lit "://")))).

(** [(?:www\.)?] *)
Definition www : re := Opt (Lit (lit "www.")).

(** [[^\/\n\s]+\/\S+\/] *)
Definition alt_path : re :=
  Seq (Plus not_slash_space)
      (Seq (Lit (lit "/")) (Seq (Plus not_space) (Lit (lit "/")))).

(** [(?:v|e(?:mbed)?)\/] *)
Definition alt_embed : re :=
  Seq (Alt (Lit (lit "v")) (Seq (Lit (lit "e")) (Opt (Lit (lit "mbed")))))
      (Lit (lit "/")).

(** [\S*?[?&]v=] *)
Definition alt_query : re :=
  Seq (LazyStar not_space) (Seq (Cls is_query_sep) (Lit (lit "v="))).

(** [(?:youtube\.com\/(?:...|...|...)|youtu\.be\/)] *)
Definition host : re :=
  Alt (Seq (Lit (lit "youtube.com/")) (Alt alt_path (Alt alt_embed alt_query)))
      (Lit (lit "youtu.be/")).

(** [([a-zA-Z0-9_-]{11})] *)
Definition capture : re := Group (Rep 11 is_id_char).

Definition regex : re := Seq scheme (Seq www (Seq host capture)).

(** [getYouTubeID(url)]: [Some id] for [match[1]], [None] for [null]. *)
Definition getYouTubeID (url : str) : option str :=
  match search regex url with
  | Some m1 => m1
  | None => None
  end.

End Extractor.

(* ------------------------------------------------------------------ *)
(** ** Quality levels *)

Module Quality.
Open Scope string_scope.

(** [QUALITY_ORDER], lowest first. *)
Definition QUALITY_ORDER : list string :=
  ["tiny"; "small"; "medium"; "large"; "hd720"; "hd1080"; "highres"].

(** The member names an object literal inherits from [Object.prototype].
    A lookup [qualityMap[q]] with one of them finds the inherited member,
    not [undefined]. *)
Definition OBJECT_MEMBERS : list string :=
  ["constructor"; "hasOwnProperty"; "isPrototypeOf"; "propertyIsEnumerable";
   "toLocaleString"; "toString"; "valueOf"; "__proto__";
   "__defineGetter__"; "__defineSetter__"; "__lookupGetter__";
   "__lookupSetter__"].

Definition inherited (q : string) : bool :=
  existsb (String.eqb q) OBJECT_MEMBERS.

(** [qualityMap[q]] for a name [q] that is not inherited: the label of a
    key of the object literal, [None] for [undefined].  For an inherited
    name the lookup gives the inherited member, which this function does
    not render. *)
Definition qualityMap (q : string) : option string :=
  if q =? "tiny" then Some "144p"
  else if q =? "small" then Some "240p"
  else if q =? "medium" then Some "360p"
  else if q =? "large" then Some "480p"
  else if q =? "hd720" then Some "720p"
  else if q =? "hd1080" then Some "1080p"
  else if q =? "highres" then Some "1080p+"
  else None.

(** [levels.includes(q)] *)
Definition includes (levels : list string) (q : string) : bool :=
  existsb (String.eqb q) levels.

(** Body of [getLowestAvailableQuality] once the levels have been read.
    [None] as input: the read threw or gave something that is not an
    array; [None] as output: [undefined]. *)
Definition lowestOf (levels : option (list string)) : option string :=
  match levels with
  | None => None
  | Some [] => None
  | Some ls =>
      match find (includes ls) QUALITY_ORDER with
      | Some q => Some q
      | None => Some (last ls "")
      end
  end.

(** [x || 'small'] on a string-or-undefined. *)
Definition orSmall (x : option string) : string :=
  match x with
  | Some s => if s =? "" then "small" else s
  | None => "small"
  end.

(** The enforcement target for a given levels read:
    [getLowestAvailableQuality() || 'small']. *)
Definition targetOf (levels : option (list string)) : string :=
  orSmall (lowestOf levels).

(** [qualityMap[t] || t] for a non-empty [t]. *)
Definition label (t : string) : string :=
  match qualityMap t with
  | Some r => r
  | None => t
  end.

(** [qualityMap[q] || q || 'Auto'] *)
Definition readable (q : option string) : string :=
  match q with
  | Some s =>
      match qualityMap s with
      | Some r => r
      | None => if s =? "" then "Auto" else s
      end
  | None => "Auto"
  end.

(** [qualityMap[q] || 'Auto'] *)
Definition readableOrAuto (q : string) : string :=
  match qualityMap q with
  | Some r => r
  | None => "Auto"
  end.

(** Position of a level in [QUALITY_ORDER]. *)
Fixpoint index_of (q : string) (l : list string) : option nat :=
  match l with
  | [] => None
  | x :: l' =>
      if q =? x then Some O
      else match index_of q l' with
           | Some n => Some (S n)
           | None => None
           end
  end.

Definition rank (q : string) : option nat := index_of q QUALITY_ORDER.

End Quality.

(* ------------------------------------------------------------------ *)
(** ** The controller: globals, DOM, timers, handlers *)

Module Controller.
Import Js Quality Extractor.
Open Scope string_scope.
Open Scope Z_scope.

Local Infix "+++" := String.append (at level 60, right associativity).

(** [YT.PlayerState] (numerically -1, 0, 1, 2, 3, 5). *)
Inductive PlayerState : Type :=
| UNSTARTED | ENDED | PLAYING | PAUSED | BUFFERING | CUED.

(** The external player as a simulated collaborator with state [P].
    A query answers [None] when the call throws or yields [undefined]
    (for the levels: anything that is not an array; for the time: NaN).
    A command returns the next player state; an exception it raises is
    swallowed by the caller.  [elapse d] is what the player does on its own
    during [d] ms, and [create videoId start] is a new player. *)
Record PlayerAPI (P : Type) : Type := mkAPI {
  getPlaybackQuality : P -> option string;
  getAvailableQualityLevels : P -> option (list string);
  getCurrentTime : P -> option Q;
  setPlaybackQuality : string -> P -> P;
  playVideo : P -> P;
  pauseVideo : P -> P;
  elapse : Z -> P -> P;
  create : option str -> Z -> P
}.

Inductive Command : Type :=
| CSetQuality (q : string) | CPlay | CPause | CDestroy.

(** The closures handed to [setTimeout] and [setInterval], with what they
    capture. *)
Inductive Callback : Type :=
| CbReadyDefer                          (* onPlayerReady, 150 ms *)
| CbPauseDestroy (cause : PlayerState)  (* onPlayerStateChange, 350 ms *)
| CbRetry                               (* enforceLowQuality, every 1200 ms *)
| CbMonitor                             (* startQualityMonitor, every 700 ms *)
| CbSim700 | CbSim1400 | CbSim2100      (* simulateLowInternetExperience *)
| CbSimEnd (originalText : string).     (* ... its last step, 3000 ms *)

Record Timer : Type := mkTimer {
  tid : nat;
  due : Z;
  period : option Z;   (* [Some d] for an interval *)
  callback : Callback
}.

Inductive Container : Type :=
| Empty
| Facade (videoId : option str) (startSeconds : Q)
| PlayerHost.

Section Model.
Variable P : Type.
Variable api : PlayerAPI P.

Record State : Type := mkState {
  player : option P;  (* the global [player]: the live external player object, or null *)
  currentVideoId : option str;  (* [undefined] until the first successful load *)
  lowBandwidthMode : bool;
  qualityRetryTimer : option nat;  (* interval handle or null *)
  qualityRetryCount : nat;
  qualityMonitorTimer : option nat;  (* interval handle or null *)
  lastPlaybackTime : Q;  (* seconds *)
  pauseDestroyTimer : option nat;  (* timeout handle or null *)
  apiLoaded : bool;  (* [window.YT && window.YT.Player] *)
  onYouTubeIframeAPIReady : option (option str * Q);  (* the closure waiting for the player runtime *)
  container : Container;  (* contents of [playerContainer] *)
  simulateOverlay : bool;  (* the [#simulateOverlay] element is present *)
  buttonText : string;  (* [qualityButton.textContent] *)
  buttonDisabled : bool;  (* [qualityButton.disabled] *)
  buttonHidden : bool;  (* [qualityButton] carries the class [hidden] *)
  statusText : string;  (* [qualityStatus.textContent], the narration *)
  alerts : list string;  (* notices shown with [alert], oldest first *)
  errors : list string;  (* exceptions that escaped a callback, oldest first *)
  commands : list Command;  (* commands received by the player, oldest first *)
  now : Z;  (* clock, milliseconds *)
  timers : list Timer;  (* pending timeouts and intervals *)
  nextTimerId : nat  (* next handle; handles are positive *)
}.

(** Assignment to one variable or DOM property: the record is rebuilt
    with that field replaced. *)
Definition set_player (v : option P) (st : State) : State :=
  let 'mkState _ a2 a3 a4 a5 a6 a7 a8 a9 a10 a11 a12 a13 a14 a15 a16 a17 a18
      a19 a20 a21 a22 := st in
  mkState v a2 a3 a4 a5 a6 a7 a8 a9 a10 a11 a12 a13 a14 a15 a16 a17 a18 a19
      a20 a21 a22.
Definition set_currentVideoId (v : option str) (st : State) : State :=
  let 'mkState a1 _ a3 a4 a5 a6 a7 a8 a9 a10 a11 a12 a13 a14 a15 a16 a17 a18
      a19 a20 a21 a22 := st in
  mkState a1 v a3 a4 a5 a6 a7 a8 a9 a10 a11 a12 a13 a14 a15 a16 a17 a18 a19
      a20 a21 a22.
Definition set_lowBandwidthMode (v : bool) (st : State) : State :=
  let 'mkState a1 a2 _ a4 a5 a6 a7 a8 a9 a10 a11 a12 a13 a14 a15 a16 a17 a18
      a19 a20 a21 a22 := st in
  mkState a1 a2 v a4 a5 a6 a7 a8 a9 a10 a11 a12 a13 a14 a15 a16 a17 a18 a19
      a20 a21 a22.
Definition set_qualityRetryTimer (v : option nat) (st : State) : State :=
  let 'mkState a1 a2 a3 _ a5 a6 a7 a8 a9 a10 a11 a12 a13 a14 a15 a16 a17 a18
      a19 a20 a21 a22 := st in
  mkState a1 a2 a3 v a5 a6 a7 a8 a9 a10 a11 a12 a13 a14 a15 a16 a17 a18 a19
      a20 a21 a22.
Definition set_qualityRetryCount (v : nat) (st : State) : State :=
  let 'mkState a1 a2 a3 a4 _ a6 a7 a8 a9 a10 a11 a12 a13 a14 a15 a16 a17 a18
      a19 a20 a21 a22 := st in
  mkState a1 a2 a3 a4 v a6 a7 a8 a9 a10 a11 a12 a13 a14 a15 a16 a17 a18 a19
      a20 a21 a22.
Definition set_qualityMonitorTimer (v : option nat) (st : State) : State :=
  let 'mkState a1 a2 a3 a4 a5 _ a7 a8 a9 a10 a11 a12 a13 a14 a15 a16 a17 a18
      a19 a20 a21 a22 := st in
  mkState a1 a2 a3 a4 a5 v a7 a8 a9 a10 a11 a12 a13 a14 a15 a16 a17 a18 a19
      a20 a21 a22.
Definition set_lastPlaybackTime (v : Q) (st : State) : State :=
  let 'mkState a1 a2 a3 a4 a5 a6 _ a8 a9 a10 a11 a12 a13 a14 a15 a16 a17 a18
      a19 a20 a21 a22 := st in
  mkState a1 a2 a3 a4 a5 a6 v a8 a9 a10 a11 a12 a13 a14 a15 a16 a17 a18 a19
      a20 a21 a22.
Definition set_pauseDestroyTimer (v : option nat) (st : State) : State :=
  let 'mkState a1 a2 a3 a4 a5 a6 a7 _ a9 a10 a11 a12 a13 a14 a15 a16 a17 a18
      a19 a20 a21 a22 := st in
  mkState a1 a2 a3 a4 a5 a6 a7 v a9 a10 a11 a12 a13 a14 a15 a16 a17 a18 a19
      a20 a21 a22.
Definition set_apiLoaded (v : bool) (st : State) : State :=
  let 'mkState a1 a2 a3 a4 a5 a6 a7 a8 _ a10 a11 a12 a13 a14 a15 a16 a17 a18
      a19 a20 a21 a22 := st in
  mkState a1 a2 a3 a4 a5 a6 a7 a8 v a10 a11 a12 a13 a14 a15 a16 a17 a18 a19
      a20 a21 a22.
Definition set_onYouTubeIframeAPIReady (v : option (option str * Q)) (st : State) : State :=
  let 'mkState a1 a2 a3 a4 a5 a6 a7 a8 a9 _ a11 a12 a13 a14 a15 a16 a17 a18
      a19 a20 a21 a22 := st in
  mkState a1 a2 a3 a4 a5 a6 a7 a8 a9 v a11 a12 a13 a14 a15 a16 a17 a18 a19 a20
      a21 a22.
Definition set_container (v : Container) (st : State) : State :=
  let 'mkState a1 a2 a3 a4 a5 a6 a7 a8 a9 a10 _ a12 a13 a14 a15 a16 a17 a18
      a19 a20 a21 a22 := st in
  mkState a1 a2 a3 a4 a5 a6 a7 a8 a9 a10 v a12 a13 a14 a15 a16 a17 a18 a19 a20
      a21 a22.
Definition set_simulateOverlay (v : bool) (st : State) : State :=
  let 'mkState a1 a2 a3 a4 a5 a6 a7 a8 a9 a10 a11 _ a13 a14 a15 a16 a17 a18
      a19 a20 a21 a22 := st in
  mkState a1 a2 a3 a4 a5 a6 a7 a8 a9 a10 a11 v a13 a14 a15 a16 a17 a18 a19 a20
      a21 a22.
Definition set_buttonText (v : string) (st : State) : State :=
  let 'mkState a1 a2 a3 a4 a5 a6 a7 a8 a9 a10 a11 a12 _ a14 a15 a16 a17 a18
      a19 a20 a21 a22 := st in
  mkState a1 a2 a3 a4 a5 a6 a7 a8 a9 a10 a11 a12 v a14 a15 a16 a17 a18 a19 a20
      a21 a22.
Definition set_buttonDisabled (v : bool) (st : State) : State :=
  let 'mkState a1 a2 a3 a4 a5 a6 a7 a8 a9 a10 a11 a12 a13 _ a15 a16 a17 a18
      a19 a20 a21 a22 := st in
  mkState a1 a2 a3 a4 a5 a6 a7 a8 a9 a10 a11 a12 a13 v a15 a16 a17 a18 a19 a20
      a21 a22.
Definition set_buttonHidden (v : bool) (st : State) : State :=
  let 'mkState a1 a2 a3 a4 a5 a6 a7 a8 a9 a10 a11 a12 a13 a14 _ a16 a17 a18
      a19 a20 a21 a22 := st in
  mkState a1 a2 a3 a4 a5 a6 a7 a8 a9 a10 a11 a12 a13 a14 v a16 a17 a18 a19 a20
      a21 a22.
Definition set_statusText (v : string) (st : State) : State :=
  let 'mkState a1 a2 a3 a4 a5 a6 a7 a8 a9 a10 a11 a12 a13 a14 a15 _ a17 a18
      a19 a20 a21 a22 := st in
  mkState a1 a2 a3 a4 a5 a6 a7 a8 a9 a10 a11 a12 a13 a14 a15 v a17 a18 a19 a20
      a21 a22.
Definition set_alerts (v : list string) (st : State) : State :=
  let 'mkState a1 a2 a3 a4 a5 a6 a7 a8 a9 a10 a11 a12 a13 a14 a15 a16 _ a18
      a19 a20 a21 a22 := st in
  mkState a1 a2 a3 a4 a5 a6 a7 a8 a9 a10 a11 a12 a13 a14 a15 a16 v a18 a19 a20
      a21 a22.
Definition set_errors (v : list string) (st : State) : State :=
  let 'mkState a1 a2 a3 a4 a5 a6 a7 a8 a9 a10 a11 a12 a13 a14 a15 a16 a17 _
      a19 a20 a21 a22 := st in
  mkState a1 a2 a3 a4 a5 a6 a7 a8 a9 a10 a11 a12 a13 a14 a15 a16 a17 v a19 a20
      a21 a22.
Definition set_commands (v : list Command) (st : State) : State :=
  let 'mkState a1 a2 a3 a4 a5 a6 a7 a8 a9 a10 a11 a12 a13 a14 a15 a16 a17 a18
      _ a20 a21 a22 := st in
  mkState a1 a2 a3 a4 a5 a6 a7 a8 a9 a10 a11 a12 a13 a14 a15 a16 a17 a18 v a20
      a21 a22.
Definition set_now (v : Z) (st : State) : State :=
  let 'mkState a1 a2 a3 a4 a5 a6 a7 a8 a9 a10 a11 a12 a13 a14 a15 a16 a17 a18
      a19 _ a21 a22 := st in
  mkState a1 a2 a3 a4 a5 a6 a7 a8 a9 a10 a11 a12 a13 a14 a15 a16 a17 a18 a19 v
      a21 a22.
Definition set_timers (v : list Timer) (st : State) : State :=
  let 'mkState a1 a2 a3 a4 a5 a6 a7 a8 a9 a10 a11 a12 a13 a14 a15 a16 a17 a18
      a19 a20 _ a22 := st in
  mkState a1 a2 a3 a4 a5 a6 a7 a8 a9 a10 a11 a12 a13 a14 a15 a16 a17 a18 a19
      a20 v a22.
Definition set_nextTimerId (v : nat) (st : State) : State :=
  let 'mkState a1 a2 a3 a4 a5 a6 a7 a8 a9 a10 a11 a12 a13 a14 a15 a16 a17 a18
      a19 a20 a21 _ := st in
  mkState a1 a2 a3 a4 a5 a6 a7 a8 a9 a10 a11 a12 a13 a14 a15 a16 a17 a18 a19
      a20 a21 v.

(** State of a freshly loaded page. *)
Definition init : State :=
  mkState None None false None 0%nat None 0%Q None false None
          Empty false "Simulate Low Internet" false true ""
          [] [] [] 0 [] 1%nat.

(** *** Timers *)

Definition addTimer (p : option Z) (cb : Callback) (delay : Z) (st : State)
  : State * nat :=
  let id := nextTimerId st in
  (set_nextTimerId (S id)
     (set_timers (timers st ++ [mkTimer id (now st + delay) p cb]) st),
   id).

Definition setTimeout (cb : Callback) (delay : Z) (st : State) : State * nat :=
  addTimer None cb delay st.

Definition setInterval (cb : Callback) (delay : Z) (st : State) : State * nat :=
  addTimer (Some delay) cb delay st.

(** [clearTimeout] and [clearInterval] share one handle space. *)
Definition clearTimer (id : nat) (st : State) : State :=
  set_timers (filter (fun t => negb (Nat.eqb (tid t) id)) (timers st)) st.

Definition armed (h : option nat) (st : State) : bool :=
  match h with
  | Some id => existsb (fun t => Nat.eqb (tid t) id) (timers st)
  | None => false
  end.

(** *** Calls on the external player, each inside its own try/catch *)

Definition react (c : Command) (p : P) : P :=
  match c with
  | CSetQuality q => setPlaybackQuality api q p
  | CPlay => playVideo api p
  | CPause => pauseVideo api p
  | CDestroy => p
  end.

(** With [player] null the member access throws and the catch swallows it. *)
Definition send (c : Command) (st : State) : State :=
  match player st with
  | Some p => set_commands (commands st ++ [c]) (set_player (Some (react c p)) st)
  | None => st
  end.

Definition safeGetPlaybackQuality (st : State) : option string :=
  match player st with
  | Some p => getPlaybackQuality api p
  | None => None
  end.

Definition safeGetAvailableQualityLevels (st : State) : option (list string) :=
  match player st with
  | Some p => getAvailableQualityLevels api p
  | None => None
  end.

Definition safeGetCurrentTime (st : State) : option Q :=
  match player st with
  | Some p => getCurrentTime api p
  | None => None
  end.

Definition getLowestAvailableQuality (st : State) : option string :=
  lowestOf (safeGetAvailableQualityLevels st).

(** [getLowestAvailableQuality() || 'small'] *)
Definition target (st : State) : string :=
  targetOf (safeGetAvailableQualityLevels st).

(** *** Facade and player creation *)

(** Setting [innerHTML] drops whatever the container held, the simulate
    overlay included. *)
Definition createFacade (videoId : option str) (startSeconds : Q)
           (st : State) : State :=
  set_simulateOverlay false (set_container (Facade videoId startSeconds) st).

(** [Math.max(0, Math.floor(startSeconds || 0))] *)
Definition startParam (startSeconds : Q) : Z := Z.max 0 (Qfloor startSeconds).

Definition createPlayer (videoId : option str) (startSeconds : Q)
           (st : State) : State :=
  let st := set_simulateOverlay false (set_container PlayerHost st) in
  set_player (Some (create api videoId (startParam startSeconds))) st.

Definition loadYouTubeAPI (videoId : option str) (startSeconds : Q)
           (st : State) : State :=
  if apiLoaded st then createPlayer videoId startSeconds st
  else set_onYouTubeIframeAPIReady (Some (videoId, startSeconds)) st.

(** *** Quality enforcement *)

Definition clearQualityRetry (st : State) : State :=
  match qualityRetryTimer st with
  | Some id => set_qualityRetryTimer None (clearTimer id st)
  | None => st
  end.

Definition clearQualityMonitor (st : State) : State :=
  match qualityMonitorTimer st with
  | Some id => set_qualityMonitorTimer None (clearTimer id st)
  | None => st
  end.

Definition RETRY_MS : Z := 1200.
Definition MONITOR_MS : Z := 700.
Definition DEBOUNCE_MS : Z := 350.
Definition MAX_RETRIES : nat := 5.

Definition enforceLowQuality (st : State) : State :=
  match player st with
  | None => st
  | Some _ =>
      let st := clearQualityRetry st in
      let t := target st in
      let st := set_statusText ("Requesting lower quality (" +++ label t +++ ")...") st in
      let st := send (CSetQuality t) st in
      let st := send CPlay st in
      let st := set_qualityRetryCount 0%nat st in
      let (st, id) := setInterval CbRetry RETRY_MS st in
      set_qualityRetryTimer (Some id) st
  end.

Definition bestEffortMessage (desired : string) (finalQ : option string)
  : string :=
  "Targeted " +++ label desired +++ "; actual is " +++ readable finalQ
  +++ " (YouTube may adapt).".

(** [q === desired] for a read that may have failed. *)
Definition sameQuality (q : option string) (desired : string) : bool :=
  match q with
  | Some q' => String.eqb q' desired
  | None => false
  end.

(** One tick of the retry interval. *)
Definition retryTick (st : State) : State :=
  let st := set_qualityRetryCount (S (qualityRetryCount st)) st in
  let q := safeGetPlaybackQuality st in
  let desired := target st in
  if sameQuality q desired then clearQualityRetry st
  else
    let st := send (CSetQuality desired) st in
    if (MAX_RETRIES <=? qualityRetryCount st)%nat then
      let st := clearQualityRetry st in
      set_statusText (bestEffortMessage desired (safeGetPlaybackQuality st)) st
    else st.

(** One tick of the monitor interval. *)
Definition monitorTick (st : State) : State :=
  match player st with
  | None => st
  | Some _ =>
      let r := readable (safeGetPlaybackQuality st) in
      if lowBandwidthMode st then
        set_statusText ("Applied: " +++ r +++ " (target: " +++ label (target st) +++ ")") st
      else
        set_statusText ("Quality: " +++ r) st
  end.

Definition startQualityMonitor (st : State) : State :=
  let st := clearQualityMonitor st in
  let (st, id) := setInterval CbMonitor MONITOR_MS st in
  set_qualityMonitorTimer (Some id) st.

Definition toggleLowInternetMode (st : State) : State :=
  if negb (lowBandwidthMode st) then
    let st := set_lowBandwidthMode true st in
    let st := set_buttonText "Disable Low Internet" st in
    match player st with
    | Some _ =>
        let st := set_statusText
                    ("Low-internet mode ON. Targeting " +++ label (target st) +++ ".") st in
        let st := enforceLowQuality st in
        startQualityMonitor st
    | None =>
        set_statusText "Low-internet mode ON. Will apply on playback." st
    end
  else
    let st := set_lowBandwidthMode false st in
    let st := clearQualityRetry st in
    let st := clearQualityMonitor st in
    let st := send (CSetQuality "default") st in
    let st := set_buttonText "Simulate Low Internet" st in
    match player st with
    | Some _ =>
        set_statusText
          ("Low-internet mode OFF. Quality: " +++ readable (safeGetPlaybackQuality st)) st
    | None => set_statusText "Low-internet mode OFF." st
    end.

(** *** Player lifecycle *)

Definition READY_DEFER_MS : Z := 150.

Definition onPlayerReady (st : State) : State :=
  if lowBandwidthMode st then
    let t := target st in
    let st := send CPause st in
    let st := send (CSetQuality t) st in
    fst (setTimeout CbReadyDefer READY_DEFER_MS st)
  else st.

Definition readyDefer (st : State) : State :=
  let st := send CPlay st in
  let st := enforceLowQuality st in
  startQualityMonitor st.

(** [showPauseOverlay] is never called, so there is no pause overlay for
    [removePauseOverlay] to find. *)
Definition removePauseOverlay (st : State) : State := st.

Definition isSuspendSignal (d : PlayerState) : bool :=
  match d with
  | PAUSED | ENDED | CUED => true
  | _ => false
  end.

Definition onPlayerStateChange (d : PlayerState) (st : State) : State :=
  match d with
  | PLAYING =>
      let st := set_buttonHidden false st in
      let st := if lowBandwidthMode st then enforceLowQuality st else st in
      let st := removePauseOverlay st in
      match pauseDestroyTimer st with
      | Some id => set_pauseDestroyTimer None (clearTimer id st)
      | None => st
      end
  | PAUSED | ENDED | CUED =>
      let st := match pauseDestroyTimer st with
                | Some id => clearTimer id st
                | None => st
                end in
      let (st, id) := setTimeout (CbPauseDestroy d) DEBOUNCE_MS st in
      set_pauseDestroyTimer (Some id) st
  | _ => st
  end.

(** A number used as a condition: zero is falsy. *)
Definition truthyNum (q : Q) : bool := negb (Z.eqb (Qnum q) 0).

(** [safeGetCurrentTime() || lastPlaybackTime || 0] *)
Definition capturedTime (st : State) : Q :=
  match safeGetCurrentTime st with
  | Some t => if truthyNum t then t
              else if truthyNum (lastPlaybackTime st) then lastPlaybackTime st
                   else 0%Q
  | None => if truthyNum (lastPlaybackTime st) then lastPlaybackTime st
            else 0%Q
  end.

(** The debounced teardown, 350 ms after the last pause, end or cue. *)
Definition pauseDestroy (cause : PlayerState) (st : State) : State :=
  let st := set_lastPlaybackTime (capturedTime st) st in
  let st := match cause with
            | ENDED => set_lastPlaybackTime 0%Q st
            | _ => st
            end in
  let st := send CDestroy st in
  let st := set_player None st in
  let st := createFacade (currentVideoId st) (lastPlaybackTime st) st in
  let st := set_buttonHidden false st in
  let st := clearQualityRetry st in
  clearQualityMonitor st.

Definition onPlayerQualityChange (newQuality : string) (st : State) : State :=
  let st := set_statusText
              ("Video quality changed to: " +++ readableOrAuto newQuality) st in
  if lowBandwidthMode st then
    if String.eqb newQuality (target st) then clearQualityRetry st else st
  else st.

(** *** The simulated sequence *)

Definition createSimulateOverlay (st : State) : State :=
  if simulateOverlay st then st else set_simulateOverlay true st.

Definition simulateLowInternetExperience (st : State) : State :=
  let st := set_lowBandwidthMode false st in
  let st := clearQualityRetry st in
  let st := createSimulateOverlay st in
  let st := set_buttonDisabled true st in
  let originalText := buttonText st in
  let st := set_buttonText "Simulating..." st in
  let st := set_statusText "Simulating low internet..." st in
  let st := fst (setTimeout CbSim700 700 st) in
  let st := fst (setTimeout CbSim1400 1400 st) in
  let st := fst (setTimeout CbSim2100 2100 st) in
  fst (setTimeout (CbSimEnd originalText) 3000 st).

(** The 3000 ms step, given what the name [removeSimulateOverlay] resolves
    to in the global scope.  Unresolved, the call raises a ReferenceError
    and the rest of the closure does not run. *)
Definition simEndWith (removeSimulateOverlay : option (State -> State))
           (originalText : string) (st : State) : State :=
  match removeSimulateOverlay with
  | None =>
      set_errors
        (errors st ++ ["ReferenceError: removeSimulateOverlay is not defined"]) st
  | Some remove =>
      let st := remove st in
      let st := set_statusText "Video quality changed to: 240p (simulated)" st in
      let st := set_buttonDisabled false st in
      set_buttonText originalText st
  end.

(** script.js declares no function [removeSimulateOverlay]. *)
Definition removeSimulateOverlay_in_script : option (State -> State) := None.

(** The earlier draft of the script declares it. *)
Definition removeSimulateOverlay_in_draft : option (State -> State) :=
  Some (set_simulateOverlay false).

(** *** The load and toggle controls *)

Definition INVALID_LINK : string := "Please enter a valid YouTube video link!".

Definition loadClick (url : str) (st : State) : State :=
  match getYouTubeID url with
  | Some videoId =>
      let st := set_currentVideoId (Some videoId) st in
      let st := createFacade (Some videoId) 0%Q st in
      let st := set_buttonHidden false st in
      let st := set_statusText "" st in
      let st := clearQualityRetry st in
      let st := clearQualityMonitor st in
      let st := set_lowBandwidthMode false st in
      let st := set_buttonText "Simulate Low Internet" st in
      clearQualityMonitor st
  | None => set_alerts (alerts st ++ [INVALID_LINK]) st
  end.

Definition buttonClick (st : State) : State :=
  let st := toggleLowInternetMode st in
  if lowBandwidthMode st then startQualityMonitor st
  else clearQualityMonitor st.

Definition facadeClick (st : State) : State :=
  match container st with
  | Facade videoId startSeconds => loadYouTubeAPI videoId startSeconds st
  | _ => st
  end.

Definition apiReady (st : State) : State :=
  let st := set_apiLoaded true st in
  match onYouTubeIframeAPIReady st with
  | Some (videoId, startSeconds) => createPlayer videoId startSeconds st
  | None => st
  end.

(** *** The event loop *)

Definition runCallback (cb : Callback) (st : State) : State :=
  match cb with
  | CbReadyDefer => readyDefer st
  | CbPauseDestroy cause => pauseDestroy cause st
  | CbRetry => retryTick st
  | CbMonitor => monitorTick st
  | CbSim700 => set_statusText "Diagnosing network..." st
  | CbSim1400 => set_statusText "Bandwidth detected: 420 kbps (simulated)" st
  | CbSim2100 => set_statusText "Applying lower resolution: 240p (simulated)" st
  | CbSimEnd originalText => simEndWith removeSimulateOverlay_in_script originalText st
  end.

(** Timers run in order of due time, and in order of their handles when
    due at the same time.  (For two timers due at the same instant a
    browser goes by the moment each was last scheduled, which for a
    re-armed interval is later than its handle tells.) *)
Definition before (a b : Timer) : bool :=
  (due a <? due b) || ((due a =? due b) && (tid a <? tid b)%nat).

Fixpoint earliest (l : list Timer) : option Timer :=
  match l with
  | [] => None
  | t :: l' =>
      match earliest l' with
      | Some u => if before u t then Some u else Some t
      | None => Some t
      end
  end.

(** The clock moves forward to [t]; the player lives on meanwhile. *)
Definition passTime (t : Z) (st : State) : State :=
  if now st <? t then
    set_now t (set_player (option_map (elapse api (t - now st)) (player st)) st)
  else st.

Definition rearm (t : Timer) (d : Z) (st : State) : State :=
  set_timers
    (map (fun u => if Nat.eqb (tid u) (tid t)
                   then mkTimer (tid u) (due u + d) (period u) (callback u)
                   else u) (timers st)) st.

(** Run one timer: a timeout leaves the queue, an interval is re-armed one
    period later; then the closure runs to completion. *)
Definition fire (t : Timer) (st : State) : State :=
  let st := passTime (due t) st in
  let st := match period t with
            | Some d => rearm t d st
            | None => clearTimer (tid t) st
            end in
  runCallback (callback t) st.

Definition fire_next (st : State) : option State :=
  match earliest (timers st) with
  | Some t => Some (fire t st)
  | None => None
  end.

(** What reaches the controller from outside. *)
Inductive Event : Type :=
| LoadClick (url : str)
| FacadeClick
| ApiReady
| PlayerReady
| StateChange (d : PlayerState)
| QualityChange (q : string)
| ButtonClick
| Simulate
| PlayerActs (f : P -> P).   (* the player changes on its own account *)

(** A disabled button dispatches no click. *)
Definition handle (e : Event) (st : State) : State :=
  match e with
  | LoadClick url => loadClick url st
  | FacadeClick => facadeClick st
  | ApiReady => apiReady st
  | PlayerReady => onPlayerReady st
  | StateChange d => onPlayerStateChange d st
  | QualityChange q => onPlayerQualityChange q st
  | ButtonClick => if buttonDisabled st then st else buttonClick st
  | Simulate => simulateLowInternetExperience st
  | PlayerActs f => set_player (option_map f (player st)) st
  end.

(** Run every timer due strictly before [t], then move the clock to [t].
    [None]: the fuel did not suffice. *)
Fixpoint advance (fuel : nat) (t : Z) (st : State) : option State :=
  match earliest (timers st) with
  | Some tm =>
      if due tm <? t then
        match fuel with
        | O => None
        | S fuel' => advance fuel' t (fire tm st)
        end
      else Some (passTime t st)
  | None => Some (passTime t st)
  end.

(** A timed trace of outside events, in order of time. *)
Fixpoint run (fuel : nat) (trace : list (Z * Event)) (st : State)
  : option State :=
  match trace with
  | [] => Some st
  | (t, e) :: rest =>
      match advance fuel t st with
      | Some st' => run fuel rest (handle e st')
      | None => None
      end
  end.

(** [n] timer firings in a row. *)
Fixpoint fires (n : nat) (st : State) : option State :=
  match n with
  | O => Some st
  | S n' =>
      match fire_next st with
      | Some st' => fires n' st'
      | None => None
      end
  end.

End Model.

End Controller.

(* ------------------------------------------------------------------ *)
(** ** Simulated external players *)

Module Sim.
Import Js Quality Controller.
Open Scope string_scope.

(** A player that reports fixed levels and a fixed applied quality, and
    ignores every hint. *)
Record Fixed : Type := mkFixed {
  fixedQuality : option string;
  fixedLevels : option (list string);
  fixedTime : option Q
}.

Definition fixedAPI : PlayerAPI Fixed :=
  mkAPI fixedQuality fixedLevels fixedTime
        (fun _ p => p) (fun p => p) (fun p => p) (fun _ p => p)
        (fun _ _ => mkFixed (Some "hd720") (Some ["small"; "medium"; "hd720"]) (Some 0%Q)).

(** A player stuck at 720p whatever its state: the unit type. *)
Definition stuckAPI : PlayerAPI unit :=
  mkAPI (fun _ => Some "hd720")
        (fun _ => Some ["small"; "medium"; "hd720"])
        (fun _ => Some (120 # 1))
        (fun _ p => p) (fun p => p) (fun p => p) (fun _ p => p)
        (fun _ _ => tt).

(** A player with a playhead that gives in after a number of hints:
    [patience] counts the hints it still ignores; the playhead [yPos]
    (milliseconds) moves while [yPlaying]. *)
Record Yielding : Type := mkYielding {
  yQuality : string;
  yLevels : list string;
  yPos : Z;
  yPlaying : bool;
  patience : nat
}.

Definition yieldTo (q : string) (p : Yielding) : Yielding :=
  match patience p with
  | O => mkYielding q (yLevels p) (yPos p) (yPlaying p) O
  | S n => mkYielding (yQuality p) (yLevels p) (yPos p) (yPlaying p) n
  end.

Definition yPlay (b : bool) (p : Yielding) : Yielding :=
  mkYielding (yQuality p) (yLevels p) (yPos p) b (patience p).

Definition yElapse (d : Z) (p : Yielding) : Yielding :=
  if yPlaying p
  then mkYielding (yQuality p) (yLevels p) (yPos p + d) true (patience p)
  else p.

Definition ySeek (ms : Z) (p : Yielding) : Yielding :=
  mkYielding (yQuality p) (yLevels p) ms (yPlaying p) (patience p).

Definition yieldingAPI : PlayerAPI Yielding :=
  mkAPI (fun p => Some (yQuality p))
        (fun p => Some (yLevels p))
        (fun p => Some (yPos p # 1000))
        yieldTo (yPlay true) (yPlay false) yElapse
        (fun _ start => mkYielding "hd720" ["small"; "medium"; "hd720"]
                                   (start * 1000) true 2).

End Sim.

(* ------------------------------------------------------------------ *)
(** ** Vocabulary for the statements *)

Module Props.
Import Js Quality Controller.
Open Scope Z_scope.

(** A quality hint is a [setPlaybackQuality] call. *)
Definition isHint (c : Command) : bool :=
  match c with
  | CSetQuality _ => true
  | _ => false
  end.


Definition isTeardown (cb : Callback) : bool :=
  match cb with
  | CbPauseDestroy _ => true
  | _ => false
  end.

(** Closures that neither send a hint nor arm the retry loop. *)
Definition quiet (cb : Callback) : bool :=
  match cb with
  | CbReadyDefer | CbRetry => false
  | _ => true
  end.

(** [s'] is what is left of [s] after some prefix. *)
Definition suffix (s' s : str) : Prop := exists pre, s = (pre ++ s')%list.

(** A video identifier: 11 characters of [[a-zA-Z0-9_-]]. *)
Definition valid_id (id : str) : Prop :=
  List.length id = 11%nat /\ forallb is_id_char id = true.

Definition no_slash (s : str) : Prop := forall c, In c s -> c <> 47%N.

(** Number of slashes in a string. *)
Definition slashes (s : str) : nat := count_occ N.eq_dec s 47%N.

(** Closures that only write narration or fail: the monitor tick and the
    steps of the simulated sequence. *)
Definition passive (cb : Callback) : bool :=
  match cb with
  | CbMonitor | CbSim700 | CbSim1400 | CbSim2100 | CbSimEnd _ => true
  | _ => false
  end.





Section WithPlayer.
Variable P : Type.

Definition hints (st : State P) : list Command := filter isHint (commands st).


(** The retry loop is armed while its interval is pending. *)
Definition retryArmed (st : State P) : bool := armed (qualityRetryTimer st) st.

(** Every pending timer other than [id] is quiet. *)
Definition othersQuiet (id : nat) (st : State P) : Prop :=
  forall t, In t (timers st) -> tid t = id \/ quiet (callback t) = true.

Definition allQuiet (st : State P) : Prop :=
  forall t, In t (timers st) -> quiet (callback t) = true.

(** The retry loop [k] ticks after it was armed at time [t0], alone in the
    timer queue. *)
Definition running (id : nat) (t0 : Z) (k : nat) (st : State P) : Prop :=
  timers st = [mkTimer id (t0 + RETRY_MS * (Z.of_nat k + 1)) (Some RETRY_MS) CbRetry]
  /\ qualityRetryTimer st = Some id
  /\ qualityRetryCount st = k
  /\ player st <> None
  /\ now st <= t0 + RETRY_MS * Z.of_nat k.





End WithPlayer.

End Props.

(* ------------------------------------------------------------------ *)
(** ** Scenarios *)

Module Scenarios.
Import Js Quality Controller Sim.
Open Scope string_scope.
Open Scope Z_scope.

Definition linkA : str := lit "https://youtu.be/AAAAAAAAAAA".
Definition linkB : str := lit "https://www.youtube.com/watch?v=BBBBBBBBBBB".
Definition idA : str := lit "AAAAAAAAAAA".
Definition idB : str := lit "BBBBBBBBBBB".

(** A session with video A is opened and the video plays. *)
Definition openA : list (Z * Event Yielding) :=
  [ (0, LoadClick _ linkA); (100, FacadeClick _); (200, ApiReady _);
    (300, StateChange _ PLAYING) ].

(** Video A is paused two minutes in and torn down; video B is loaded,
    started, and paused before its playhead has moved. *)
Definition pauseAtZeroAfterResume : list (Z * Event Yielding) :=
  openA ++
  [ (120200, PlayerActs (yPlay false)); (120200, StateChange _ PAUSED);
    (130000, LoadClick _ linkB); (131000, FacadeClick _);
    (131000, PlayerActs (yPlay false)); (131000, StateChange _ PAUSED);
    (132000, PlayerActs (fun p => p)) ].

(** Low-internet mode is switched on while video A plays; A is paused, and
    100 ms later, within the debounce delay, video B is loaded.
    [beforeLoad] stops at the moment of the load request. *)
Definition beforeLoad : list (Z * Event Yielding) :=
  openA ++
  [ (500, ButtonClick _);
    (1000, PlayerActs (yPlay false)); (1000, StateChange _ PAUSED);
    (1100, PlayerActs (fun p => p)) ].

Definition loadDuringDebounce : list (Z * Event Yielding) :=
  beforeLoad ++ [ (1100, LoadClick _ linkB) ].

(** The same, and the facade of B is clicked 100 ms after the load,
    still within the debounce delay of A's pause; the trace ends at
    1400 ms. *)
Definition startDuringDebounce : list (Z * Event Yielding) :=
  loadDuringDebounce ++
  [ (1200, FacadeClick _); (1400, PlayerActs (fun p => p)) ].

(** A player that is stuck at 720p, on a fresh page. *)
Definition stuckStart : State unit := set_player (Some tt) (init unit).

(** A player that gives in at the second hint, on a fresh page. *)
Definition yieldingStart : State Yielding :=
  set_player
    (Some (mkYielding "hd720" ["small"; "medium"; "hd720"] 0 true 1))
    (init Yielding).


Definition unwrap (P : Type) (o : option (State P)) : State P :=
  match o with
  | Some st => st
  | None => init P
  end.

(** The yielding player after the loop was armed and ticked once: the
    second hint has been sent and applied. *)
Definition yieldingAfterOneTick : State Yielding :=
  Eval vm_compute in
    unwrap (fires yieldingAPI 1 (enforceLowQuality yieldingAPI yieldingStart)).

(** Where the scenarios end. *)
Definition endOfPrefix : State Yielding :=
  Eval vm_compute in
    unwrap (run yieldingAPI 100 (removelast pauseAtZeroAfterResume) (init _)).

Definition endOfPauseAtZero : State Yielding :=
  Eval vm_compute in
    unwrap (run yieldingAPI 100 pauseAtZeroAfterResume (init _)).

Definition endOfBeforeLoad : State Yielding :=
  Eval vm_compute in
    unwrap (run yieldingAPI 100 beforeLoad (init _)).

Definition endOfLoadDuringDebounce : State Yielding :=
  Eval vm_compute in
    unwrap (run yieldingAPI 100 loadDuringDebounce (init _)).

Definition endOfStartDuringDebounce : State Yielding :=
  Eval vm_compute in
    unwrap (run yieldingAPI 100 startDuringDebounce (init _)).

End Scenarios.

(* ------------------------------------------------------------------ *)
(** ** Link shapes *)

Module Links.
Import Js.
Local Open Scope string_scope.

(** [hay.includes(needle)]: [needle] occurs somewhere in [hay]. *)
Fixpoint contains (needle hay : str) : bool :=
  match strip_prefix needle hay with
  | Some _ => true
  | None =>
      match hay with
      | _ :: hay' => contains needle hay'
      | [] => false
      end
  end.

(** The two host names the pattern knows, each with its slash. *)
Definition LONG_HOST : str := lit "youtube.com/".
Definition SHORT_HOST : str := lit "youtu.be/".

(** What may stand before the host name at the start of a link: nothing,
    a scheme, [www.], or both. *)
Definition origins : list str :=
  [ lit ""; lit "www."; lit "http://"; lit "http://www.";
    lit "https://"; lit "https://www." ].

End Links.

(* ------------------------------------------------------------------ *)
(** ** Reachable states and the discipline of the timer handles *)

Module Reach.
Import Js Quality Controller Props.
Open Scope string_scope.
Open Scope Z_scope.

Definition isRetry (cb : Callback) : bool :=
  match cb with
  | CbRetry => true
  | _ => false
  end.

Definition isMonitor (cb : Callback) : bool :=
  match cb with
  | CbMonitor => true
  | _ => false
  end.

(** What the low-internet mode keeps pending: the retry and the monitor
    interval. *)
Definition isEnforcement (cb : Callback) : bool := isRetry cb || isMonitor cb.

(** A queue without the timers of one kind. *)
Definition without (kind : Callback -> bool) (l : list Timer) : list Timer :=
  filter (fun t => negb (kind (callback t))) l.

Section WithPlayer.
Variable P : Type.
Variable api : PlayerAPI P.

(** The pending timers whose closure is of one kind. *)
Definition pending (kind : Callback -> bool) (st : State P) : list Timer :=
  filter (fun t => kind (callback t)) (timers st).

(** The events bound to a control or a player callback in script.js.
    [simulateLowInternetExperience] is bound to none. *)
Definition wired (e : Event P) : bool :=
  match e with
  | Simulate _ => false
  | _ => true
  end.

Definition anyEvent (e : Event P) : bool := true.

(** The states the page can be in, starting from the freshly loaded page:
    an outside event is handled, the timer that is next in the queue runs,
    or time passes.  Only events that pass [ok] arrive. *)
Inductive reachableVia (ok : Event P -> bool) : State P -> Prop :=
| reach_init : reachableVia ok (init P)
| reach_event (e : Event P) (st : State P) :
    ok e = true -> reachableVia ok st -> reachableVia ok (handle api e st)
| reach_timer (st st' : State P) :
    reachableVia ok st -> fire_next api st = Some st' -> reachableVia ok st'
| reach_wait (t : Z) (st : State P) :
    reachableVia ok st -> reachableVia ok (passTime api t st).

Definition reachable : State P -> Prop := reachableVia anyEvent.

(** A pending timer in good order: its handle has been issued; if its
    closure is a retry tick, a monitor tick or a teardown, the matching
    global holds its handle and the timer has the period it was armed
    with; and a global holds its handle only if its closure is of the
    matching kind.  A retry tick is pending only while a player exists and
    the counter is below the ceiling. *)
Definition orderly (st : State P) (t : Timer) : Prop :=
  (tid t < nextTimerId st)%nat /\
  (isRetry (callback t) = true ->
   qualityRetryTimer st = Some (tid t) /\ period t = Some RETRY_MS /\
   player st <> None /\ (qualityRetryCount st < MAX_RETRIES)%nat) /\
  (isMonitor (callback t) = true ->
   qualityMonitorTimer st = Some (tid t) /\ period t = Some MONITOR_MS) /\
  (isTeardown (callback t) = true ->
   pauseDestroyTimer st = Some (tid t) /\ period t = None) /\
  (qualityRetryTimer st = Some (tid t) -> isRetry (callback t) = true) /\
  (qualityMonitorTimer st = Some (tid t) -> isMonitor (callback t) = true) /\
  (pauseDestroyTimer st = Some (tid t) -> isTeardown (callback t) = true).

(** A handle below the next one to be issued, or no handle. *)
Definition below (h : option nat) (n : nat) : Prop :=
  match h with
  | Some a => (a < n)%nat
  | None => True
  end.

(** The three globals hold handles that have been issued. *)
Definition issued (st : State P) : Prop :=
  below (qualityRetryTimer st) (nextTimerId st) /\
  below (qualityMonitorTimer st) (nextTimerId st) /\
  below (pauseDestroyTimer st) (nextTimerId st).

Definition consistent (st : State P) : Prop :=
  (forall t, In t (timers st) -> orderly st t) /\
  NoDup (map tid (timers st)) /\
  (qualityRetryCount st <= MAX_RETRIES)%nat /\
  (player st <> None -> apiLoaded st = true) /\
  issued st.

(** The label of the toggle that goes with a value of the mode flag. *)
Definition labelFor (mode : bool) : string :=
  if mode then "Disable Low Internet" else "Simulate Low Internet".

Definition labelled (st : State P) : Prop :=
  buttonText st = labelFor (lowBandwidthMode st) /\ buttonDisabled st = false.

End WithPlayer.

End Reach.

(* ------------------------------------------------------------------ *)
(** ** Moments of a session *)

Module Moments.
Import Js Quality Controller Sim Scenarios.
Local Open Scope string_scope.
Local Open Scope Z_scope.

(** Video A has been loaded; its facade is shown and nothing else has
    happened. *)
Definition loadedTrace : list (Z * Event Yielding) :=
  [ (0, LoadClick _ linkA) ].

(** Video A plays, with the mode off. *)
Definition playingTrace : list (Z * Event Yielding) := openA.

(** Video A plays and low-internet mode has been switched on. *)
Definition lowTrace : list (Z * Event Yielding) :=
  (openA ++ [ (500, ButtonClick _) ])%list.

Definition loaded : State Yielding :=
  Eval vm_compute in unwrap (run yieldingAPI 100 loadedTrace (init _)).

Definition playing : State Yielding :=
  Eval vm_compute in unwrap (run yieldingAPI 100 playingTrace (init _)).

Definition low : State Yielding :=
  Eval vm_compute in unwrap (run yieldingAPI 100 lowTrace (init _)).

(** The player as it is in [playing] and in [low]. *)
Definition playerOf (st : State Yielding) : Yielding :=
  match player st with
  | Some p => p
  | None => mkYielding "" [] 0 false 0
  end.

End Moments.

(* ------------------------------------------------------------------ *)
(** ** The earlier draft of script.js

    The repository keeps an earlier draft of the script beside its README.
    In the draft the toggle is bound to the simulated sequence,
    [removeSimulateOverlay] is declared, there is no pause teardown and no
    monitor, and the retry loop reloads the video on its second and fifth
    tick and stops after ten.  The draft is embedded on its own: its
    globals, its commands and its closures differ from those of
    script.js. *)

Module Draft.
Import Js Quality Extractor.
Local Open Scope string_scope.
Local Open Scope Z_scope.

Local Infix "+++" := String.append (at level 60, right associativity).

(** What a read of the playback position gives: a number of seconds, NaN
    (a number to [typeof]), or nothing when the call throws or the member
    is missing. *)
Inductive TimeRead : Type :=
| Seconds (t : Q)
| NotANumber
| NoRead.

(** The external player of the draft.  [loadVideoById] takes the video,
    the start position and the suggested quality. *)
Record PlayerAPI (P : Type) : Type := mkAPI {
  getPlaybackQuality : P -> option string;
  getAvailableQualityLevels : P -> option (list string);
  getCurrentTime : P -> TimeRead;
  setPlaybackQuality : string -> P -> P;
  loadVideoById : option str -> TimeRead -> string -> P -> P;
  playVideo : P -> P;
  elapse : Z -> P -> P;
  create : option str -> P
}.

Inductive Command : Type :=
| CSetQuality (q : string)
| CLoadVideoById (videoId : option str) (startSeconds : TimeRead)
                 (suggestedQuality : string)
| CPlay.

(** The closures handed to [setInterval] and [setTimeout]. *)
Inductive Callback : Type :=
| CbRetry                               (* enforceLowQuality, every 600 ms *)
| CbSim700 | CbSim1400 | CbSim2100      (* simulateLowInternetExperience *)
| CbSimEnd (originalText : string).     (* ... its last step, 3000 ms *)

Record Timer : Type := mkTimer {
  tid : nat;
  due : Z;
  period : option Z;
  callback : Callback
}.

Inductive Container : Type :=
| Empty
| Facade (videoId : option str)
| PlayerHost.

Section Model.
Variable P : Type.
Variable api : PlayerAPI P.

Record State : Type := mkState {
  player : option P;  (* the global [player] *)
  currentVideoId : option str;
  lowBandwidthMode : bool;
  qualityRetryTimer : option nat;  (* interval handle or null *)
  qualityRetryCount : nat;
  apiLoaded : bool;  (* [window.YT && window.YT.Player] *)
  onYouTubeIframeAPIReady : option (option str);  (* the waiting closure *)
  container : Container;  (* contents of [playerContainer] *)
  simulateOverlay : bool;  (* the [#simulateOverlay] element is present *)
  buttonText : string;  (* [qualityButton.textContent] *)
  buttonDisabled : bool;  (* [qualityButton.disabled] *)
  buttonHidden : bool;  (* [qualityButton] carries the class [hidden] *)
  statusText : string;  (* [qualityStatus.textContent] *)
  alerts : list string;  (* notices shown with [alert], oldest first *)
  commands : list Command;  (* commands received by the player, oldest first *)
  now : Z;  (* clock, milliseconds *)
  timers : list Timer;  (* pending timeouts and intervals *)
  nextTimerId : nat  (* next handle *)
}.

Definition set_player (v : option P) (st : State) : State :=
  let 'mkState _ a2 a3 a4 a5 a6 a7 a8 a9 a10 a11 a12 a13 a14 a15 a16 a17 a18
      := st in
  mkState v a2 a3 a4 a5 a6 a7 a8 a9 a10 a11 a12 a13 a14 a15 a16 a17 a18.
Definition set_currentVideoId (v : option str) (st : State) : State :=
  let 'mkState a1 _ a3 a4 a5 a6 a7 a8 a9 a10 a11 a12 a13 a14 a15 a16 a17 a18
      := st in
  mkState a1 v a3 a4 a5 a6 a7 a8 a9 a10 a11 a12 a13 a14 a15 a16 a17 a18.
Definition set_lowBandwidthMode (v : bool) (st : State) : State :=
  let 'mkState a1 a2 _ a4 a5 a6 a7 a8 a9 a10 a11 a12 a13 a14 a15 a16 a17 a18
      := st in
  mkState a1 a2 v a4 a5 a6 a7 a8 a9 a10 a11 a12 a13 a14 a15 a16 a17 a18.
Definition set_qualityRetryTimer (v : option nat) (st : State) : State :=
  let 'mkState a1 a2 a3 _ a5 a6 a7 a8 a9 a10 a11 a12 a13 a14 a15 a16 a17 a18
      := st in
  mkState a1 a2 a3 v a5 a6 a7 a8 a9 a10 a11 a12 a13 a14 a15 a16 a17 a18.
Definition set_qualityRetryCount (v : nat) (st : State) : State :=
  let 'mkState a1 a2 a3 a4 _ a6 a7 a8 a9 a10 a11 a12 a13 a14 a15 a16 a17 a18
      := st in
  mkState a1 a2 a3 a4 v a6 a7 a8 a9 a10 a11 a12 a13 a14 a15 a16 a17 a18.
Definition set_apiLoaded (v : bool) (st : State) : State :=
  let 'mkState a1 a2 a3 a4 a5 _ a7 a8 a9 a10 a11 a12 a13 a14 a15 a16 a17 a18
      := st in
  mkState a1 a2 a3 a4 a5 v a7 a8 a9 a10 a11 a12 a13 a14 a15 a16 a17 a18.
Definition set_onYouTubeIframeAPIReady (v : option (option str)) (st : State)
      : State :=
  let 'mkState a1 a2 a3 a4 a5 a6 _ a8 a9 a10 a11 a12 a13 a14 a15 a16 a17 a18
      := st in
  mkState a1 a2 a3 a4 a5 a6 v a8 a9 a10 a11 a12 a13 a14 a15 a16 a17 a18.
Definition set_container (v : Container) (st : State) : State :=
  let 'mkState a1 a2 a3 a4 a5 a6 a7 _ a9 a10 a11 a12 a13 a14 a15 a16 a17 a18
      := st in
  mkState a1 a2 a3 a4 a5 a6 a7 v a9 a10 a11 a12 a13 a14 a15 a16 a17 a18.
Definition set_simulateOverlay (v : bool) (st : State) : State :=
  let 'mkState a1 a2 a3 a4 a5 a6 a7 a8 _ a10 a11 a12 a13 a14 a15 a16 a17 a18
      := st in
  mkState a1 a2 a3 a4 a5 a6 a7 a8 v a10 a11 a12 a13 a14 a15 a16 a17 a18.
Definition set_buttonText (v : string) (st : State) : State :=
  let 'mkState a1 a2 a3 a4 a5 a6 a7 a8 a9 _ a11 a12 a13 a14 a15 a16 a17 a18 :=
      st in
  mkState a1 a2 a3 a4 a5 a6 a7 a8 a9 v a11 a12 a13 a14 a15 a16 a17 a18.
Definition set_buttonDisabled (v : bool) (st : State) : State :=
  let 'mkState a1 a2 a3 a4 a5 a6 a7 a8 a9 a10 _ a12 a13 a14 a15 a16 a17 a18 :=
      st in
  mkState a1 a2 a3 a4 a5 a6 a7 a8 a9 a10 v a12 a13 a14 a15 a16 a17 a18.
Definition set_buttonHidden (v : bool) (st : State) : State :=
  let 'mkState a1 a2 a3 a4 a5 a6 a7 a8 a9 a10 a11 _ a13 a14 a15 a16 a17 a18 :=
      st in
  mkState a1 a2 a3 a4 a5 a6 a7 a8 a9 a10 a11 v a13 a14 a15 a16 a17 a18.
Definition set_statusText (v : string) (st : State) : State :=
  let 'mkState a1 a2 a3 a4 a5 a6 a7 a8 a9 a10 a11 a12 _ a14 a15 a16 a17 a18 :=
      st in
  mkState a1 a2 a3 a4 a5 a6 a7 a8 a9 a10 a11 a12 v a14 a15 a16 a17 a18.
Definition set_alerts (v : list string) (st : State) : State :=
  let 'mkState a1 a2 a3 a4 a5 a6 a7 a8 a9 a10 a11 a12 a13 _ a15 a16 a17 a18 :=
      st in
  mkState a1 a2 a3 a4 a5 a6 a7 a8 a9 a10 a11 a12 a13 v a15 a16 a17 a18.
Definition set_commands (v : list Command) (st : State) : State :=
  let 'mkState a1 a2 a3 a4 a5 a6 a7 a8 a9 a10 a11 a12 a13 a14 _ a16 a17 a18 :=
      st in
  mkState a1 a2 a3 a4 a5 a6 a7 a8 a9 a10 a11 a12 a13 a14 v a16 a17 a18.
Definition set_now (v : Z) (st : State) : State :=
  let 'mkState a1 a2 a3 a4 a5 a6 a7 a8 a9 a10 a11 a12 a13 a14 a15 _ a17 a18 :=
      st in
  mkState a1 a2 a3 a4 a5 a6 a7 a8 a9 a10 a11 a12 a13 a14 a15 v a17 a18.
Definition set_timers (v : list Timer) (st : State) : State :=
  let 'mkState a1 a2 a3 a4 a5 a6 a7 a8 a9 a10 a11 a12 a13 a14 a15 a16 _ a18 :=
      st in
  mkState a1 a2 a3 a4 a5 a6 a7 a8 a9 a10 a11 a12 a13 a14 a15 a16 v a18.
Definition set_nextTimerId (v : nat) (st : State) : State :=
  let 'mkState a1 a2 a3 a4 a5 a6 a7 a8 a9 a10 a11 a12 a13 a14 a15 a16 a17 _ :=
      st in
  mkState a1 a2 a3 a4 a5 a6 a7 a8 a9 a10 a11 a12 a13 a14 a15 a16 a17 v.

(** State of a freshly loaded page. *)
Definition init : State :=
  mkState None None false None 0%nat false None Empty false
          "Simulate Low Internet" false true "" [] [] 0 [] 1%nat.

(** *** Timers *)

Definition addTimer (p : option Z) (cb : Callback) (delay : Z) (st : State)
  : State * nat :=
  let id := nextTimerId st in
  (set_nextTimerId (S id)
     (set_timers (timers st ++ [mkTimer id (now st + delay) p cb]) st),
   id).

Definition setTimeout (cb : Callback) (delay : Z) (st : State) : State * nat :=
  addTimer None cb delay st.

Definition setInterval (cb : Callback) (delay : Z) (st : State) : State * nat :=
  addTimer (Some delay) cb delay st.

Definition clearTimer (id : nat) (st : State) : State :=
  set_timers (filter (fun t => negb (Nat.eqb (tid t) id)) (timers st)) st.

(** *** Calls on the external player, each inside its own try/catch *)

Definition react (c : Command) (p : P) : P :=
  match c with
  | CSetQuality q => setPlaybackQuality api q p
  | CLoadVideoById v t q => loadVideoById api v t q p
  | CPlay => playVideo api p
  end.

Definition send (c : Command) (st : State) : State :=
  match player st with
  | Some p => set_commands (commands st ++ [c]) (set_player (Some (react c p)) st)
  | None => st
  end.

Definition safeGetPlaybackQuality (st : State) : option string :=
  match player st with
  | Some p => getPlaybackQuality api p
  | None => None
  end.

Definition safeGetAvailableQualityLevels (st : State) : option (list string) :=
  match player st with
  | Some p => getAvailableQualityLevels api p
  | None => None
  end.

Definition safeGetCurrentTime (st : State) : TimeRead :=
  match player st with
  | Some p => getCurrentTime api p
  | None => NoRead
  end.

(** [getLowestAvailableQuality() || 'small'] *)
Definition target (st : State) : string :=
  targetOf (safeGetAvailableQualityLevels st).

(** *** Facade and player creation *)

Definition createFacade (videoId : option str) (st : State) : State :=
  set_simulateOverlay false (set_container (Facade videoId) st).

Definition createPlayer (videoId : option str) (st : State) : State :=
  let st := set_simulateOverlay false (set_container PlayerHost st) in
  set_player (Some (create api videoId)) st.

Definition loadYouTubeAPI (videoId : option str) (st : State) : State :=
  if apiLoaded st then createPlayer videoId st
  else set_onYouTubeIframeAPIReady (Some videoId) st.

(** *** Quality enforcement *)

Definition clearQualityRetry (st : State) : State :=
  match qualityRetryTimer st with
  | Some id => set_qualityRetryTimer None (clearTimer id st)
  | None => st
  end.

Definition RETRY_MS : Z := 600.
Definition MAX_RETRIES : nat := 10.

(** The reload at the current position:
    [if (typeof t === 'number') player.loadVideoById({...})]. *)
Definition reload (quality : string) (st : State) : State :=
  match safeGetCurrentTime st with
  | NoRead => st
  | t => send (CLoadVideoById (currentVideoId st) t quality) st
  end.

Definition enforceLowQuality (st : State) : State :=
  match player st with
  | None => st
  | Some _ =>
      let st := clearQualityRetry st in
      let t := target st in
      let st := set_statusText ("Requesting lower quality (" +++ label t +++ ")...") st in
      let st := send (CSetQuality t) st in
      let st := reload t st in
      let st := send CPlay st in
      let st := set_qualityRetryCount 0%nat st in
      let (st, id) := setInterval CbRetry RETRY_MS st in
      set_qualityRetryTimer (Some id) st
  end.

Definition finalMessage (finalQ : option string) : string :=
  "Tried to lower quality; final setting is " +++ readable finalQ
  +++ " and may vary due to YouTube auto.".

Definition sameQuality (q : option string) (desired : string) : bool :=
  match q with
  | Some q' => String.eqb q' desired
  | None => false
  end.

(** One tick of the retry interval. *)
Definition retryTick (st : State) : State :=
  let st := set_qualityRetryCount (S (qualityRetryCount st)) st in
  let q := safeGetPlaybackQuality st in
  let desired := target st in
  if sameQuality q desired then clearQualityRetry st
  else
    let st := send (CSetQuality desired) st in
    let st := if Nat.eqb (qualityRetryCount st) 2
                 || Nat.eqb (qualityRetryCount st) 5
              then reload desired st else st in
    if (MAX_RETRIES <=? qualityRetryCount st)%nat then
      let st := clearQualityRetry st in
      set_statusText (finalMessage (safeGetPlaybackQuality st)) st
    else st.

(** *** Player callbacks *)

Definition onPlayerReady (st : State) : State :=
  if lowBandwidthMode st then enforceLowQuality st else st.

Definition onPlayerStateChange (d : Controller.PlayerState) (st : State)
  : State :=
  match d with
  | Controller.PLAYING =>
      let st := set_buttonHidden false st in
      if lowBandwidthMode st then enforceLowQuality st else st
  | _ => st
  end.

Definition onPlayerQualityChange (newQuality : string) (st : State) : State :=
  let st := set_statusText
              ("Video quality changed to: " +++ readableOrAuto newQuality) st in
  if lowBandwidthMode st && String.eqb newQuality "small"
  then clearQualityRetry st else st.

(** *** The simulated sequence *)

Definition createSimulateOverlay (st : State) : State :=
  if simulateOverlay st then st else set_simulateOverlay true st.

Definition removeSimulateOverlay (st : State) : State :=
  if simulateOverlay st then set_simulateOverlay false st else st.

Definition simulateLowInternetExperience (st : State) : State :=
  let st := set_lowBandwidthMode false st in
  let st := clearQualityRetry st in
  let st := createSimulateOverlay st in
  let st := set_buttonDisabled true st in
  let originalText := buttonText st in
  let st := set_buttonText "Simulating..." st in
  let st := set_statusText "Simulating low internet..." st in
  let st := fst (setTimeout CbSim700 700 st) in
  let st := fst (setTimeout CbSim1400 1400 st) in
  let st := fst (setTimeout CbSim2100 2100 st) in
  fst (setTimeout (CbSimEnd originalText) 3000 st).

Definition simEnd (originalText : string) (st : State) : State :=
  let st := removeSimulateOverlay st in
  let st := set_statusText "Video quality changed to: 240p (simulated)" st in
  let st := set_buttonDisabled false st in
  set_buttonText originalText st.

(** *** The load and toggle controls *)

Definition loadClick (url : str) (st : State) : State :=
  match getYouTubeID url with
  | Some videoId =>
      let st := set_currentVideoId (Some videoId) st in
      let st := createFacade (Some videoId) st in
      let st := set_buttonHidden true st in
      let st := set_statusText "" st in
      let st := clearQualityRetry st in
      let st := set_lowBandwidthMode false st in
      set_buttonText "Simulate Low Internet" st
  | None =>
      set_alerts (alerts st ++ [Controller.INVALID_LINK]) st
  end.

Definition buttonClick (st : State) : State := simulateLowInternetExperience st.

Definition facadeClick (st : State) : State :=
  match container st with
  | Facade videoId => loadYouTubeAPI videoId st
  | _ => st
  end.

Definition apiReady (st : State) : State :=
  let st := set_apiLoaded true st in
  match onYouTubeIframeAPIReady st with
  | Some videoId => createPlayer videoId st
  | None => st
  end.

(** *** The event loop *)

Definition runCallback (cb : Callback) (st : State) : State :=
  match cb with
  | CbRetry => retryTick st
  | CbSim700 => set_statusText "Diagnosing network..." st
  | CbSim1400 => set_statusText "Bandwidth detected: 420 kbps (simulated)" st
  | CbSim2100 => set_statusText "Applying lower resolution: 240p (simulated)" st
  | CbSimEnd originalText => simEnd originalText st
  end.

Definition before (a b : Timer) : bool :=
  (due a <? due b) || ((due a =? due b) && (tid a <? tid b)%nat).

Fixpoint earliest (l : list Timer) : option Timer :=
  match l with
  | [] => None
  | t :: l' =>
      match earliest l' with
      | Some u => if before u t then Some u else Some t
      | None => Some t
      end
  end.

Definition passTime (t : Z) (st : State) : State :=
  if now st <? t then
    set_now t (set_player (option_map (elapse api (t - now st)) (player st)) st)
  else st.

Definition rearm (t : Timer) (d : Z) (st : State) : State :=
  set_timers
    (map (fun u => if Nat.eqb (tid u) (tid t)
                   then mkTimer (tid u) (due u + d) (period u) (callback u)
                   else u) (timers st)) st.

Definition fire (t : Timer) (st : State) : State :=
  let st := passTime (due t) st in
  let st := match period t with
            | Some d => rearm t d st
            | None => clearTimer (tid t) st
            end in
  runCallback (callback t) st.

Definition fire_next (st : State) : option State :=
  match earliest (timers st) with
  | Some t => Some (fire t st)
  | None => None
  end.

Inductive Event : Type :=
| LoadClick (url : str)
| FacadeClick
| ApiReady
| PlayerReady
| StateChange (d : Controller.PlayerState)
| QualityChange (q : string)
| ButtonClick
| PlayerActs (f : P -> P).

(** A disabled button dispatches no click. *)
Definition handle (e : Event) (st : State) : State :=
  match e with
  | LoadClick url => loadClick url st
  | FacadeClick => facadeClick st
  | ApiReady => apiReady st
  | PlayerReady => onPlayerReady st
  | StateChange d => onPlayerStateChange d st
  | QualityChange q => onPlayerQualityChange q st
  | ButtonClick => if buttonDisabled st then st else buttonClick st
  | PlayerActs f => set_player (option_map f (player st)) st
  end.

Fixpoint fires (n : nat) (st : State) : option State :=
  match n with
  | O => Some st
  | S n' =>
      match fire_next st with
      | Some st' => fires n' st'
      | None => None
      end
  end.

(** The states the page of the draft can be in. *)
Inductive reachable : State -> Prop :=
| reach_init : reachable init
| reach_event (e : Event) (st : State) :
    reachable st -> reachable (handle e st)
| reach_timer (st st' : State) :
    reachable st -> fire_next st = Some st' -> reachable st'
| reach_wait (t : Z) (st : State) :
    reachable st -> reachable (passTime t st).

(** The four steps of a simulated sequence started at time [t0] with
    handles from [n] on, and what is left of them after [k] have run. *)
Definition steps (t0 : Z) (n : nat) : list Timer :=
  [ mkTimer n (t0 + 700) None CbSim700;
    mkTimer (S n) (t0 + 1400) None CbSim1400;
    mkTimer (S (S n)) (t0 + 2100) None CbSim2100;
    mkTimer (S (S (S n))) (t0 + 3000) None (CbSimEnd "Simulate Low Internet") ].

Definition remaining (k : nat) (t0 : Z) (n : nat) : list Timer :=
  skipn k (steps t0 n).

(** Either no sequence runs -- the toggle is enabled with its own label,
    no overlay is shown and no timer is pending -- or one sequence runs,
    with its remaining steps pending and the toggle disabled. *)
Definition idle (st : State) : Prop :=
  buttonDisabled st = false /\ timers st = [] /\
  buttonText st = "Simulate Low Internet" /\ simulateOverlay st = false.

Definition simulating (st : State) : Prop :=
  buttonDisabled st = true /\
  exists k t0 n, (k < 4)%nat /\ timers st = remaining k t0 n.

(** The real enforcement is switched off and has never acted. *)
Definition visualOnly (st : State) : Prop :=
  lowBandwidthMode st = false /\ commands st = [] /\
  qualityRetryTimer st = None /\ qualityRetryCount st = 0%nat.

(** What holds of every state of the draft. *)
Definition calm (st : State) : Prop :=
  visualOnly st /\ (idle st \/ simulating st).

End Model.

(** A player for the scenarios of the draft: it applies every hint, and
    its playhead (milliseconds) moves with the clock. *)
Record Obedient : Type := mkObedient {
  oQuality : string;
  oPos : Z
}.

Definition obedientAPI : PlayerAPI Obedient :=
  mkAPI (fun p => Some (oQuality p))
        (fun _ => Some ["small"; "medium"; "hd720"])
        (fun p => Seconds (oPos p # 1000))
        (fun q p => mkObedient q (oPos p))
        (fun _ _ q p => mkObedient q (oPos p))
        (fun p => p)
        (fun d p => mkObedient (oQuality p) (oPos p + d))
        (fun _ => mkObedient "hd720" 0).

(** Two moments of a session with the draft: video A has been loaded,
    and then the toggle has been clicked. *)
Definition loadedDraft : State Obedient :=
  Eval vm_compute in
    handle obedientAPI (LoadClick _ Scenarios.linkA) (init _).

Definition clickedDraft : State Obedient :=
  Eval vm_compute in handle obedientAPI (ButtonClick _) loadedDraft.

End Draft.

(* ================================================================== *)
(** * Facts *)

(** Name the components of a controller state. *)
Ltac destruct_state st :=
  destruct st as [pl vid low rt rc mt lpt pdt apil cbk cont ov bt bd bh stt
                  al er cm nw tms nid].

(** Evaluate handler code on a state given by its components, by value,
    keeping arithmetic, list operations and the quality vocabulary folded. *)
Ltac state_compute :=
  cbv -[Z.add Z.sub Z.mul Z.ltb Z.eqb Z.leb Z.max Nat.eqb Nat.leb Nat.ltb
        filter existsb app In map negb String.append String.eqb
        Quality.targetOf Quality.label Quality.readable
        Quality.readableOrAuto Controller.tid Controller.due
        Controller.callback Controller.period].

Ltac state_compute_in H :=
  cbv -[Z.add Z.sub Z.mul Z.ltb Z.eqb Z.leb Z.max Nat.eqb Nat.leb Nat.ltb
        filter existsb app In map negb String.append String.eqb
        Quality.targetOf Quality.label Quality.readable
        Quality.readableOrAuto Controller.tid Controller.due
        Controller.callback Controller.period] in H.

(** Read the fields of timers that are given explicitly. *)
Ltac timer_proj :=
  cbn [Controller.tid Controller.due Controller.period Controller.callback].

(* ------------------------------------------------------------------ *)
(** ** Lowest available quality *)

Module QualityFacts.
Import Quality Controller.
Open Scope string_scope.

Lemma includes_In (ls : list string) (q : string) :
  includes ls q = true <-> In q ls.
Proof.
  unfold includes. rewrite existsb_exists. split.
  - intros [x [Hin Heq]]. apply String.eqb_eq in Heq. now subst.
  - intros Hin. exists q. split; [assumption | apply String.eqb_refl].
Qed.

Lemma index_of_In (q : string) (l : list string) (i : nat) :
  index_of q l = Some i -> In q l.
Proof.
  revert i. induction l as [|x l IH]; simpl; intros i H; [discriminate|].
  destruct (q =? x) eqn:E.
  - apply String.eqb_eq in E. now left.
  - destruct (index_of q l) as [n|]; [|discriminate]. right. now apply (IH n).
Qed.

(** [find] returns the element of least index among those that pass. *)
Lemma find_first (f : string -> bool) (l : list string) (x : string) :
  find f l = Some x ->
  f x = true /\
  exists i, index_of x l = Some i /\
            forall y j, f y = true -> index_of y l = Some j -> (i <= j)%nat.
Proof.
  induction l as [|a l IH]; simpl; [discriminate|].
  destruct (f a) eqn:Fa.
  - intros H. injection H as <-. split; [assumption|].
    exists 0%nat. rewrite String.eqb_refl. split; [reflexivity | intros; lia].
  - intros H. destruct (IH H) as [Fx [i [Hi Hmin]]]. split; [assumption|].
    destruct (x =? a) eqn:E.
    + apply String.eqb_eq in E. congruence.
    + rewrite Hi. exists (S i). split; [reflexivity|].
      intros y j Fy Hj. destruct (y =? a) eqn:Ey.
      * apply String.eqb_eq in Ey. congruence.
      * destruct (index_of y l) as [n|] eqn:Hn; [|discriminate].
        injection Hj as <-. specialize (Hmin y n Fy Hn). lia.
Qed.

Lemma find_fails (f : string -> bool) (l : list string) :
  (forall x, In x l -> f x = false) -> find f l = None.
Proof.
  induction l as [|a l IH]; simpl; intros H; [reflexivity|].
  rewrite (H a (or_introl eq_refl)). apply IH. intros x Hx. apply H. now right.
Qed.

Lemma order_names_nonempty (q : string) :
  In q QUALITY_ORDER -> (q =? "") = false.
Proof.
  unfold QUALITY_ORDER. simpl.
  intros [<-|[<-|[<-|[<-|[<-|[<-|[<-|[]]]]]]]]; reflexivity.
Qed.

Lemma last_In (l : list string) (d : string) : l <> [] -> In (last l d) l.
Proof.
  induction l as [|a l IH]; [congruence|]. intros _.
  destruct l as [|b l]; [now left|].
  right. apply IH. discriminate.
Qed.

(** The lowest level of [QUALITY_ORDER] among the reported ones, for a
    report that contains at least one of them. *)
Lemma lowestOf_lowest (ls : list string) :
  (exists q, In q QUALITY_ORDER /\ In q ls) ->
  exists t i,
    lowestOf (Some ls) = Some t /\ (t =? "") = false /\ In t ls /\
    rank t = Some i /\
    forall q j, In q ls -> rank q = Some j -> (i <= j)%nat.
Proof.
  intros [q0 [Hord Hin]]. unfold lowestOf.
  destruct ls as [|a ls']; [contradiction|].
  set (ls := a :: ls') in *.
  destruct (find (includes ls) QUALITY_ORDER) as [t|] eqn:Hfind.
  - destruct (find_first _ _ Hfind) as [Ht [i [Hi Hmin]]].
    exists t, i. split; [reflexivity|].
    split; [apply order_names_nonempty; exact (index_of_In _ _ Hi)|].
    split; [now apply includes_In|]. split; [exact Hi|].
    intros q j Hq Hj. apply (Hmin q j); [now apply includes_In | exact Hj].
  - apply find_none with (x := q0) in Hfind; [|assumption].
    apply includes_In in Hin. congruence.
Qed.

(** C4 -- The enforcement target, read from the player.  With no player
    the read throws and the target is [small].  With a player [p]: when
    [p.getAvailableQualityLevels()] throws, returns no array or returns an
    empty one, [getLowestAvailableQuality] is [undefined] and the target is
    [small]; when it returns levels of which at least one is in
    [QUALITY_ORDER], [getLowestAvailableQuality] returns the target, the
    target is one of the levels [p] reported, and no level [p] reported
    has a smaller position in tiny < small < medium < large < hd720 <
    hd1080 < highres, the order [QUALITY_ORDER] lists them in.
    [enforceLowQuality] sends the player exactly one hint, for this
    target, followed by a play request. *)
Theorem target_lowest_available
        (P : Type) (api : PlayerAPI P) (st : State P) :
  QUALITY_ORDER
  = ["tiny"; "small"; "medium"; "large"; "hd720"; "hd1080"; "highres"] /\
  (player st = None -> target api st = "small") /\
  (forall p, player st = Some p ->
     (getAvailableQualityLevels api p = None \/
      getAvailableQualityLevels api p = Some [] ->
      getLowestAvailableQuality api st = None /\ target api st = "small") /\
     (forall ls, getAvailableQualityLevels api p = Some ls ->
        (exists q, In q QUALITY_ORDER /\ In q ls) ->
        getLowestAvailableQuality api st = Some (target api st) /\
        In (target api st) ls /\
        exists i, rank (target api st) = Some i /\
                  forall q j, In q ls -> rank q = Some j -> (i <= j)%nat) /\
     commands (enforceLowQuality api st)
     = (commands st ++ [CSetQuality (target api st); CPlay])%list).
Proof.
  unfold target, getLowestAvailableQuality, safeGetAvailableQualityLevels.
  split; [reflexivity|]. split.
  - intros ->. reflexivity.
  - intros p Hp. rewrite Hp. split; [|split].
    + intros [-> | ->]; split; reflexivity.
    + intros ls Hls Hsome. rewrite Hls.
      destruct (@lowestOf_lowest ls Hsome) as [t [i (Hl & Hne & Hin & Hi & Hmin)]].
      unfold targetOf. rewrite Hl. unfold orSmall. rewrite Hne.
      split; [reflexivity | split; [exact Hin|]].
      exists i. split; [exact Hi | exact Hmin].
    + destruct_state st. simpl in Hp. subst pl.
      unfold enforceLowQuality, clearQualityRetry, send, target,
        safeGetAvailableQualityLevels.
      destruct rt; simpl; rewrite <- app_assoc; reflexivity.
Qed.

(** A player that reports 720p, 360p and 480p, in that order, on a fresh
    page: the target is 360p. *)
Lemma target_lowest_available_witness :
  getLowestAvailableQuality Sim.fixedAPI
    (set_player
       (Some (Sim.mkFixed None (Some ["hd720"; "medium"; "large"]) None))
       (init _))
  = Some "medium" /\
  commands
    (enforceLowQuality Sim.fixedAPI
       (set_player
          (Some (Sim.mkFixed None (Some ["hd720"; "medium"; "large"]) None))
          (init _)))
  = [CSetQuality "medium"; CPlay].
Proof.
  pose (p := Sim.mkFixed None (Some ["hd720"; "medium"; "large"]) None).
  pose (st := set_player (Some p) (init Sim.Fixed)).
  destruct (@target_lowest_available _ Sim.fixedAPI st) as [_ [_ H]].
  destruct (H p eq_refl) as (_ & Hlow & Hcmd).
  destruct (Hlow ["hd720"; "medium"; "large"] eq_refl) as (Hget & _).
  { exists "medium". simpl. auto 10. }
  split; [exact Hget | exact Hcmd].
Defined.

(** C10 -- When the player reports a non-empty list of levels none of which
    is in [QUALITY_ORDER], [getLowestAvailableQuality] returns the last
    element of that list; unless that element is the empty string, it is
    the enforcement target, a value outside the QualityLevel vocabulary. *)
Theorem unknown_levels_yield_last
        (P : Type) (api : PlayerAPI P) (st : State P) (ls : list string) :
  safeGetAvailableQualityLevels api st = Some ls ->
  ls <> [] ->
  (forall q, In q QUALITY_ORDER -> ~ In q ls) ->
  getLowestAvailableQuality api st = Some (last ls "") /\
  (last ls "" <> "" ->
   target api st = last ls "" /\ ~ In (target api st) QUALITY_ORDER).
Proof.
  intros Hread Hne Hnone.
  assert (Hlow : lowestOf (Some ls) = Some (last ls "")).
  { unfold lowestOf. destruct ls as [|a ls']; [congruence|].
    rewrite find_fails; [reflexivity|].
    intros x Hx. destruct (includes (a :: ls') x) eqn:E; [|reflexivity].
    apply includes_In in E. exfalso. exact (Hnone x Hx E). }
  unfold getLowestAvailableQuality, target, targetOf. rewrite Hread, Hlow.
  split; [reflexivity|].
  intros Hlast. unfold orSmall.
  destruct (last ls "" =? "") eqn:E.
  - apply String.eqb_eq in E. contradiction.
  - split; [reflexivity|].
    intros Hin. exact (Hnone _ Hin (last_In "" Hne)).
Qed.

Lemma unknown_levels_yield_last_witness :
  getLowestAvailableQuality Sim.fixedAPI
    (set_player (Some (Sim.mkFixed None (Some ["4k"; "auto"]) None)) (init _))
  = Some "auto" /\
  target Sim.fixedAPI
    (set_player (Some (Sim.mkFixed None (Some ["4k"; "auto"]) None)) (init _))
  = "auto".
Proof.
  pose (st := set_player (Some (Sim.mkFixed None (Some ["4k"; "auto"]) None))
                         (init Sim.Fixed)).
  assert (Hnone : forall q, In q QUALITY_ORDER -> ~ In q ["4k"; "auto"]).
  { simpl. intros q [<-|[<-|[<-|[<-|[<-|[<-|[<-|[]]]]]]]] [H|[H|[]]];
      discriminate H. }
  destruct (@unknown_levels_yield_last _ Sim.fixedAPI st ["4k"; "auto"]
              eq_refl ltac:(discriminate) Hnone) as [H1 H2].
  split; [exact H1|].
  apply H2. simpl. discriminate.
Defined.

End QualityFacts.

(* ------------------------------------------------------------------ *)
(** ** The identifier extractor *)

Module ExtractorFacts.
Import Js Regex Extractor.
Open Scope string_scope.

Example watch_link :
  getYouTubeID (lit "https://www.youtube.com/watch?v=dQw4w9WgXcQ")
  = Some (lit "dQw4w9WgXcQ").
Proof. vm_compute. reflexivity. Qed.

Example watch_link_extra_parameters :
  getYouTubeID (lit "https://www.youtube.com/watch?feature=share&v=dQw4w9WgXcQ&t=10s")
  = Some (lit "dQw4w9WgXcQ").
Proof. vm_compute. reflexivity. Qed.

Example short_link :
  getYouTubeID (lit "https://youtu.be/dQw4w9WgXcQ?t=3") = Some (lit "dQw4w9WgXcQ").
Proof. vm_compute. reflexivity. Qed.

Example embed_link :
  getYouTubeID (lit "https://www.youtube.com/embed/dQw4w9WgXcQ")
  = Some (lit "dQw4w9WgXcQ").
Proof. vm_compute. reflexivity. Qed.

Example no_link : getYouTubeID (lit "hello world") = None.
Proof. vm_compute. reflexivity. Qed.

(** C8 -- An embed link of the video dQw4w9WgXcQ that carries the query
    parameter origin=https://example.com/videoplayer: the first alternative
    of the pattern ([[^\/\n\s]+\/\S+\/]) wins over the embed alternative,
    and the extractor returns the token after the last slash,
    [videoplayer], not the identifier of the link. *)
Theorem embed_link_with_origin_parameter :
  getYouTubeID
    (lit "https://www.youtube.com/embed/dQw4w9WgXcQ?origin=https://example.com/videoplayer")
  = Some (lit "videoplayer").
Proof. vm_compute. reflexivity. Qed.

End ExtractorFacts.

(* ------------------------------------------------------------------ *)
(** ** The matcher, and what the extractor returns in general *)

Module RegexFacts.
Import Js Regex Extractor Props.

Lemma suffix_refl (s : str) : suffix s s.
Proof. exists []. reflexivity. Qed.

Lemma suffix_trans (a b c : str) : suffix a b -> suffix b c -> suffix a c.
Proof.
  intros [p ->] [q ->]. exists (q ++ p). now rewrite app_assoc.
Qed.

Lemma suffix_cons (x : char) (a b : str) : suffix a b -> suffix a (x :: b).
Proof. intros [p ->]. exists (x :: p). reflexivity. Qed.

Lemma strip_prefix_sound (p s s' : str) :
  strip_prefix p s = Some s' -> s = p ++ s'.
Proof.
  revert s. induction p as [|a p IH]; simpl; intros s H.
  - now injection H as <-.
  - destruct s as [|b s]; [discriminate|].
    destruct (N.eqb_spec a b) as [<-|]; [|discriminate].
    f_equal. now apply IH.
Qed.

Lemma strip_prefix_complete (p s : str) : strip_prefix p (p ++ s) = Some s.
Proof.
  induction p as [|a p IH]; simpl; [reflexivity|].
  now rewrite N.eqb_refl.
Qed.

Section Loops.
Variable X : Type.

Lemma star_loop_suffix (p : char -> bool) (s : str) (k : str -> option X)
      (x : X) :
  star_loop p s k = Some x -> exists s', suffix s' s /\ k s' = Some x.
Proof.
  induction s as [|c s IH]; simpl; intros H.
  - exists []. split; [apply suffix_refl | assumption].
  - destruct (p c).
    + destruct (star_loop p s k) as [y|] eqn:E.
      * injection H as <-. destruct (IH eq_refl) as [s' [Hs Hk]].
        exists s'. split; [now apply suffix_cons | assumption].
      * exists (c :: s). split; [apply suffix_refl | assumption].
    + exists (c :: s). split; [apply suffix_refl | assumption].
Qed.

Lemma plus_loop_suffix (p : char -> bool) (s : str) (k : str -> option X)
      (x : X) :
  plus_loop p s k = Some x -> exists s', suffix s' s /\ k s' = Some x.
Proof.
  unfold plus_loop. destruct s as [|c s]; [discriminate|].
  destruct (p c); [|discriminate]. intros H.
  destruct (star_loop_suffix _ _ _ H) as [s' [Hs Hk]].
  exists s'. split; [now apply suffix_cons | assumption].
Qed.

Lemma lazy_loop_suffix (p : char -> bool) (s : str) (k : str -> option X)
      (x : X) :
  lazy_loop p s k = Some x -> exists s', suffix s' s /\ k s' = Some x.
Proof.
  induction s as [|c s IH]; simpl; intros H.
  - destruct (k []) eqn:E; [|discriminate].
    exists []. split; [apply suffix_refl | congruence].
  - destruct (k (c :: s)) eqn:E.
    + exists (c :: s). split; [apply suffix_refl | congruence].
    + destruct (p c); [|discriminate].
      destruct (IH H) as [s' [Hs Hk]].
      exists s'. split; [now apply suffix_cons | assumption].
Qed.

Lemma rep_loop_sound (n : nat) (p : char -> bool) (s : str)
      (k : str -> option X) (x : X) :
  rep_loop n p s k = Some x ->
  exists m s', s = m ++ s' /\ List.length m = n /\ forallb p m = true
               /\ k s' = Some x.
Proof.
  revert s. induction n as [|n IH]; simpl; intros s H.
  - exists [], s. repeat split. assumption.
  - destruct s as [|c s]; [discriminate|].
    destruct (p c) eqn:Pc; [|discriminate].
    destruct (IH _ H) as [m [s' [-> [Hl [Hp Hk]]]]].
    exists (c :: m), s'. simpl. rewrite Pc, Hp, Hl. repeat split. assumption.
Qed.

Lemma rep_loop_complete (p : char -> bool) (m s : str) (k : str -> option X) :
  forallb p m = true -> rep_loop (List.length m) p (m ++ s) k = k s.
Proof.
  induction m as [|c m IH]; simpl; intros H; [reflexivity|].
  apply andb_prop in H. destruct H as [Hc Hm]. rewrite Hc. now apply IH.
Qed.

(** Whatever the pattern, the continuation is called on a suffix of the
    input. *)
Lemma run_suffix (r : re) :
  forall (s : str) (c : option str) (k : str -> option str -> option X) (x : X),
    run r s c k = Some x ->
    exists s' c', suffix s' s /\ k s' c' = Some x.
Proof.
  induction r as [l|p|r1 IH1 r2 IH2|r1 IH1 r2 IH2|r1 IH1|p|p|n p|r1 IH1];
    simpl; intros s c k x H.
  - destruct (strip_prefix l s) as [s'|] eqn:E; [|discriminate].
    apply strip_prefix_sound in E. exists s', c. split; [|assumption].
    exists l. assumption.
  - destruct s as [|a s]; [discriminate|]. destruct (p a); [|discriminate].
    exists s, c. split; [|assumption]. exists [a]. reflexivity.
  - destruct (IH1 _ _ _ _ H) as [s1 [c1 [Hs1 H1]]].
    destruct (IH2 _ _ _ _ H1) as [s2 [c2 [Hs2 H2]]].
    exists s2, c2. split; [exact (suffix_trans Hs2 Hs1) | assumption].
  - destruct (run r1 s c k) as [y|] eqn:E.
    + injection H as <-. exact (IH1 _ _ _ _ E).
    + exact (IH2 _ _ _ _ H).
  - destruct (run r1 s c k) as [y|] eqn:E.
    + injection H as <-. exact (IH1 _ _ _ _ E).
    + exists s, c. split; [apply suffix_refl | assumption].
  - destruct (plus_loop_suffix _ _ _ H) as [s' [Hs Hk]]. now exists s', c.
  - destruct (lazy_loop_suffix _ _ _ H) as [s' [Hs Hk]]. now exists s', c.
  - destruct (rep_loop_sound _ _ _ _ H) as [m [s' [-> [_ [_ Hk]]]]].
    exists s', c. split; [now exists m | assumption].
  - destruct (IH1 _ _ _ _ H) as [s' [c' [Hs Hk]]].
    exists s', (Some (firstn (List.length s - List.length s') s)).
    split; assumption.
Qed.

End Loops.

Lemma search_found (r : re) (s : str) (c : option str) :
  search r s = Some c ->
  exists s0, suffix s0 s /\ run r s0 None (fun _ c' => Some c') = Some c.
Proof.
  induction s as [|a s IH]; simpl; intros H.
  - destruct (run r [] None (fun _ c' => Some c')) as [y|] eqn:E;
      [|discriminate].
    exists []. split; [apply suffix_refl | congruence].
  - destruct (run r (a :: s) None (fun _ c' => Some c')) as [y|] eqn:E.
    + exists (a :: s). split; [apply suffix_refl | congruence].
    + destruct (IH H) as [s0 [Hs Hr]]. exists s0.
      split; [now apply suffix_cons | assumption].
Qed.

Lemma search_at_start (r : re) (s : str) (c : option str) :
  run r s None (fun _ c' => Some c') = Some c -> search r s = Some c.
Proof. intros H. destruct s; simpl; rewrite H; reflexivity. Qed.

Lemma firstn_consumed (m s : str) :
  firstn (List.length (m ++ s) - List.length s) (m ++ s) = m.
Proof.
  rewrite length_app.
  replace (List.length m + List.length s - List.length s)%nat
    with (List.length m) by lia.
  rewrite firstn_app, Nat.sub_diag, firstn_all. simpl. apply app_nil_r.
Qed.

(** The capturing group on an identifier. *)
Lemma capture_complete (X : Type) (id rest : str) (c : option str)
      (k : str -> option str -> option X) :
  valid_id id -> run capture (id ++ rest) c k = k rest (Some id).
Proof.
  intros [Hl Hp].
  change (run capture (id ++ rest) c k)
    with (rep_loop 11 is_id_char (id ++ rest)
            (fun s' => k s' (Some (firstn (List.length (id ++ rest)
                                           - List.length s') (id ++ rest))))).
  rewrite <- Hl. rewrite rep_loop_complete by assumption.
  now rewrite firstn_consumed.
Qed.

Lemma capture_sound (X : Type) (s : str) (c : option str)
      (k : str -> option str -> option X) (x : X) :
  run capture s c k = Some x ->
  exists id rest, s = id ++ rest /\ valid_id id /\ k rest (Some id) = Some x.
Proof.
  change (run capture s c k)
    with (rep_loop 11 is_id_char s
            (fun s' => k s' (Some (firstn (List.length s - List.length s') s)))).
  intros H.
  destruct (rep_loop_sound _ _ _ _ H) as [m [s' [-> [Hl [Hp Hk]]]]].
  rewrite firstn_consumed in Hk.
  exists m, s'. repeat split; assumption.
Qed.

(** For every input: what the extractor returns is an identifier-shaped
    token, 11 characters of [[a-zA-Z0-9_-]], that occurs in the input. *)
Lemma getYouTubeID_sound (url id : str) :
  getYouTubeID url = Some id ->
  valid_id id /\ exists pre post, url = pre ++ id ++ post.
Proof.
  unfold getYouTubeID. destruct (search regex url) as [c|] eqn:E;
    [|discriminate]. intros ->.
  destruct (search_found _ _ E) as [s0 [[p0 ->] Hr]].
  unfold regex in Hr.
  change (run (Seq scheme (Seq www (Seq host capture))) s0 None
              (fun _ c' => Some c'))
    with (run scheme s0 None
            (fun s1 c1 => run www s1 c1
               (fun s2 c2 => run host s2 c2
                  (fun s3 c3 => run capture s3 c3 (fun _ c' => Some c')))))
    in Hr.
  destruct (run_suffix _ _ _ _ Hr) as [s1 [c1 [[p1 ->] H1]]].
  destruct (run_suffix _ _ _ _ H1) as [s2 [c2 [[p2 ->] H2]]].
  destruct (run_suffix _ _ _ _ H2) as [s3 [c3 [[p3 ->] H3]]].
  destruct (capture_sound _ _ _ H3) as [m [rest [-> [Hv Hk]]]].
  injection Hk as ->. split; [assumption|].
  exists (p0 ++ p1 ++ p2 ++ p3), rest. now rewrite <- !app_assoc.
Qed.

Lemma id_char_not_slash (c : char) : is_id_char c = true -> c <> 47%N.
Proof. intros H ->. discriminate H. Qed.

Lemma valid_id_no_slash (id : str) : valid_id id -> no_slash id.
Proof.
  intros [_ H] c Hin. rewrite forallb_forall in H.
  apply id_char_not_slash, H, Hin.
Qed.

Lemma slashes_app (a b : str) : slashes (a ++ b) = (slashes a + slashes b)%nat.
Proof. apply count_occ_app. Qed.

Lemma no_slash_count (s : str) : no_slash s -> slashes s = 0%nat.
Proof.
  intros H. apply count_occ_not_In. intros Hin. exact (H _ Hin eq_refl).
Qed.

(** The path alternative [[^\/\n\s]+\/\S+\/] needs two slashes. *)
Lemma alt_path_needs_two_slashes (X : Type) (s : str) (c : option str)
      (k : str -> option str -> option X) (x : X) :
  run alt_path s c k = Some x -> (2 <= slashes s)%nat.
Proof.
  unfold alt_path.
  change (run (Seq (Plus not_slash_space)
                   (Seq (Lit (lit "/")) (Seq (Plus not_space) (Lit (lit "/")))))
              s c k)
    with (plus_loop not_slash_space s
            (fun s1 => match strip_prefix (lit "/") s1 with
                       | Some s2 =>
                           plus_loop not_space s2
                             (fun s3 => match strip_prefix (lit "/") s3 with
                                        | Some s4 => k s4 c
                                        | None => None
                                        end)
                       | None => None
                       end)).
  intros H.
  destruct (plus_loop_suffix _ _ _ H) as [s1 [[p1 ->] H1]].
  destruct (strip_prefix (lit "/") s1) as [s2|] eqn:E1; [|discriminate].
  apply strip_prefix_sound in E1. subst s1.
  destruct (plus_loop_suffix _ _ _ H1) as [s3 [[p3 ->] H3]].
  destruct (strip_prefix (lit "/") s3) as [s4|] eqn:E3; [|discriminate].
  apply strip_prefix_sound in E3. subst s3.
  rewrite !slashes_app. change (slashes (lit "/")) with 1%nat. lia.
Qed.

Lemma alt_path_fails (X : Type) (s : str) (c : option str)
      (k : str -> option str -> option X) :
  (slashes s < 2)%nat -> run alt_path s c k = None.
Proof.
  intros H. destruct (run alt_path s c k) as [x|] eqn:E; [|reflexivity].
  apply alt_path_needs_two_slashes in E. lia.
Qed.

Local Opaque alt_path capture.

(** The plain links: a short link with anything after the identifier, and a
    canonical watch link or an embed link with no slash after it. *)
Lemma plain_links_yield_identifier (id rest : str) :
  valid_id id ->
  getYouTubeID (lit "https://youtu.be/" ++ id ++ rest) = Some id /\
  (no_slash rest ->
   getYouTubeID (lit "https://www.youtube.com/watch?v=" ++ id ++ rest) = Some id /\
   getYouTubeID (lit "https://www.youtube.com/embed/" ++ id ++ rest) = Some id).
Proof.
  intros Hid. split; [|intros Hrest; split].
  - unfold getYouTubeID. erewrite search_at_start; [reflexivity|].
    unfold regex, scheme, www, host. simpl.
    rewrite capture_complete by assumption. reflexivity.
  - assert (Hc : (slashes (lit "watch?v=" ++ id ++ rest) < 2)%nat).
    { rewrite !slashes_app, (no_slash_count (valid_id_no_slash Hid)),
        (no_slash_count Hrest).
      change (slashes (lit "watch?v=")) with 0%nat. lia. }
    unfold getYouTubeID. erewrite search_at_start; [reflexivity|].
    unfold regex, scheme, www, host. simpl.
    rewrite alt_path_fails by exact Hc.
    unfold alt_embed, alt_query. simpl.
    rewrite capture_complete by assumption. reflexivity.
  - assert (Hc : (slashes (lit "embed/" ++ id ++ rest) < 2)%nat).
    { rewrite !slashes_app, (no_slash_count (valid_id_no_slash Hid)),
        (no_slash_count Hrest).
      change (slashes (lit "embed/")) with 1%nat. lia. }
    unfold getYouTubeID. erewrite search_at_start; [reflexivity|].
    unfold regex, scheme, www, host. simpl.
    rewrite alt_path_fails by exact Hc.
    unfold alt_embed, alt_query. simpl.
    rewrite capture_complete by assumption. reflexivity.
Qed.

(** The extractor is a function of its input alone and answers on every
    input: "not found", or an identifier-shaped token of the input. *)
Lemma getYouTubeID_total (url : str) :
  getYouTubeID url = None \/
  exists id, getYouTubeID url = Some id /\ valid_id id /\
             exists pre post, url = pre ++ id ++ post.
Proof.
  destruct (getYouTubeID url) as [id|] eqn:E; [right | now left].
  exists id. split; [reflexivity|]. exact (getYouTubeID_sound _ E).
Qed.

End RegexFacts.

(* ------------------------------------------------------------------ *)
(** ** The timer queue *)

Module QueueFacts.
Import Js Quality Extractor Controller Props.
Open Scope string_scope.
Open Scope Z_scope.

Local Arguments Z.add _ _ : simpl never.
Local Arguments Z.sub _ _ : simpl never.
Local Arguments Z.ltb _ _ : simpl never.
Local Arguments Z.eqb _ _ : simpl never.
Local Arguments Nat.eqb _ _ : simpl never.

Lemma earliest_In (l : list Timer) (t : Timer) : earliest l = Some t -> In t l.
Proof.
  revert t. induction l as [|a l IH]; simpl; intros t H; [discriminate|].
  destruct (earliest l) as [u|].
  - destruct (before u a); injection H as <-; [right; now apply IH | now left].
  - injection H as <-. now left.
Qed.

Lemma filter_other_In (id : nat) (l : list Timer) (t : Timer) :
  In t (filter (fun u => negb (Nat.eqb (tid u) id)) l) -> In t l /\ tid t <> id.
Proof.
  rewrite filter_In. intros [Hin Hb]. split; [assumption|].
  intros E. rewrite E, Nat.eqb_refl in Hb. discriminate.
Qed.

Lemma filter_not_armed (id : nat) (l : list Timer) :
  existsb (fun t => Nat.eqb (tid t) id)
          (filter (fun u => negb (Nat.eqb (tid u) id)) l) = false.
Proof.
  induction l as [|a l IH]; simpl; [reflexivity|].
  destruct (Nat.eqb (tid a) id) eqn:E; simpl; [assumption|].
  rewrite E. assumption.
Qed.

Lemma rearm_In (id : nat) (d : Z) (l : list Timer) (u : Timer) :
  In u (map (fun v => if Nat.eqb (tid v) id
                      then mkTimer (tid v) (due v + d) (period v) (callback v)
                      else v) l) ->
  exists t, In t l /\ tid u = tid t /\ callback u = callback t.
Proof.
  rewrite in_map_iff. intros [t [E Hin]]. exists t. split; [assumption|].
  destruct (Nat.eqb (tid t) id); subst u; split; reflexivity.
Qed.

Lemma earliest_head (t : Timer) (l : list Timer) :
  (forall u, In u l -> due t < due u) -> earliest (t :: l) = Some t.
Proof.
  intros H. simpl. destruct (earliest l) as [u|] eqn:E; [|reflexivity].
  apply earliest_In in E. specialize (H u E).
  unfold before.
  replace (due u <? due t) with false by (symmetry; apply Z.ltb_ge; lia).
  replace (due u =? due t) with false by (symmetry; apply Z.eqb_neq; lia).
  reflexivity.
Qed.

Lemma filter_drops_head (t : Timer) (l : list Timer) :
  (forall u, In u l -> tid u <> tid t) ->
  filter (fun u => negb (Nat.eqb (tid u) (tid t))) (t :: l) = l.
Proof.
  intros H. simpl. rewrite Nat.eqb_refl. simpl.
  induction l as [|a l IH]; simpl; [reflexivity|].
  destruct (Nat.eqb_spec (tid a) (tid t)) as [E|E].
  - exfalso. apply (H a); [now left | exact E].
  - simpl. f_equal. apply IH. intros u Hu. apply H. now right.
Qed.


Section WithPlayer.
Variable P : Type.
Variable api : PlayerAPI P.

(** Running the timer at the head of the queue when it is a timeout, due
    in the future and before every other timer. *)
Lemma fire_next_head (st : State P) (t : Timer) (l : list Timer) :
  timers st = t :: l ->
  period t = None ->
  now st < due t ->
  (forall u, In u l -> due t < due u /\ tid u <> tid t) ->
  fire_next api st =
  Some (runCallback api (callback t)
          (set_timers l
             (set_now (due t)
                (set_player
                   (option_map (elapse api (due t - now st)) (player st))
                   st)))).
Proof.
  destruct_state st. simpl. intros -> Hp Hn Hl.
  unfold fire_next. simpl timers.
  rewrite earliest_head by (intros u Hu; apply Hl, Hu).
  unfold fire, passTime. simpl now.
  replace (nw <? due t) with true by (symmetry; apply Z.ltb_lt; lia).
  rewrite Hp. unfold clearTimer. simpl.
  rewrite Nat.eqb_refl. simpl.
  pose proof (@filter_drops_head t l (fun u Hu => proj2 (Hl u Hu))) as F.
  simpl in F. rewrite Nat.eqb_refl in F. simpl in F. rewrite F.
  reflexivity.
Qed.

Lemma fires_S (n : nat) (st : State P) :
  fires api (S n) st =
  match fire_next api st with
  | Some st' => fires api n st'
  | None => None
  end.
Proof. reflexivity. Qed.

End WithPlayer.

End QueueFacts.

(* ------------------------------------------------------------------ *)
(** ** Load requests *)

Module LoadFacts.
Import Js Quality Extractor Controller Props QueueFacts.
Open Scope string_scope.

Section WithPlayer.
Variable P : Type.

(** C9 -- A load request whose URL fails identifier extraction shows the
    validation notice and does nothing else: the state after the handler
    is the state before it with the notice appended, so the current
    identifier, the mode flag, the timers and their handles, the
    narration, the rendered facade and the player are what they were. *)
Theorem invalid_link_only_alerts (url : str) (st : State P) :
  getYouTubeID url = None ->
  loadClick url st = set_alerts (alerts st ++ [INVALID_LINK]) st /\
  alerts (loadClick url st) = (alerts st ++ [INVALID_LINK])%list /\
  currentVideoId (loadClick url st) = currentVideoId st /\
  lowBandwidthMode (loadClick url st) = lowBandwidthMode st /\
  timers (loadClick url st) = timers st /\
  qualityRetryTimer (loadClick url st) = qualityRetryTimer st /\
  qualityMonitorTimer (loadClick url st) = qualityMonitorTimer st /\
  pauseDestroyTimer (loadClick url st) = pauseDestroyTimer st /\
  statusText (loadClick url st) = statusText st /\
  buttonText (loadClick url st) = buttonText st /\
  container (loadClick url st) = container st /\
  player (loadClick url st) = player st.
Proof.
  intros H. unfold loadClick. rewrite H. destruct_state st. simpl.
  repeat split.
Qed.

End WithPlayer.

Lemma invalid_link_only_alerts_witness :
  alerts (loadClick (lit "not a link") Scenarios.stuckStart)
  = [INVALID_LINK] /\
  player (loadClick (lit "not a link") Scenarios.stuckStart)
  = Some tt.
Proof.
  destruct (@invalid_link_only_alerts unit (lit "not a link")
              Scenarios.stuckStart eq_refl)
    as [_ [Ha [_ [_ [_ [_ [_ [_ [_ [_ [_ Hp]]]]]]]]]]].
  split; [exact Ha | exact Hp].
Defined.

End LoadFacts.

(* ------------------------------------------------------------------ *)
(** ** The retry loop *)

Module EnforcementFacts.
Import Js Quality Extractor Controller Props QueueFacts.
Open Scope string_scope.
Open Scope Z_scope.

Local Arguments Z.add _ _ : simpl never.
Local Arguments Z.sub _ _ : simpl never.
Local Arguments Z.mul _ _ : simpl never.
Local Arguments Z.ltb _ _ : simpl never.
Local Arguments Z.of_nat _ : simpl never.
Local Arguments Nat.leb _ _ : simpl never.
Local Arguments Nat.eqb _ _ : simpl never.

Section WithPlayer.
Variable P : Type.
Variable api : PlayerAPI P.

Lemma fires_snoc (n : nat) (st : State P) :
  fires api (S n) st =
  match fires api n st with
  | Some st' => fire_next api st'
  | None => None
  end.
Proof.
  revert st. induction n as [|n IH]; intros st.
  - simpl. destruct (fire_next api st); reflexivity.
  - change (fires api (S (S n)) st)
      with (match fire_next api st with
            | Some st' => fires api (S n) st'
            | None => None
            end).
    destruct (fire_next api st) as [st'|] eqn:E.
    + rewrite IH. simpl. rewrite E. reflexivity.
    + simpl. rewrite E. reflexivity.
Qed.

Lemma clearQualityRetry_empty (st : State P) :
  timers st = [] ->
  timers (clearQualityRetry st) = [] /\
  player (clearQualityRetry st) = player st /\
  now (clearQualityRetry st) = now st /\
  nextTimerId (clearQualityRetry st) = nextTimerId st.
Proof.
  destruct_state st. simpl. intros ->. unfold clearQualityRetry.
  destruct rt; simpl; repeat split.
Qed.

(** Arming the loop on an empty queue. *)
Lemma enforce_running (st : State P) (p : P) :
  player st = Some p -> timers st = [] ->
  running (nextTimerId st) (now st) 0 (enforceLowQuality api st).
Proof.
  destruct_state st. simpl. intros -> ->.
  unfold enforceLowQuality, clearQualityRetry, send, running.
  destruct rt; simpl; repeat split; try discriminate; unfold RETRY_MS; lia.
Qed.

Section NeverConverges.
Hypothesis never :
  forall p : P,
    getPlaybackQuality api p <> Some (targetOf (getAvailableQualityLevels api p)).

Lemma sameQuality_never (p : P) :
  sameQuality (getPlaybackQuality api p)
              (targetOf (getAvailableQualityLevels api p)) = false.
Proof.
  unfold sameQuality. destruct (getPlaybackQuality api p) as [q|] eqn:E;
    [|reflexivity].
  destruct (String.eqb q _) eqn:Eq; [|reflexivity].
  apply String.eqb_eq in Eq. exfalso. apply (never p). congruence.
Qed.

(** A tick below the ceiling re-issues the hint and leaves the loop armed. *)
Lemma tick_below_ceiling (id : nat) (t0 : Z) (k : nat) (st : State P) :
  running id t0 k st -> (S k < MAX_RETRIES)%nat ->
  exists st', fire_next api st = Some st' /\ running id t0 (S k) st' /\
              now st' = t0 + RETRY_MS * Z.of_nat (S k) /\
              statusText st' = statusText st.
Proof.
  destruct_state st. unfold running. simpl.
  intros [-> [-> [-> [Hp Hn]]]] Hk.
  destruct pl as [p|]; [|congruence].
  unfold fire_next. simpl.
  eexists. split; [reflexivity|].
  unfold fire, passTime. simpl.
  assert (Hlt : (nw <? t0 + RETRY_MS * (Z.of_nat k + 1)) = true)
    by (apply Z.ltb_lt; unfold RETRY_MS in *; lia).
  rewrite Hlt. unfold rearm. simpl. rewrite Nat.eqb_refl.
  unfold retryTick, safeGetPlaybackQuality, target,
    safeGetAvailableQualityLevels. simpl.
  rewrite sameQuality_never. unfold send. simpl.
  assert (Hle : (MAX_RETRIES <=? S k)%nat = false)
    by (apply Nat.leb_gt; exact Hk).
  rewrite Hle. simpl.
  repeat split; try assumption; try discriminate; try reflexivity.
  - do 2 f_equal. unfold RETRY_MS. lia.
  - unfold RETRY_MS. lia.
  - unfold RETRY_MS. lia.
Qed.

(** The tick that reaches the ceiling stops the loop and narrates the gap. *)
Lemma tick_at_ceiling (id : nat) (t0 : Z) (st : State P) :
  running id t0 4 st ->
  exists st' p, let desired := targetOf (getAvailableQualityLevels api p) in
    fire_next api st = Some st' /\
    now st' = t0 + 5 * RETRY_MS /\
    qualityRetryCount st' = MAX_RETRIES /\
    qualityRetryTimer st' = None /\
    timers st' = [] /\
    player st' = Some (setPlaybackQuality api desired p) /\
    statusText st' =
      bestEffortMessage desired
        (getPlaybackQuality api (setPlaybackQuality api desired p)).
Proof.
  destruct_state st. unfold running. simpl.
  intros [-> [-> [-> [Hp Hn]]]].
  destruct pl as [p|]; [|congruence].
  unfold fire_next. simpl.
  eexists. exists (elapse api (t0 + RETRY_MS * (Z.of_nat 4 + 1) - nw) p).
  split; [reflexivity|].
  unfold fire, passTime. simpl.
  assert (Hlt : (nw <? t0 + RETRY_MS * (Z.of_nat 4 + 1)) = true)
    by (apply Z.ltb_lt; unfold RETRY_MS in *; lia).
  rewrite Hlt. unfold rearm. simpl. rewrite Nat.eqb_refl.
  unfold retryTick, safeGetPlaybackQuality, target,
    safeGetAvailableQualityLevels. simpl.
  rewrite sameQuality_never. unfold send. simpl.
  change (MAX_RETRIES <=? 5)%nat with true. cbv iota.
  unfold clearQualityRetry. simpl. rewrite Nat.eqb_refl. simpl.
  repeat split; unfold RETRY_MS; lia.
Qed.

Lemma fires_running (id : nat) (t0 : Z) (st : State P) (k : nat) :
  running id t0 0 st -> (k < MAX_RETRIES)%nat ->
  exists stk, fires api k st = Some stk /\ running id t0 k stk.
Proof.
  intros H0. induction k as [|k IH]; intros Hk.
  - exists st. split; [reflexivity | assumption].
  - destruct IH as [stk [Hf Hr]]; [lia|].
    destruct (tick_below_ceiling Hr Hk) as [st' [Hn [Hr' _]]].
    exists st'. rewrite fires_snoc, Hf. split; assumption.
Qed.

Lemma running_armed (id : nat) (t0 : Z) (k : nat) (st : State P) :
  running id t0 k st -> retryArmed st = true.
Proof.
  destruct_state st. unfold running, retryArmed, armed. simpl.
  intros [-> [-> _]]. simpl. rewrite Nat.eqb_refl. reflexivity.
Qed.

(** An enforcement run against a player whose applied quality never
    equals the recomputed target, started with no other timer pending:
    after each of the first four ticks the retry interval is still armed
    and the counter equals the number of ticks; the fifth tick, 5 x 1200 ms
    after the start, stops the loop: the handle is null, no timer is
    pending (so nothing fires any more), and the narration is the message
    "Targeted <requested>; actual is <actual> (YouTube may adapt)." built
    from the target recomputed at that tick and the quality read after its
    hint. *)
Lemma isolated_run_reaches_ceiling (st : State P) (p : P) :
  player st = Some p ->
  timers st = [] ->
  (forall k, (k < MAX_RETRIES)%nat ->
     exists stk, fires api k (enforceLowQuality api st) = Some stk /\
                 retryArmed stk = true /\ qualityRetryCount stk = k) /\
  exists st5 p5, let desired := targetOf (getAvailableQualityLevels api p5) in
    fires api MAX_RETRIES (enforceLowQuality api st) = Some st5 /\
    now st5 = now st + 5 * RETRY_MS /\
    qualityRetryCount st5 = MAX_RETRIES /\
    qualityRetryTimer st5 = None /\
    retryArmed st5 = false /\
    timers st5 = [] /\
    fire_next api st5 = None /\
    player st5 = Some (setPlaybackQuality api desired p5) /\
    statusText st5 =
      bestEffortMessage desired
        (getPlaybackQuality api (setPlaybackQuality api desired p5)).
Proof.
  intros Hp Ht.
  pose proof (enforce_running st Hp Ht) as H0.
  split.
  - intros k Hk. destruct (fires_running H0 Hk) as [stk [Hf Hr]].
    exists stk. split; [exact Hf|]. split.
    + exact (running_armed Hr).
    + destruct Hr as [_ [_ [Hc _]]]. exact Hc.
  - destruct (@fires_running _ _ _ 4%nat H0) as [st4 [Hf Hr]];
      [unfold MAX_RETRIES; lia|].
    destruct (tick_at_ceiling Hr) as [st5 [p5 H5]].
    exists st5, p5. cbv zeta in H5. cbv zeta.
    destruct H5 as [Hn [Hnow [Hc [Hh [Htm [Hpl Hs]]]]]].
    change MAX_RETRIES with 5%nat in *. rewrite fires_snoc, Hf.
    repeat split; try assumption.
    + unfold retryArmed. rewrite Hh. reflexivity.
    + unfold fire_next. rewrite Htm. reflexivity.
Qed.

End NeverConverges.

End WithPlayer.

Example isolated_run_of_stuck_player :
  exists st5,
    fires Sim.stuckAPI 5 (enforceLowQuality Sim.stuckAPI Scenarios.stuckStart)
    = Some st5 /\
    timers st5 = [] /\
    statusText st5 = "Targeted 240p; actual is 720p (YouTube may adapt).".
Proof.
  assert (never : forall p : unit,
             getPlaybackQuality Sim.stuckAPI p
             <> Some (targetOf (getAvailableQualityLevels Sim.stuckAPI p)))
    by (intros p; vm_compute; discriminate).
  destruct (@isolated_run_reaches_ceiling unit Sim.stuckAPI never
              Scenarios.stuckStart tt eq_refl eq_refl)
    as [_ [st5 [p5 [Hf [_ [_ [_ [_ [Ht [_ [_ Hs]]]]]]]]]]].
  exists st5. split; [exact Hf|]. split; [exact Ht|].
  rewrite Hs. destruct p5. reflexivity.
Qed.

End EnforcementFacts.

(* ------------------------------------------------------------------ *)
(** ** Convergence of the retry loop *)

Module ConvergenceFacts.
Import Js Quality Extractor Controller Props QueueFacts.
Open Scope string_scope.
Open Scope Z_scope.

Local Arguments Z.add _ _ : simpl never.
Local Arguments Z.sub _ _ : simpl never.
Local Arguments Z.mul _ _ : simpl never.
Local Arguments Z.ltb _ _ : simpl never.
Local Arguments Nat.leb _ _ : simpl never.
Local Arguments Nat.eqb _ _ : simpl never.

Lemma hints_app_other (l : list Command) (c : Command) :
  isHint c = false -> filter isHint (l ++ [c]) = filter isHint l.
Proof.
  intros H. rewrite filter_app. simpl. rewrite H. apply app_nil_r.
Qed.

Section WithPlayer.
Variable P : Type.
Variable api : PlayerAPI P.

Lemma allQuiet_clearTimer (id : nat) (st : State P) :
  allQuiet st -> allQuiet (clearTimer id st).
Proof.
  destruct_state st. unfold allQuiet. simpl. intros H t Hin.
  apply filter_other_In in Hin. apply H, Hin.
Qed.

Lemma allQuiet_clearQualityRetry (st : State P) :
  allQuiet st -> allQuiet (clearQualityRetry st).
Proof.
  destruct_state st. unfold allQuiet, clearQualityRetry. simpl.
  destruct rt; simpl; intros H t Hin; [|exact (H t Hin)].
  apply filter_other_In in Hin. apply H, Hin.
Qed.

Lemma allQuiet_clearQualityMonitor (st : State P) :
  allQuiet st -> allQuiet (clearQualityMonitor st).
Proof.
  destruct_state st. unfold allQuiet, clearQualityMonitor. simpl.
  destruct mt; simpl; intros H t Hin; [|exact (H t Hin)].
  apply filter_other_In in Hin. apply H, Hin.
Qed.

Lemma commands_clearQualityRetry (st : State P) :
  commands (clearQualityRetry st) = commands st.
Proof.
  destruct_state st. unfold clearQualityRetry. simpl.
  destruct rt; reflexivity.
Qed.

Lemma commands_clearQualityMonitor (st : State P) :
  commands (clearQualityMonitor st) = commands st.
Proof.
  destruct_state st. unfold clearQualityMonitor. simpl.
  destruct mt; reflexivity.
Qed.

(** A quiet closure sends no hint and leaves only quiet timers behind. *)
Lemma quiet_callback (cb : Callback) (st : State P) :
  quiet cb = true -> allQuiet st ->
  hints (runCallback api cb st) = hints st /\ allQuiet (runCallback api cb st).
Proof.
  intros Hq Ha. destruct cb; try discriminate Hq; simpl.
  - (* teardown *)
    unfold pauseDestroy. split.
    + unfold hints.
      rewrite commands_clearQualityMonitor, commands_clearQualityRetry.
      destruct_state st. unfold send.
      destruct cause; destruct pl; simpl; rewrite ?hints_app_other;
        reflexivity.
    + apply allQuiet_clearQualityMonitor, allQuiet_clearQualityRetry.
      destruct_state st. unfold allQuiet, send in *.
      destruct cause; destruct pl; simpl in *; exact Ha.
  - (* monitor *)
    destruct_state st. unfold monitorTick, allQuiet, hints in *.
    destruct pl; destruct low; simpl in *; split; try reflexivity; exact Ha.
  - destruct_state st. split; [reflexivity | exact Ha].
  - destruct_state st. split; [reflexivity | exact Ha].
  - destruct_state st. split; [reflexivity | exact Ha].
  - destruct_state st. split; [reflexivity | exact Ha].
Qed.

Lemma quiet_fire (t : Timer) (st : State P) :
  In t (timers st) -> allQuiet st ->
  hints (fire api t st) = hints st /\ allQuiet (fire api t st).
Proof.
  intros Hin Ha. unfold fire.
  set (st1 := passTime api (due t) st).
  assert (Ha1 : allQuiet st1 /\ hints st1 = hints st).
  { unfold st1, passTime. destruct_state st. unfold allQuiet, hints in *.
    simpl in *. destruct (nw <? due t); split; try reflexivity; exact Ha. }
  destruct Ha1 as [Ha1 Hh1].
  set (st2 := match period t with
              | Some d => rearm t d st1
              | None => clearTimer (tid t) st1
              end).
  assert (Ha2 : allQuiet st2 /\ hints st2 = hints st1).
  { unfold st2. destruct (period t) as [d|]; split.
    - destruct_state st1. unfold allQuiet, rearm in *. simpl in *.
      intros u Hu. apply rearm_In in Hu.
      destruct Hu as [v [Hv [_ Hc]]]. rewrite Hc. apply Ha1, Hv.
    - destruct_state st1. reflexivity.
    - apply allQuiet_clearTimer, Ha1.
    - destruct_state st1. reflexivity. }
  destruct Ha2 as [Ha2 Hh2].
  destruct (quiet_callback (callback t) (Ha t Hin) Ha2) as [Hh Hq].
  split; [congruence | exact Hq].
Qed.

(** Once only quiet timers are pending, no run of the timer queue sends a
    hint. *)
Lemma quiet_fires (n : nat) (st st' : State P) :
  allQuiet st -> fires api n st = Some st' ->
  hints st' = hints st /\ allQuiet st'.
Proof.
  revert st. induction n as [|n IH]; simpl; intros st Ha H.
  - injection H as <-. split; [reflexivity | assumption].
  - unfold fire_next in H. destruct (earliest (timers st)) as [t|] eqn:E;
      [|discriminate].
    destruct (quiet_fire t (earliest_In _ E) Ha) as [Hh Hq].
    destruct (IH _ Hq H) as [Hh' Hq']. split; [congruence | assumption].
Qed.

Lemma othersQuiet_cleared (id : nat) (st : State P) :
  othersQuiet id st -> allQuiet (clearTimer id st).
Proof.
  destruct_state st. unfold othersQuiet, allQuiet. simpl.
  intros H t Hin. apply filter_other_In in Hin.
  destruct Hin as [Hin Hne]. destruct (H t Hin); [contradiction | assumption].
Qed.

(** C3 -- A retry loop whose interval has handle [id], with every other
    pending timer quiet.  (1) If, at a tick of the interval, the applied
    quality read equals the recomputed target, that tick stops the loop:
    the interval is no longer pending, the handle is null, the tick itself
    sends no command, and however many timers run afterwards no further
    quality hint is sent.  (2) The same holds when, in low-bandwidth mode,
    a quality-change event reports a quality equal to the recomputed
    target. *)
Theorem enforcement_convergence (st : State P) (id : nat) :
  qualityRetryTimer st = Some id ->
  othersQuiet id st ->
  (forall tm,
     In tm (timers st) -> tid tm = id -> callback tm = CbRetry ->
     sameQuality (safeGetPlaybackQuality api (passTime api (due tm) st))
                 (target api (passTime api (due tm) st)) = true ->
     armed (Some id) (fire api tm st) = false /\
     qualityRetryTimer (fire api tm st) = None /\
     commands (fire api tm st) = commands st /\
     forall n st'', fires api n (fire api tm st) = Some st'' ->
                    hints st'' = hints (fire api tm st)) /\
  (forall q,
     lowBandwidthMode st = true -> q = target api st ->
     armed (Some id) (onPlayerQualityChange api q st) = false /\
     qualityRetryTimer (onPlayerQualityChange api q st) = None /\
     commands (onPlayerQualityChange api q st) = commands st /\
     forall n st'', fires api n (onPlayerQualityChange api q st) = Some st'' ->
                    hints st'' = hints (onPlayerQualityChange api q st)).
Proof.
  intros Hh Ho. split.
  - intros tm Hin Hid Hcb Hsame.
    assert (Hq : allQuiet (fire api tm st) /\
                 armed (Some id) (fire api tm st) = false /\
                 qualityRetryTimer (fire api tm st) = None /\
                 commands (fire api tm st) = commands st).
    { revert Hsame. unfold fire, passTime. rewrite Hcb.
      destruct_state st. unfold othersQuiet, allQuiet in *. simpl in *.
      subst rt.
      destruct (nw <? due tm); destruct (period tm) as [d|]; simpl;
        unfold retryTick, safeGetPlaybackQuality, target,
          safeGetAvailableQualityLevels; simpl; intros ->;
        unfold clearQualityRetry; simpl;
        (split; [|split; [apply filter_not_armed | split; reflexivity]]);
        intros u Hu; apply filter_other_In in Hu; destruct Hu as [Hu Hne];
        try (apply rearm_In in Hu; destruct Hu as [t [Ht [Eid Ecb]]];
             rewrite Ecb; destruct (Ho t Ht) as [E|E];
             [congruence | assumption]);
        try (apply filter_other_In in Hu; destruct Hu as [Hu _];
             destruct (Ho u Hu) as [E|E]; [congruence | assumption]). }
    destruct Hq as [Hq [Ha [Hn Hc]]].
    repeat split; try assumption.
    intros n st'' Hf. exact (proj1 (quiet_fires n Hq Hf)).
  - intros q Hlow ->.
    assert (Hq : allQuiet (onPlayerQualityChange api (target api st) st) /\
                 armed (Some id) (onPlayerQualityChange api (target api st) st)
                 = false /\
                 qualityRetryTimer (onPlayerQualityChange api (target api st) st)
                 = None /\
                 commands (onPlayerQualityChange api (target api st) st)
                 = commands st).
    { unfold onPlayerQualityChange.
      destruct_state st. unfold othersQuiet, allQuiet in *. simpl in *.
      subst rt low. unfold target, safeGetAvailableQualityLevels. simpl.
      rewrite String.eqb_refl. unfold clearQualityRetry. simpl.
      split; [|split; [apply filter_not_armed | split; reflexivity]].
      intros u Hu. apply filter_other_In in Hu. destruct Hu as [Hu Hne].
      destruct (Ho u Hu); [contradiction | assumption]. }
    destruct Hq as [Hq [Ha [Hn Hc]]].
    repeat split; try assumption.
    intros n st'' Hf. exact (proj1 (quiet_fires n Hq Hf)).
Qed.

End WithPlayer.

(** The yielding player gives in at the second hint: the loop is armed, its
    first tick re-issues the hint, and at the second tick the applied
    quality is the target. *)
Lemma enforcement_convergence_witness :
  armed (Some 1%nat)
        (fire Sim.yieldingAPI (mkTimer 1 2400 (Some 1200) CbRetry)
              Scenarios.yieldingAfterOneTick) = false /\
  commands (fire Sim.yieldingAPI (mkTimer 1 2400 (Some 1200) CbRetry)
                 Scenarios.yieldingAfterOneTick)
  = commands Scenarios.yieldingAfterOneTick.
Proof.
  pose (st := Scenarios.yieldingAfterOneTick).
  pose (tm := mkTimer 1 2400 (Some 1200) CbRetry).
  assert (Hh : qualityRetryTimer st = Some 1%nat) by (vm_compute; reflexivity).
  assert (Ho : othersQuiet 1 st).
  { intros t Hin. vm_compute in Hin. destruct Hin as [<-|[]]. now left. }
  assert (Hin : In tm (timers st)) by (vm_compute; left; reflexivity).
  assert (Hsame : sameQuality
                    (safeGetPlaybackQuality Sim.yieldingAPI
                       (passTime Sim.yieldingAPI (due tm) st))
                    (target Sim.yieldingAPI
                       (passTime Sim.yieldingAPI (due tm) st)) = true)
    by (vm_compute; reflexivity).
  destruct (@enforcement_convergence _ Sim.yieldingAPI st 1%nat Hh Ho)
    as [Htick _].
  destruct (Htick tm Hin eq_refl eq_refl Hsame) as [Ha [_ [Hc _]]].
  split; [exact Ha | exact Hc].
Defined.

End ConvergenceFacts.

(* ------------------------------------------------------------------ *)
(** ** The retry ceiling among other timers *)

Module CeilingFacts.
Import Js Quality Extractor Controller Props QueueFacts.
Open Scope string_scope.
Open Scope Z_scope.

Local Arguments Z.add _ _ : simpl never.
Local Arguments Z.sub _ _ : simpl never.
Local Arguments Z.mul _ _ : simpl never.
Local Arguments Z.div _ _ : simpl never.
Local Arguments Z.ltb _ _ : simpl never.
Local Arguments Z.eqb _ _ : simpl never.
Local Arguments Nat.eqb _ _ : simpl never.
Local Arguments Nat.ltb _ _ : simpl never.
Local Arguments Nat.leb _ _ : simpl never.





Lemma same_tid_same_timer (l : list Timer) (u v : Timer) :
  NoDup (map tid l) -> In u l -> In v l -> tid u = tid v -> u = v.
Proof.
  induction l as [|a l IH]; simpl; intros Hn Hu Hv E; [contradiction|].
  inversion Hn as [|x xs Hnot Hn']; subst.
  destruct Hu as [<-|Hu]; destruct Hv as [<-|Hv]; auto.
  - exfalso. apply Hnot. rewrite E. now apply in_map.
  - exfalso. apply Hnot. rewrite <- E. now apply in_map.
Qed.

Lemma NoDup_filter_tid (f : Timer -> bool) (l : list Timer) :
  NoDup (map tid l) -> NoDup (map tid (filter f l)).
Proof.
  induction l as [|a l IH]; simpl; intros H; [constructor|].
  inversion H as [|x xs Hnot Hn]; subst.
  destruct (f a); simpl; [|now apply IH].
  constructor; [|now apply IH].
  intros Hin. apply Hnot. apply in_map_iff in Hin.
  destruct Hin as [v [E Hv]]. apply filter_In in Hv.
  apply in_map_iff. exists v. tauto.
Qed.

Lemma map_tid_shift (id : nat) (d : Z) (l : list Timer) :
  map tid (map (fun v => if Nat.eqb (tid v) id
                         then mkTimer (tid v) (due v + d) (period v) (callback v)
                         else v) l)
  = map tid l.
Proof.
  induction l as [|a l IH]; simpl; [reflexivity|].
  rewrite IH. destruct (Nat.eqb (tid a) id); reflexivity.
Qed.



Lemma filter_absent (id : nat) (l : list Timer) :
  ~ In id (map tid l) ->
  filter (fun v => negb (Nat.eqb (tid v) id)) l = l.
Proof.
  induction l as [|b l IH]; simpl; intros H; [reflexivity|].
  destruct (Nat.eqb_spec (tid b) id) as [E|E].
  - exfalso. apply H. now left.
  - simpl. rewrite IH; [reflexivity|]. intros Hin. apply H. now right.
Qed.



Section WithPlayer.
Variable P : Type.
Variable api : PlayerAPI P.










Section NeverConverges.
Hypothesis never :
  forall p : P,
    getPlaybackQuality api p <> Some (targetOf (getAvailableQualityLevels api p)).









End NeverConverges.


Section Ceiling.
Hypothesis never :
  forall p : P,
    getPlaybackQuality api p <> Some (targetOf (getAvailableQualityLevels api p)).


End Ceiling.

End WithPlayer.


End CeilingFacts.

(* ------------------------------------------------------------------ *)
(** ** Pause, debounce and teardown *)

Module LifecycleFacts.
Import Js Quality Extractor Controller Props QueueFacts.
Open Scope string_scope.
Open Scope Z_scope.

Local Arguments Z.add _ _ : simpl never.
Local Arguments Z.sub _ _ : simpl never.
Local Arguments Z.ltb _ _ : simpl never.
Local Arguments Z.eqb _ _ : simpl never.
Local Arguments Nat.eqb _ _ : simpl never.

Lemma existsb_filter_false (f g : Timer -> bool) (l : list Timer) :
  existsb f l = false -> existsb f (filter g l) = false.
Proof.
  induction l as [|a l IH]; simpl; [reflexivity|].
  intros H. apply orb_false_iff in H. destruct H as [Ha Hl].
  destruct (g a); simpl; [rewrite Ha|]; auto.
Qed.

Lemma existsb_app_false (f : Timer -> bool) (l : list Timer) (t : Timer) :
  existsb f l = false -> f t = false -> existsb f (l ++ [t]) = false.
Proof.
  intros Hl Ht. rewrite existsb_app. simpl. rewrite Hl, Ht. reflexivity.
Qed.

Section WithPlayer.
Variable P : Type.
Variable api : PlayerAPI P.

(** A pause, end or cue signal drops a pending teardown and arms a new one
    350 ms ahead that remembers the signal. *)
Lemma suspend_arms_debounce (d : PlayerState) (st : State P) :
  isSuspendSignal d = true ->
  pauseDestroyTimer (onPlayerStateChange api d st) = Some (nextTimerId st) /\
  In (mkTimer (nextTimerId st) (now st + DEBOUNCE_MS) None (CbPauseDestroy d))
     (timers (onPlayerStateChange api d st)) /\
  player (onPlayerStateChange api d st) = player st /\
  container (onPlayerStateChange api d st) = container st.
Proof.
  intros H. destruct_state st.
  destruct d; try discriminate H; unfold onPlayerStateChange;
    destruct pdt; simpl; repeat split;
    apply in_or_app; right; left; reflexivity.
Qed.

Lemma enforce_keeps_player (st : State P) :
  player st <> None -> player (enforceLowQuality api st) <> None.
Proof.
  destruct_state st. unfold enforceLowQuality, send, clearQualityRetry.
  destruct pl; destruct rt; simpl; intros H; congruence.
Qed.

Lemma enforce_keeps_container (st : State P) :
  container (enforceLowQuality api st) = container st /\
  pauseDestroyTimer (enforceLowQuality api st) = pauseDestroyTimer st.
Proof.
  destruct_state st. unfold enforceLowQuality, send, clearQualityRetry.
  destruct pl; destruct rt; simpl; split; reflexivity.
Qed.

(** A playing signal cancels the pending teardown; the player and the
    rendered region stay. *)
Lemma playing_cancels_debounce (id : nat) (st : State P) :
  pauseDestroyTimer st = Some id ->
  pauseDestroyTimer (onPlayerStateChange api PLAYING st) = None /\
  armed (Some id) (onPlayerStateChange api PLAYING st) = false /\
  (player st <> None -> player (onPlayerStateChange api PLAYING st) <> None) /\
  container (onPlayerStateChange api PLAYING st) = container st.
Proof.
  destruct_state st. simpl. intros ->.
  unfold onPlayerStateChange, removePauseOverlay, enforceLowQuality, send,
    clearQualityRetry.
  destruct low; destruct pl; destruct rt; simpl; repeat split;
    try discriminate; try congruence;
    try apply filter_not_armed;
    rewrite ?filter_app; simpl; rewrite ?existsb_app; simpl;
    rewrite ?orb_false_r;
    try apply filter_not_armed.
Qed.

(** The position kept at teardown, by cases on the read. *)
Lemma capturedTime_read (st : State P) (t : Q) :
  safeGetCurrentTime api st = Some t -> truthyNum t = true ->
  capturedTime api st = t.
Proof.
  destruct_state st. unfold capturedTime. simpl. intros -> ->. reflexivity.
Qed.

Lemma capturedTime_unreadable (st : State P) :
  safeGetCurrentTime api st = None -> truthyNum (lastPlaybackTime st) = true ->
  capturedTime api st = lastPlaybackTime st.
Proof.
  destruct_state st. unfold capturedTime. simpl. intros -> ->. reflexivity.
Qed.

(** A read of zero is treated like a failed read. *)
Lemma capturedTime_zero_read (st : State P) (t : Q) :
  safeGetCurrentTime api st = Some t -> truthyNum t = false ->
  truthyNum (lastPlaybackTime st) = true ->
  capturedTime api st = lastPlaybackTime st.
Proof.
  destruct_state st. unfold capturedTime. simpl. intros -> -> ->.
  reflexivity.
Qed.

Lemma clearQualityRetry_not_armed (st : State P) (h : nat) :
  qualityRetryTimer st = Some h -> armed (Some h) (clearQualityRetry st) = false.
Proof.
  destruct_state st. unfold clearQualityRetry. simpl. intros ->. simpl.
  apply filter_not_armed.
Qed.

(** What the teardown closure leaves behind. *)
Lemma teardown_commits (cause : PlayerState) (st : State P) :
  let st' := pauseDestroy api cause st in
  player st' = None /\
  lastPlaybackTime st' =
    match cause with ENDED => 0%Q | _ => capturedTime api st end /\
  container st' = Facade (currentVideoId st) (lastPlaybackTime st') /\
  qualityRetryTimer st' = None /\
  qualityMonitorTimer st' = None /\
  (forall h, qualityRetryTimer st = Some h -> armed (Some h) st' = false) /\
  (forall h, qualityMonitorTimer st = Some h -> armed (Some h) st' = false) /\
  (forall p, player st = Some p -> commands st' = (commands st ++ [CDestroy])%list).
Proof.
  destruct_state st.
  unfold pauseDestroy, send, clearQualityMonitor, clearQualityRetry.
  destruct cause; destruct pl as [p|]; destruct rt as [a|];
    destruct mt as [b|]; simpl;
    repeat split; try discriminate;
    try (intros h E; injection E as <-);
    try reflexivity;
    try apply filter_not_armed;
    try (apply existsb_filter_false; apply filter_not_armed).
Qed.

(** Debounce, end to end: a pause, end or cue signal with no timer pending
    and no playing signal afterwards.  The next thing to run is the
    teardown, 350 ms later: the player is gone, the facade of the current
    video is rendered with the kept position, and no timer is left. *)
Lemma debounce_commits (d : PlayerState) (st : State P) (p : P) :
  isSuspendSignal d = true -> timers st = [] -> player st = Some p ->
  exists st',
    fire_next api (onPlayerStateChange api d st) = Some st' /\
    now st' = now st + DEBOUNCE_MS /\
    player st' = None /\
    lastPlaybackTime st' =
      match d with
      | ENDED => 0%Q
      | _ => capturedTime api
               (set_player (Some (elapse api DEBOUNCE_MS p)) st)
      end /\
    container st' = Facade (currentVideoId st) (lastPlaybackTime st') /\
    commands st' = (commands st ++ [CDestroy])%list /\
    timers st' = [].
Proof.
  intros Hd Ht Hp. destruct_state st. simpl in Ht, Hp. subst tms pl.
  destruct d; try discriminate Hd; destruct pdt; destruct rt; destruct mt;
    (match goal with
     | |- exists st', fire_next api ?s = _ /\ _ =>
         let s1 := fresh "s1" in
         let E := fresh "E" in
         remember s as s1 eqn:E; state_compute_in E; subst s1
     end);
    (erewrite fire_next_head;
     [ | reflexivity | reflexivity | simpl; lia | intros u [] ]);
    timer_proj; eexists; (split; [reflexivity|]); state_compute;
    replace (nw + 350 - nw) with 350 by lia; repeat split.
Qed.

(** The slip in the captured position: when the read at teardown yields
    zero and an earlier position is known, the facade resumes at the
    earlier position. *)
Lemma zero_read_keeps_stale_position (d : PlayerState) (st : State P) (p : P)
      (t : Q) :
  isSuspendSignal d = true -> d <> ENDED ->
  timers st = [] -> player st = Some p ->
  getCurrentTime api (elapse api DEBOUNCE_MS p) = Some t ->
  truthyNum t = false ->
  truthyNum (lastPlaybackTime st) = true ->
  exists st',
    fire_next api (onPlayerStateChange api d st) = Some st' /\
    container st' = Facade (currentVideoId st) (lastPlaybackTime st).
Proof.
  intros Hd Hne Ht Hp Hread Hzero Hlast.
  destruct (debounce_commits d st Hd Ht Hp)
    as [st' [Hf [_ [_ [Hl [Hc _]]]]]].
  exists st'. split; [assumption|]. rewrite Hc, Hl.
  assert (Hcap : capturedTime api (set_player (Some (elapse api DEBOUNCE_MS p)) st)
                 = lastPlaybackTime st).
  { destruct_state st. unfold capturedTime, safeGetCurrentTime. simpl in *.
    rewrite Hread, Hzero, Hlast. reflexivity. }
  destruct d; try congruence; try discriminate Hd; rewrite Hcap; reflexivity.
Qed.

(** Debounce, cancelled: after a pause, end or cue signal followed by a
    playing signal no teardown is pending, whatever else is. *)
Lemma debounce_cancelled (d : PlayerState) (st : State P) :
  isSuspendSignal d = true ->
  (forall t, In t (timers st) -> isTeardown (callback t) = false) ->
  forall t,
    In t (timers (onPlayerStateChange api PLAYING (onPlayerStateChange api d st))) ->
    isTeardown (callback t) = false.
Proof.
  intros Hd Hold. destruct_state st. simpl in Hold.
  assert (K : forall id (l : list Timer) t,
             (forall u, In u l -> tid u = id \/ isTeardown (callback u) = false) ->
             In t (filter (fun u => negb (Nat.eqb (tid u) id)) l) ->
             isTeardown (callback t) = false).
  { intros id l t Hl Hin. apply filter_other_In in Hin.
    destruct Hin as [Hin Hne]. destruct (Hl t Hin); [contradiction | assumption]. }
  assert (F : forall id (l : list Timer) u,
             (forall v, In v l -> isTeardown (callback v) = false) ->
             In u (filter (fun v => negb (Nat.eqb (tid v) id)) l) ->
             isTeardown (callback u) = false).
  { intros id l u Hl Hin. apply filter_other_In in Hin.
    apply Hl, Hin. }
  destruct d; try discriminate Hd; destruct pdt; destruct low; destruct pl;
    destruct rt; state_compute; intros t; apply K; intros u Hu;
    repeat match goal with
           | H : In _ (_ ++ _) |- _ => apply in_app_or in H; destruct H as [H|H]
           | H : In _ (_ :: _) |- _ => destruct H as [<-|H]
           | H : In _ [] |- _ => contradiction
           | H : In _ (filter _ _) |- _ =>
               apply filter_other_In in H; destruct H as [H _]
           end;
    try (left; reflexivity); try (right; reflexivity);
    try (right; apply Hold; assumption).
Qed.

End WithPlayer.

(** The state of the scenario just before its last teardown: video B is
    loaded, its player exists and reports playhead 0; the last known
    position, two minutes, stems from video A. *)
Lemma before_teardown_of_B :
  run Sim.yieldingAPI 100 (removelast Scenarios.pauseAtZeroAfterResume)
      (init _) = Some Scenarios.endOfPrefix /\
  currentVideoId Scenarios.endOfPrefix = Some Scenarios.idB /\
  safeGetCurrentTime Sim.yieldingAPI Scenarios.endOfPrefix = Some (0 # 1000) /\
  lastPlaybackTime Scenarios.endOfPrefix = 120000 # 1000 /\
  timers Scenarios.endOfPrefix = [mkTimer 2 131350 None (CbPauseDestroy PAUSED)].
Proof. vm_compute. repeat split. Qed.

(** C1 -- Video A is paused two minutes in and torn down; video B is then
    loaded, started and paused while its playhead still reads 0.  When the
    debounce commits, the facade of B is rendered with resume offset 120 s,
    the position last captured for A, not with the position 0 read from
    B's player. *)
Theorem pause_at_zero_resumes_at_stale_position :
  run Sim.yieldingAPI 100 Scenarios.pauseAtZeroAfterResume (init _)
  = Some Scenarios.endOfPauseAtZero /\
  player Scenarios.endOfPauseAtZero = None /\
  container Scenarios.endOfPauseAtZero
  = Facade (Some Scenarios.idB) (120000 # 1000) /\
  lastPlaybackTime Scenarios.endOfPauseAtZero = 120000 # 1000.
Proof. vm_compute. repeat split. Qed.

End LifecycleFacts.

(* ------------------------------------------------------------------ *)
(** ** The simulated sequence *)

Module SequenceFacts.
Import Js Quality Extractor Controller Props QueueFacts.
Open Scope string_scope.
Open Scope Z_scope.

Local Arguments Z.add _ _ : simpl never.
Local Arguments Z.sub _ _ : simpl never.
Local Arguments Z.ltb _ _ : simpl never.
Local Arguments Z.eqb _ _ : simpl never.
Local Arguments Nat.eqb _ _ : simpl never.
Local Arguments Nat.ltb _ _ : simpl never.

Section WithPlayer.
Variable P : Type.
Variable api : PlayerAPI P.

(** The earlier draft's last step completes the sequence: the overlay is
    removed, the final narration is set, the control is re-enabled and its
    label restored. *)
Lemma last_step_in_earlier_draft (originalText : string) (st : State P) :
  let st' := simEndWith (@removeSimulateOverlay_in_draft P) originalText st in
  simulateOverlay st' = false /\
  statusText st' = "Video quality changed to: 240p (simulated)" /\
  buttonDisabled st' = false /\
  buttonText st' = originalText /\
  errors st' = errors st.
Proof. destruct_state st. simpl. repeat split. Qed.

(** Only the last step of the sequence ever re-enables the control. *)
Lemma callbacks_keep_control_disabled (cb : Callback) (st : State P) :
  buttonDisabled (runCallback api cb st) = buttonDisabled st.
Proof.
  destruct_state st.
  destruct cb; try reflexivity.
  - destruct pl; destruct rt; destruct mt; reflexivity.
  - destruct cause; destruct pl; destruct rt; destruct mt; reflexivity.
  - simpl. unfold retryTick, clearQualityRetry, send.
    destruct pl; simpl;
      repeat match goal with
             | |- context [if ?b then _ else _] => destruct b; simpl
             | |- context [match ?o with Some _ => _ | None => _ end] =>
                 destruct o; simpl
             end; reflexivity.
  - destruct pl; destruct low; reflexivity.
Qed.

(** The state right after an activation on an empty queue. *)
Lemma activation_on_empty_queue (st : State P) :
  timers st = [] ->
  simulateLowInternetExperience st =
  mkState (player st) (currentVideoId st) false None (qualityRetryCount st)
          (qualityMonitorTimer st) (lastPlaybackTime st) (pauseDestroyTimer st)
          (apiLoaded st) (onYouTubeIframeAPIReady st) (container st) true
          "Simulating..." true (buttonHidden st) "Simulating low internet..."
          (alerts st) (errors st) (commands st) (now st)
          [ mkTimer (nextTimerId st) (now st + 700) None CbSim700;
            mkTimer (S (nextTimerId st)) (now st + 1400) None CbSim1400;
            mkTimer (S (S (nextTimerId st))) (now st + 2100) None CbSim2100;
            mkTimer (S (S (S (nextTimerId st)))) (now st + 3000) None
                    (CbSimEnd (buttonText st)) ]
          (S (S (S (S (nextTimerId st))))).
Proof.
  destruct_state st. simpl. intros ->.
  destruct rt; destruct ov; state_compute; reflexivity.
Qed.

(** A direct call of [simulateLowInternetExperience] in script.js at
    time T with no other timer pending (no control and no callback of
    script.js makes this call).  From T the control is disabled and the
    narration reads "Simulating low internet..."; the next narrations are
    set at T+700, T+1400 and T+2100 ms.  The step at T+3000 ms calls
    [removeSimulateOverlay], which script.js does not declare: it raises a
    ReferenceError and nothing else of the step happens. *)
Lemma simulated_sequence_last_step_fails (st : State P) :
  timers st = [] ->
  let s0 := simulateLowInternetExperience st in
  (now s0 = now st /\ buttonDisabled s0 = true /\ simulateOverlay s0 = true /\
   statusText s0 = "Simulating low internet...") /\
  (exists s1, fires api 1 s0 = Some s1 /\ now s1 = now st + 700 /\
     buttonDisabled s1 = true /\ statusText s1 = "Diagnosing network...") /\
  (exists s2, fires api 2 s0 = Some s2 /\ now s2 = now st + 1400 /\
     buttonDisabled s2 = true /\
     statusText s2 = "Bandwidth detected: 420 kbps (simulated)") /\
  (exists s3, fires api 3 s0 = Some s3 /\ now s3 = now st + 2100 /\
     buttonDisabled s3 = true /\
     statusText s3 = "Applying lower resolution: 240p (simulated)") /\
  (exists s4, fires api 4 s0 = Some s4 /\ now s4 = now st + 3000 /\
     errors s4 =
       (errors st ++ ["ReferenceError: removeSimulateOverlay is not defined"])%list /\
     simulateOverlay s4 = true /\
     statusText s4 = "Applying lower resolution: 240p (simulated)" /\
     buttonDisabled s4 = true /\
     buttonText s4 = "Simulating..." /\
     timers s4 = []).
Proof.
  intros Ht. cbv zeta. rewrite (activation_on_empty_queue st Ht).
  destruct_state st. simpl in Ht. subst tms. simpl.
  split; [repeat split|].
  assert (F1 : forall s, timers s = [] -> fire_next api s = None).
  { intros s H. unfold fire_next. rewrite H. reflexivity. }
  repeat match goal with
         | |- _ /\ _ => split
         | |- exists s, _ => eexists
         | |- fires api (S _) _ = _ => rewrite fires_S
         | |- fires api O _ = _ => reflexivity
         | |- match fire_next api ?s with _ => _ end = _ =>
             erewrite (@fire_next_head _ api s);
             [ simpl
             | reflexivity
             | reflexivity
             | simpl; lia
             | simpl; intros u Hu;
               repeat (destruct Hu as [<-|Hu]; [simpl; split; lia|]);
               contradiction ]
         | |- _ = _ => reflexivity
         end.
Qed.

End WithPlayer.

End SequenceFacts.

(* ------------------------------------------------------------------ *)
(** ** Every reachable state: the discipline of the timer handles *)

Module ReachFacts.
Import Js Quality Extractor Controller Props Reach QueueFacts.
Open Scope string_scope.
Open Scope Z_scope.

Local Arguments Z.add _ _ : simpl never.
Local Arguments Z.sub _ _ : simpl never.
Local Arguments Z.ltb _ _ : simpl never.
Local Arguments Z.eqb _ _ : simpl never.
Local Arguments Nat.eqb _ _ : simpl never.
Local Arguments Nat.leb _ _ : simpl never.

(** Read the fields of a state that is given by its components. *)
Ltac state_proj :=
  cbn [player currentVideoId lowBandwidthMode qualityRetryTimer
       qualityRetryCount qualityMonitorTimer lastPlaybackTime
       pauseDestroyTimer apiLoaded onYouTubeIframeAPIReady container
       simulateOverlay buttonText buttonDisabled buttonHidden statusText
       alerts errors commands now timers nextTimerId].

Ltac state_proj_in H :=
  cbn [player currentVideoId lowBandwidthMode qualityRetryTimer
       qualityRetryCount qualityMonitorTimer lastPlaybackTime
       pauseDestroyTimer apiLoaded onYouTubeIframeAPIReady container
       simulateOverlay buttonText buttonDisabled buttonHidden statusText
       alerts errors commands now timers nextTimerId] in H.

(** Where a member of a queue built by the handlers comes from. *)
Ltac split_members :=
  repeat match goal with
         | H : In _ (_ ++ _) |- _ => apply in_app_or in H; destruct H as [H|H]
         | H : In _ (_ :: _) |- _ => destruct H as [H|H]
         | H : In _ [] |- _ => destruct H
         | H : In _ (filter _ _) |- _ =>
             let K := fresh "K" in
             apply filter_In in H; destruct H as [H K];
             try (apply Bool.negb_true_iff, Nat.eqb_neq in K)
         end.

Lemma NoDup_snoc (l : list Timer) (n : nat) (d : Z) (p : option Z)
      (cb : Callback) :
  NoDup (map tid l) -> (forall t, In t l -> (tid t < n)%nat) ->
  NoDup (map tid (l ++ [mkTimer n d p cb])).
Proof.
  intros Hn Hb. rewrite map_app. simpl.
  apply NoDup_app; [assumption | repeat constructor; intros [] |].
  intros x Hx [<-|[]]. apply in_map_iff in Hx.
  destruct Hx as [t [E Hin]]. specialize (Hb t Hin). simpl in E. lia.
Qed.

Section WithPlayer.
Variable P : Type.
Variable api : PlayerAPI P.

(** Evaluate a handler applied to a state given by its components, and
    decide the branches that depend on data. *)
Ltac settle_branches E :=
  repeat match type of E with
         | context [if ?c then _ else _] => destruct c eqn:?
         end.

Ltac read_bounds :=
  repeat match goal with
         | H : (_ <=? _)%nat = false |- _ => apply Nat.leb_gt in H
         | H : (_ <=? _)%nat = true |- _ => apply Nat.leb_le in H
         end.

(** Equal handles are equal numbers; a global that holds a handle holds
    an issued one. *)
Ltac read_handles :=
  repeat match goal with
         | E : ?x = Some _, H : below ?x _ |- _ =>
             is_var x; rewrite E in H; cbn [below] in H
         | E : Some ?a = Some ?b |- _ =>
             first [ is_var a; injection E as -> | is_var b; injection E as <-
                   | injection E as E ]
         end.

Ltac close_leaf :=
  first [ reflexivity | discriminate | contradiction | congruence | lia
        | (read_handles;
           first [ reflexivity | discriminate | contradiction | congruence
                 | lia ]) ].

Ltac solve_member Ho :=
  let t := fresh "t" in
  let Hin := fresh "Hin" in
  intros t Hin; split_members;
  try (match goal with
       | H : In t _ |- _ =>
           pose proof (Ho t H) as (? & ? & ? & ? & ? & ? & ?)
       end);
  try subst t; timer_proj; cbn [isRetry isMonitor isTeardown];
  repeat split; intros;
  try close_leaf;
  try (intuition close_leaf).

Lemma below_mono (h : option nat) (n m : nat) :
  below h n -> (n <= m)%nat -> below h m.
Proof. destruct h; simpl; [lia | trivial]. Qed.

Ltac solve_nodup Ho Hd :=
  repeat first
         [ exact Hd
         | apply CeilingFacts.NoDup_filter_tid
         | apply NoDup_snoc;
           [ | let t := fresh "t" in
               let Hin := fresh "Hin" in
               intros t Hin; split_members;
               try (match goal with
                    | H : In t _ |- _ => pose proof (Ho t H) as [? _]
                    end);
               try subst t; timer_proj; lia ] ].

Ltac solve_issued :=
  unfold issued; state_proj; cbn [below];
  repeat split;
  first [ exact I | lia | assumption
        | (eapply below_mono; [eassumption | lia]) ].

Ltac solve_consistent Ho Hd Hc Ha :=
  unfold consistent, orderly, MAX_RETRIES, RETRY_MS, MONITOR_MS; state_proj;
  read_bounds;
  split; [solve_member Ho | split; [solve_nodup Ho Hd | split;
    [try lia
    | split;
      [ try (intros _; reflexivity); try exact Ha;
        try (intros _; apply Ha; discriminate);
        try (intros; congruence); try tauto
      | solve_issued ]]]].

Ltac open_state st H Ho Hd Hc Ha :=
  let Hi := fresh "Hi" in
  let Hi1 := fresh "Hi1" in
  let Hi2 := fresh "Hi2" in
  let Hi3 := fresh "Hi3" in
  destruct_state st; destruct H as [Ho [Hd [Hc [Ha Hi]]]];
  destruct Hi as [Hi1 [Hi2 Hi3]];
  unfold orderly in Ho; state_proj_in Ho; state_proj_in Hd;
  state_proj_in Hc; state_proj_in Ha;
  state_proj_in Hi1; state_proj_in Hi2; state_proj_in Hi3;
  unfold MAX_RETRIES, RETRY_MS, MONITOR_MS in *.

Ltac eval_handler :=
  cbn [below] in *;
  match goal with
  | |- consistent ?s =>
      let s1 := fresh "s1" in
      let E := fresh "E" in
      remember s as s1 eqn:E; state_compute_in E; settle_branches E; subst s1
  end.

Lemma consistent_init : consistent (init P).
Proof.
  unfold consistent, issued. simpl.
  repeat split; try contradiction; try lia. constructor.
Qed.

Lemma clearQualityRetry_consistent (st : State P) :
  consistent st -> consistent (clearQualityRetry st).
Proof.
  intros H. open_state st H Ho Hd Hc Ha.
  destruct rt; eval_handler; solve_consistent Ho Hd Hc Ha.
Qed.

Lemma enforce_consistent (st : State P) :
  consistent st -> consistent (enforceLowQuality api st).
Proof.
  intros H. open_state st H Ho Hd Hc Ha.
  destruct pl, rt; eval_handler; solve_consistent Ho Hd Hc Ha.
Qed.

Lemma clearQualityMonitor_consistent (st : State P) :
  consistent st -> consistent (clearQualityMonitor st).
Proof.
  intros H. open_state st H Ho Hd Hc Ha.
  destruct mt; eval_handler; solve_consistent Ho Hd Hc Ha.
Qed.

Lemma startQualityMonitor_consistent (st : State P) :
  consistent st -> consistent (startQualityMonitor st).
Proof.
  intros H. open_state st H Ho Hd Hc Ha.
  destruct mt; eval_handler; solve_consistent Ho Hd Hc Ha.
Qed.

Lemma toggle_consistent (st : State P) :
  consistent st -> consistent (toggleLowInternetMode api st).
Proof.
  intros H. open_state st H Ho Hd Hc Ha.
  destruct low, pl, rt, mt; eval_handler; solve_consistent Ho Hd Hc Ha.
Qed.

Lemma buttonClick_consistent (st : State P) :
  consistent st -> consistent (buttonClick api st).
Proof.
  intros H. unfold buttonClick.
  destruct (lowBandwidthMode (toggleLowInternetMode api st)).
  - apply startQualityMonitor_consistent, toggle_consistent, H.
  - apply clearQualityMonitor_consistent, toggle_consistent, H.
Qed.

Lemma onPlayerReady_consistent (st : State P) :
  consistent st -> consistent (onPlayerReady api st).
Proof.
  intros H. open_state st H Ho Hd Hc Ha.
  destruct low, pl; eval_handler; solve_consistent Ho Hd Hc Ha.
Qed.

Lemma readyDefer_consistent (st : State P) :
  consistent st -> consistent (readyDefer api st).
Proof.
  intros H. open_state st H Ho Hd Hc Ha.
  destruct pl, rt, mt; eval_handler; solve_consistent Ho Hd Hc Ha.
Qed.

Lemma onPlayerStateChange_consistent (d : PlayerState) (st : State P) :
  consistent st -> consistent (onPlayerStateChange api d st).
Proof.
  intros H. open_state st H Ho Hd Hc Ha.
  destruct d, low, pl, rt, pdt; eval_handler; solve_consistent Ho Hd Hc Ha.
Qed.

Lemma onPlayerQualityChange_consistent (q : string) (st : State P) :
  consistent st -> consistent (onPlayerQualityChange api q st).
Proof.
  intros H. open_state st H Ho Hd Hc Ha.
  destruct low, pl, rt; eval_handler; solve_consistent Ho Hd Hc Ha.
Qed.

Lemma pauseDestroy_consistent (cause : PlayerState) (st : State P) :
  consistent st -> consistent (pauseDestroy api cause st).
Proof.
  intros H. open_state st H Ho Hd Hc Ha.
  destruct cause, pl, rt, mt; eval_handler; solve_consistent Ho Hd Hc Ha.
Qed.

Lemma loadClick_consistent (url : str) (st : State P) :
  consistent st -> consistent (loadClick url st).
Proof.
  intros H. open_state st H Ho Hd Hc Ha. unfold loadClick.
  destruct (getYouTubeID url) as [videoId|];
    destruct rt, mt; eval_handler; solve_consistent Ho Hd Hc Ha.
Qed.

Lemma facadeClick_consistent (st : State P) :
  consistent st -> consistent (facadeClick api st).
Proof.
  intros H. open_state st H Ho Hd Hc Ha.
  destruct cont, apil; eval_handler; solve_consistent Ho Hd Hc Ha.
Qed.

Lemma apiReady_consistent (st : State P) :
  consistent st -> consistent (apiReady api st).
Proof.
  intros H. open_state st H Ho Hd Hc Ha.
  destruct cbk as [[v s]|]; eval_handler; solve_consistent Ho Hd Hc Ha.
Qed.

Lemma simulate_consistent (st : State P) :
  consistent st -> consistent (simulateLowInternetExperience st).
Proof.
  intros H. open_state st H Ho Hd Hc Ha.
  destruct rt, ov; eval_handler; solve_consistent Ho Hd Hc Ha.
Qed.

Lemma handle_consistent (e : Event P) (st : State P) :
  consistent st -> consistent (handle api e st).
Proof.
  intros H. destruct e; unfold handle.
  - now apply loadClick_consistent.
  - now apply facadeClick_consistent.
  - now apply apiReady_consistent.
  - now apply onPlayerReady_consistent.
  - now apply onPlayerStateChange_consistent.
  - now apply onPlayerQualityChange_consistent.
  - destruct (buttonDisabled st); [assumption|].
    now apply buttonClick_consistent.
  - now apply simulate_consistent.
  - open_state st H Ho Hd Hc Ha.
    destruct pl; eval_handler; solve_consistent Ho Hd Hc Ha.
Qed.

(** A retry tick runs while its interval is pending: the counter is below
    the ceiling when the tick starts. *)
Lemma retryTick_consistent (st : State P) :
  consistent st ->
  (exists t, In t (timers st) /\ isRetry (callback t) = true) ->
  consistent (retryTick api st).
Proof.
  intros H [t0 [Hin0 Hr0]]. open_state st H Ho Hd Hc Ha.
  state_proj_in Hin0.
  destruct (Ho t0 Hin0) as [_ [Hret _]].
  destruct (Hret Hr0) as [Hrt [_ [Hpl Hlt]]].
  destruct pl as [p|]; [|congruence]. destruct rt as [a|]; [|discriminate].
  eval_handler; solve_consistent Ho Hd Hc Ha.
Qed.

Lemma monitorTick_consistent (st : State P) :
  consistent st -> consistent (monitorTick api st).
Proof.
  intros H. open_state st H Ho Hd Hc Ha.
  destruct pl, low; eval_handler; solve_consistent Ho Hd Hc Ha.
Qed.

Lemma set_statusText_consistent (v : string) (st : State P) :
  consistent st -> consistent (set_statusText v st).
Proof.
  intros H. open_state st H Ho Hd Hc Ha.
  eval_handler; solve_consistent Ho Hd Hc Ha.
Qed.

Lemma simEnd_consistent (tx : string) (st : State P) :
  consistent st ->
  consistent (simEndWith (removeSimulateOverlay_in_script P) tx st).
Proof.
  intros H. open_state st H Ho Hd Hc Ha.
  eval_handler; solve_consistent Ho Hd Hc Ha.
Qed.

Lemma runCallback_consistent (cb : Callback) (st : State P) :
  consistent st ->
  (isRetry cb = true ->
   exists t, In t (timers st) /\ isRetry (callback t) = true) ->
  consistent (runCallback api cb st).
Proof.
  intros H Hr. destruct cb; unfold runCallback.
  - now apply readyDefer_consistent.
  - now apply pauseDestroy_consistent.
  - apply retryTick_consistent; [assumption | now apply Hr].
  - now apply monitorTick_consistent.
  - now apply set_statusText_consistent.
  - now apply set_statusText_consistent.
  - now apply set_statusText_consistent.
  - now apply simEnd_consistent.
Qed.

Lemma passTime_consistent (t : Z) (st : State P) :
  consistent st -> consistent (passTime api t st).
Proof.
  intros H. unfold passTime. destruct (now st <? t); [|assumption].
  open_state st H Ho Hd Hc Ha.
  destruct pl; eval_handler; solve_consistent Ho Hd Hc Ha.
Qed.

Lemma passTime_timers (t : Z) (st : State P) :
  timers (passTime api t st) = timers st.
Proof.
  unfold passTime. destruct (now st <? t); [|reflexivity].
  destruct_state st. reflexivity.
Qed.

Lemma clearTimer_consistent (id : nat) (st : State P) :
  consistent st -> consistent (clearTimer id st).
Proof.
  intros H. open_state st H Ho Hd Hc Ha.
  eval_handler; solve_consistent Ho Hd Hc Ha.
Qed.

Lemma rearm_consistent (t : Timer) (d : Z) (st : State P) :
  consistent st -> consistent (rearm t d st).
Proof.
  intros H. open_state st H Ho Hd Hc Ha.
  unfold consistent, orderly, rearm, set_timers, MAX_RETRIES, RETRY_MS,
    MONITOR_MS. state_proj.
  split; [|split; [|split; [|split]]]; try assumption.
  - intros u Hu. apply in_map_iff in Hu. destruct Hu as [v [E Hv]].
    specialize (Ho v Hv).
    destruct (Nat.eqb (tid v) (tid t)); subst u; timer_proj; exact Ho.
  - rewrite CeilingFacts.map_tid_shift. exact Hd.
  - repeat split; assumption.
Qed.

Lemma rearm_keeps (t : Timer) (d : Z) (st : State P) :
  In t (timers st) ->
  exists u, In u (timers (rearm t d st)) /\ callback u = callback t.
Proof.
  intros Hin. destruct_state st. unfold rearm, set_timers. state_proj.
  state_proj_in Hin.
  exists (mkTimer (tid t) (due t + d) (period t) (callback t)).
  split; [|reflexivity].
  apply in_map_iff. exists t. rewrite Nat.eqb_refl. split; [reflexivity|].
  exact Hin.
Qed.

(** Running a timer of the queue keeps the discipline. *)
Lemma fire_consistent (t : Timer) (st : State P) :
  In t (timers st) -> consistent st -> consistent (fire api t st).
Proof.
  intros Hin H. unfold fire.
  pose proof (passTime_consistent (due t) H) as H1.
  assert (Hin1 : In t (timers (passTime api (due t) st)))
    by (rewrite passTime_timers; exact Hin).
  destruct (period t) as [d|] eqn:Ep.
  - apply runCallback_consistent; [now apply rearm_consistent|].
    intros Hr. destruct (rearm_keeps t d _ Hin1) as [u [Hu Hcb]].
    exists u. split; [exact Hu | now rewrite Hcb].
  - apply runCallback_consistent; [now apply clearTimer_consistent|].
    intros Hr. exfalso.
    destruct H1 as [Ho _]. destruct (Ho t Hin1) as [_ [Hret _]].
    destruct (Hret Hr) as [_ [Hper _]]. congruence.
Qed.

Lemma fire_next_consistent (st st' : State P) :
  fire_next api st = Some st' -> consistent st -> consistent st'.
Proof.
  unfold fire_next. destruct (earliest (timers st)) as [t|] eqn:E;
    [|discriminate].
  intros K H. injection K as <-.
  apply fire_consistent; [now apply earliest_In | assumption].
Qed.

(** The discipline holds in every reachable state. *)
Lemma reachable_consistent (ok : Event P -> bool) (st : State P) :
  reachableVia api ok st -> consistent st.
Proof.
  induction 1 as [|e st _ _ IH|st st' _ IH Hf|t st _ IH].
  - apply consistent_init.
  - now apply handle_consistent.
  - eapply fire_next_consistent; eassumption.
  - now apply passTime_consistent.
Qed.

(** Where a timed trace of events ends is a reachable state. *)
Lemma advance_reachable (ok : Event P -> bool) (fuel : nat) (t : Z)
      (st st' : State P) :
  reachableVia api ok st -> advance api fuel t st = Some st' ->
  reachableVia api ok st'.
Proof.
  revert st. induction fuel as [|fuel IH]; intros st Hr; simpl.
  - destruct (earliest (timers st)) as [tm|] eqn:E.
    + destruct (due tm <? t); [discriminate|].
      intros K. injection K as <-. now apply reach_wait.
    + intros K. injection K as <-. now apply reach_wait.
  - destruct (earliest (timers st)) as [tm|] eqn:E.
    + destruct (due tm <? t).
      * apply IH. apply reach_timer with (st := st); [assumption|].
        unfold fire_next. now rewrite E.
      * intros K. injection K as <-. now apply reach_wait.
    + intros K. injection K as <-. now apply reach_wait.
Qed.

Lemma run_reachable (ok : Event P -> bool) (fuel : nat)
      (trace : list (Z * Event P)) (st st' : State P) :
  forallb (fun te => ok (snd te)) trace = true ->
  reachableVia api ok st -> run api fuel trace st = Some st' ->
  reachableVia api ok st'.
Proof.
  revert st. induction trace as [|[t e] rest IH]; simpl; intros st Hok Hr K.
  - injection K as <-. assumption.
  - apply andb_true_iff in Hok. destruct Hok as [He Hrest].
    destruct (advance api fuel t st) as [st1|] eqn:Ea; [|discriminate].
    apply (IH (handle api e st1)); [assumption | | assumption].
    apply reach_event; [assumption|].
    eapply advance_reachable; eassumption.
Qed.

(** *** The label of the toggle *)

Ltac eval_labelled :=
  match goal with
  | |- labelled ?s =>
      let s1 := fresh "s1" in
      let E := fresh "E" in
      remember s as s1 eqn:E; state_compute_in E; settle_branches E; subst s1
  end;
  unfold labelled, labelFor; state_proj; split; reflexivity.

Ltac open_labelled st H :=
  let Hb := fresh "Hb" in
  let Hd := fresh "Hd" in
  destruct_state st; destruct H as [Hb Hd];
  state_proj_in Hb; state_proj_in Hd;
  match type of Hb with ?x = _ => subst x end;
  match type of Hd with ?x = _ => subst x end.

Lemma handle_labelled (e : Event P) (st : State P) :
  wired e = true -> labelled st -> labelled (handle api e st).
Proof.
  intros Hw H. open_labelled st H.
  destruct e; try discriminate Hw; unfold handle.
  - unfold loadClick. destruct (getYouTubeID url);
      destruct low, rt, mt; eval_labelled.
  - destruct low, cont, apil; eval_labelled.
  - destruct low, cbk as [[v s]|]; eval_labelled.
  - destruct low, pl; eval_labelled.
  - destruct d, low, pl, rt, pdt; eval_labelled.
  - destruct low, pl, rt; eval_labelled.
  - destruct low, pl, rt, mt; eval_labelled.
  - destruct low, pl; eval_labelled.
Qed.

Lemma runCallback_labelled (cb : Callback) (st : State P) :
  labelled st -> labelled (runCallback api cb st).
Proof.
  intros H. open_labelled st H.
  destruct cb; unfold runCallback.
  - destruct low, pl, rt, mt; eval_labelled.
  - destruct cause, low, pl, rt, mt; eval_labelled.
  - destruct low, pl, rt; eval_labelled.
  - destruct low, pl; eval_labelled.
  - destruct low; eval_labelled.
  - destruct low; eval_labelled.
  - destruct low; eval_labelled.
  - destruct low; eval_labelled.
Qed.

Lemma fire_labelled (t : Timer) (st : State P) :
  labelled st -> labelled (fire api t st).
Proof.
  intros H. unfold fire. apply runCallback_labelled.
  assert (H1 : labelled (passTime api (due t) st)).
  { unfold passTime. destruct (now st <? due t); [|assumption].
    open_labelled st H. destruct low, pl; eval_labelled. }
  destruct (period t) as [d|].
  - revert H1. generalize (passTime api (due t) st). intros s H1.
    open_labelled s H1. destruct low; eval_labelled.
  - revert H1. generalize (passTime api (due t) st). intros s H1.
    open_labelled s H1. destruct low; eval_labelled.
Qed.

(** As long as only the bound events arrive, the label of the toggle
    tells the mode and the toggle is enabled. *)
Lemma reachable_labelled (st : State P) :
  reachableVia api (@wired P) st -> labelled st.
Proof.
  induction 1 as [|e st He _ IH|st st' _ IH Hf|t st _ IH].
  - split; reflexivity.
  - now apply handle_labelled.
  - unfold fire_next in Hf. destruct (earliest (timers st)); [|discriminate].
    injection Hf as <-. now apply fire_labelled.
  - unfold passTime. destruct (now st <? t); [|assumption].
    open_labelled st IH. destruct low, pl; eval_labelled.
Qed.

Lemma reachableVia_weaken (ok ok' : Event P -> bool) (st : State P) :
  (forall e, ok e = true -> ok' e = true) ->
  reachableVia api ok st -> reachableVia api ok' st.
Proof.
  intros Hw. induction 1 as [|e st He _ IH|st st' _ IH Hf|t st _ IH].
  - apply reach_init.
  - apply reach_event; [now apply Hw | assumption].
  - now apply reach_timer with (st := st).
  - now apply reach_wait.
Qed.

(** At most one member of a queue can carry the handle a global holds. *)
Lemma at_most_one (f : Timer -> bool) (h : option nat) (l : list Timer) :
  NoDup (map tid l) ->
  (forall t, In t l -> f t = true -> h = Some (tid t)) ->
  (List.length (filter f l) <= 1)%nat.
Proof.
  induction l as [|a l IH]; simpl; intros Hn Hh; [lia|].
  inversion Hn as [|x xs Hnot Hn']; subst.
  assert (IHl : (List.length (filter f l) <= 1)%nat).
  { apply IH; [assumption|]. intros t Ht. apply Hh. now right. }
  destruct (f a) eqn:Fa; [|assumption].
  destruct (filter f l) as [|b r] eqn:Er; [simpl; lia|].
  exfalso. assert (Hb : In b (filter f l)) by (rewrite Er; now left).
  apply filter_In in Hb. destruct Hb as [Hb Fb].
  pose proof (Hh a (or_introl eq_refl) Fa) as Ea.
  pose proof (Hh b (or_intror Hb) Fb) as Eb.
  apply Hnot. apply in_map_iff. exists b. split; [congruence | assumption].
Qed.

(** X1 -- Retry intervals never pile up.  In every state the page can
    reach, whatever events arrived (the simulated sequence included) and
    whatever timers ran: at most one retry interval is pending; a pending
    one is the 1200 ms interval whose handle [qualityRetryTimer] holds, a
    player exists, and fewer than five ticks have been counted.  The tick
    counter never exceeds five. *)
Theorem retry_interval_unique (st : State P) :
  reachable api st ->
  (List.length (pending isRetry st) <= 1)%nat /\
  (forall t, In t (pending isRetry st) ->
     qualityRetryTimer st = Some (tid t) /\ period t = Some RETRY_MS /\
     player st <> None /\ (qualityRetryCount st < MAX_RETRIES)%nat) /\
  (qualityRetryCount st <= MAX_RETRIES)%nat.
Proof.
  intros Hr. destruct (reachable_consistent Hr) as [Ho [Hd [Hc _]]].
  split; [|split; [|exact Hc]].
  - apply at_most_one with (h := qualityRetryTimer st); [exact Hd|].
    intros t Hin Hk. destruct (Ho t Hin) as [_ [Hret _]].
    now destruct (Hret Hk).
  - intros t Hin. apply filter_In in Hin. destruct Hin as [Hin Hk].
    destruct (Ho t Hin) as [_ [Hret _]]. exact (Hret Hk).
Qed.

(** X2 -- Monitor intervals never pile up, although the toggle control
    starts the monitor twice in a row when the mode goes on: in every
    reachable state at most one monitor interval is pending, and a pending
    one is the 700 ms interval whose handle [qualityMonitorTimer] holds. *)
Theorem monitor_interval_unique (st : State P) :
  reachable api st ->
  (List.length (pending isMonitor st) <= 1)%nat /\
  (forall t, In t (pending isMonitor st) ->
     qualityMonitorTimer st = Some (tid t) /\ period t = Some MONITOR_MS).
Proof.
  intros Hr. destruct (reachable_consistent Hr) as [Ho [Hd _]].
  split.
  - apply at_most_one with (h := qualityMonitorTimer st); [exact Hd|].
    intros t Hin Hk. destruct (Ho t Hin) as [_ [_ [Hmon _]]].
    now destruct (Hmon Hk).
  - intros t Hin. apply filter_In in Hin. destruct Hin as [Hin Hk].
    destruct (Ho t Hin) as [_ [_ [Hmon _]]]. exact (Hmon Hk).
Qed.

(** X3 -- One teardown at most.  In every reachable state at most one
    debounced teardown is pending, however many pause, end and cue signals
    arrived; a pending one is the timeout whose handle [pauseDestroyTimer]
    holds. *)
Theorem teardown_unique (st : State P) :
  reachable api st ->
  (List.length (pending isTeardown st) <= 1)%nat /\
  (forall t, In t (pending isTeardown st) ->
     pauseDestroyTimer st = Some (tid t) /\ period t = None).
Proof.
  intros Hr. destruct (reachable_consistent Hr) as [Ho [Hd _]].
  split.
  - apply at_most_one with (h := pauseDestroyTimer st); [exact Hd|].
    intros t Hin Hk. destruct (Ho t Hin) as [_ [_ [_ [Htd _]]]].
    now destruct (Htd Hk).
  - intros t Hin. apply filter_In in Hin. destruct Hin as [Hin Hk].
    destruct (Ho t Hin) as [_ [_ [_ [Htd _]]]]. exact (Htd Hk).
Qed.

(** X4 -- The label of the toggle tells the mode.  In every state reached
    through the events that script.js binds (load, facade click, runtime
    ready, player callbacks, the toggle; not the unbound simulated
    sequence) and through the timers: the toggle reads "Disable Low
    Internet" exactly when the low-internet flag is set, "Simulate Low
    Internet" otherwise, and it is never disabled. *)
Theorem toggle_label_tells_mode (st : State P) :
  reachableVia api (@wired P) st ->
  buttonText st = labelFor (lowBandwidthMode st) /\
  buttonDisabled st = false /\
  (lowBandwidthMode st = true <-> buttonText st = "Disable Low Internet").
Proof.
  intros Hr. destruct (reachable_labelled Hr) as [Hb Hd].
  split; [exact Hb | split; [exact Hd|]].
  rewrite Hb. destruct (lowBandwidthMode st); simpl; split; intros H;
    try reflexivity; discriminate H.
Qed.

(** X5 -- No player before the runtime.  In every reachable state in which
    the global [player] holds a player object the player runtime has been
    loaded: [createPlayer] never runs ahead of it. *)
Theorem player_needs_runtime (st : State P) :
  reachable api st -> player st <> None -> apiLoaded st = true.
Proof.
  intros Hr. destruct (reachable_consistent Hr) as [_ [_ [_ [Ha _]]]]. exact Ha.
Qed.

End WithPlayer.

(** The scenario that ends with a retry interval, a monitor interval and a
    teardown pending is a run of bound events. *)
Lemma endOfBeforeLoad_reachable :
  reachableVia Sim.yieldingAPI (@wired _) Scenarios.endOfBeforeLoad.
Proof.
  apply run_reachable
    with (fuel := 100%nat) (trace := Scenarios.beforeLoad) (st := init _).
  - reflexivity.
  - apply reach_init.
  - vm_compute. reflexivity.
Qed.

Lemma endOfBeforeLoad_pending :
  map tid (pending isRetry Scenarios.endOfBeforeLoad) = [1%nat] /\
  map tid (pending isMonitor Scenarios.endOfBeforeLoad) = [3%nat] /\
  map tid (pending isTeardown Scenarios.endOfBeforeLoad) = [4%nat].
Proof. vm_compute. repeat split. Qed.

Lemma retry_interval_unique_witness :
  (List.length (pending isRetry Scenarios.endOfBeforeLoad) <= 1)%nat /\
  (forall t, In t (pending isRetry Scenarios.endOfBeforeLoad) ->
     qualityRetryTimer Scenarios.endOfBeforeLoad = Some (tid t) /\
     period t = Some RETRY_MS /\
     player Scenarios.endOfBeforeLoad <> None /\
     (qualityRetryCount Scenarios.endOfBeforeLoad < MAX_RETRIES)%nat) /\
  (qualityRetryCount Scenarios.endOfBeforeLoad <= MAX_RETRIES)%nat.
Proof.
  apply (@retry_interval_unique _ Sim.yieldingAPI).
  apply reachableVia_weaken with (ok := @wired _); [reflexivity|].
  exact endOfBeforeLoad_reachable.
Defined.

Lemma monitor_interval_unique_witness :
  (List.length (pending isMonitor Scenarios.endOfBeforeLoad) <= 1)%nat /\
  (forall t, In t (pending isMonitor Scenarios.endOfBeforeLoad) ->
     qualityMonitorTimer Scenarios.endOfBeforeLoad = Some (tid t) /\
     period t = Some MONITOR_MS).
Proof.
  apply (@monitor_interval_unique _ Sim.yieldingAPI).
  apply reachableVia_weaken with (ok := @wired _); [reflexivity|].
  exact endOfBeforeLoad_reachable.
Defined.

Lemma teardown_unique_witness :
  (List.length (pending isTeardown Scenarios.endOfBeforeLoad) <= 1)%nat /\
  (forall t, In t (pending isTeardown Scenarios.endOfBeforeLoad) ->
     pauseDestroyTimer Scenarios.endOfBeforeLoad = Some (tid t) /\
     period t = None).
Proof.
  apply (@teardown_unique _ Sim.yieldingAPI).
  apply reachableVia_weaken with (ok := @wired _); [reflexivity|].
  exact endOfBeforeLoad_reachable.
Defined.

Lemma toggle_label_tells_mode_witness :
  buttonText Scenarios.endOfBeforeLoad
  = labelFor (lowBandwidthMode Scenarios.endOfBeforeLoad) /\
  buttonDisabled Scenarios.endOfBeforeLoad = false /\
  (lowBandwidthMode Scenarios.endOfBeforeLoad = true <->
   buttonText Scenarios.endOfBeforeLoad = "Disable Low Internet").
Proof.
  exact (toggle_label_tells_mode endOfBeforeLoad_reachable).
Defined.

Lemma player_needs_runtime_witness :
  apiLoaded Scenarios.endOfBeforeLoad = true.
Proof.
  apply (@player_needs_runtime _ Sim.yieldingAPI).
  - apply reachableVia_weaken with (ok := @wired _); [reflexivity|].
    exact endOfBeforeLoad_reachable.
  - vm_compute. discriminate.
Defined.

End ReachFacts.

(* ------------------------------------------------------------------ *)
(** ** The extractor on every input: what it needs and what it accepts *)

Module LinkFacts.
Import Js Regex Extractor Props Links RegexFacts.

Lemma contains_infix (n pre post : str) : contains n (pre ++ n ++ post) = true.
Proof.
  induction pre as [|a pre IH].
  - destruct post as [|b post], n as [|x n]; simpl;
      try reflexivity;
      try (rewrite N.eqb_refl);
      try (rewrite app_nil_r);
      try (pose proof (strip_prefix_complete n []) as E;
           rewrite app_nil_r in E; rewrite E; reflexivity);
      try (rewrite strip_prefix_complete; reflexivity).
  - simpl app.
    change (contains n (a :: pre ++ n ++ post))
      with (match strip_prefix n (a :: pre ++ n ++ post) with
            | Some _ => true
            | None => contains n (pre ++ n ++ post)
            end).
    rewrite IH. now destruct (strip_prefix n (a :: pre ++ n ++ post)).
Qed.

(** The host part of the pattern matches one of the two host names. *)
Lemma host_matched (X : Type) (s : str) (c : option str)
      (k : str -> option str -> option X) (x : X) :
  run host s c k = Some x ->
  (exists rest, s = LONG_HOST ++ rest /\
                run (Alt alt_path (Alt alt_embed alt_query)) rest c k = Some x)
  \/ (exists rest, s = SHORT_HOST ++ rest /\ k rest c = Some x).
Proof.
  unfold host. set (inner := Alt alt_path (Alt alt_embed alt_query)).
  change (run (Alt (Seq (Lit (lit "youtube.com/")) inner)
                   (Lit (lit "youtu.be/"))) s c k)
    with (match (match strip_prefix LONG_HOST s with
                 | Some s' => run inner s' c k
                 | None => None
                 end) with
          | Some y => Some y
          | None => match strip_prefix SHORT_HOST s with
                    | Some s' => k s' c
                    | None => None
                    end
          end).
  destruct (strip_prefix LONG_HOST s) as [s1|] eqn:E1.
  - destruct (run inner s1 c k) as [y|] eqn:R1.
    + intros H. injection H as ->. left. exists s1.
      split; [now apply strip_prefix_sound | exact R1].
    + destruct (strip_prefix SHORT_HOST s) as [s2|] eqn:E2; [|discriminate].
      intros H. right. exists s2.
      split; [now apply strip_prefix_sound | exact H].
  - destruct (strip_prefix SHORT_HOST s) as [s2|] eqn:E2; [|discriminate].
    intros H. right. exists s2.
    split; [now apply strip_prefix_sound | exact H].
Qed.

(** What a match consists of. *)
Lemma getYouTubeID_shape (url id : str) :
  getYouTubeID url = Some id ->
  valid_id id /\
  exists pre h mid post,
    url = pre ++ h ++ mid ++ id ++ post /\
    (h = LONG_HOST \/ (h = SHORT_HOST /\ mid = [])).
Proof.
  unfold getYouTubeID. destruct (search regex url) as [c|] eqn:E;
    [|discriminate]. intros ->.
  destruct (search_found _ _ E) as [s0 [[p0 ->] Hr]].
  unfold regex in Hr.
  change (run (Seq scheme (Seq www (Seq host capture))) s0 None
              (fun _ c' => Some c'))
    with (run scheme s0 None
            (fun s1 c1 => run www s1 c1
               (fun s2 c2 => run host s2 c2
                  (fun s3 c3 => run capture s3 c3 (fun _ c' => Some c')))))
    in Hr.
  destruct (run_suffix _ _ _ _ Hr) as [s1 [c1 [[p1 ->] H1]]].
  destruct (run_suffix _ _ _ _ H1) as [s2 [c2 [[p2 ->] H2]]].
  destruct (host_matched _ _ _ H2) as [[rest [-> H3]]|[rest [-> H3]]].
  - destruct (run_suffix _ _ _ _ H3) as [s3 [c3 [[p3 ->] H4]]].
    destruct (capture_sound _ _ _ H4) as [m [post [-> [Hv Hk]]]].
    injection Hk as ->. split; [assumption|].
    exists (p0 ++ p1 ++ p2), LONG_HOST, p3, post.
    split; [now rewrite <- !app_assoc | now left].
  - destruct (capture_sound _ _ _ H3) as [m [post [-> [Hv Hk]]]].
    injection Hk as ->. split; [assumption|].
    exists (p0 ++ p1 ++ p2), SHORT_HOST, [], post.
    split; [now rewrite <- !app_assoc | right; split; reflexivity].
Qed.

(** X6 -- What the extractor returns, on every input: a token of 11
    characters of [[a-zA-Z0-9_-]] that occurs in the input after one of
    the host names [youtube.com/] and [youtu.be/] -- directly after it for
    the short host.  An input with a result has at least 20 characters. *)
Theorem extracted_identifier_follows_host (url id : str) :
  getYouTubeID url = Some id ->
  (List.length id = 11%nat /\ forallb is_id_char id = true) /\
  (exists pre h mid post,
     url = pre ++ h ++ mid ++ id ++ post /\
     (h = LONG_HOST \/ (h = SHORT_HOST /\ mid = []))) /\
  (20 <= List.length url)%nat.
Proof.
  intros H. destruct (getYouTubeID_shape _ H)
    as [Hv [pre [h [mid [post [-> Hh]]]]]].
  split; [exact Hv | split].
  - exists pre, h, mid, post. split; [reflexivity | exact Hh].
  - destruct Hv as [Hl _]. rewrite !length_app, Hl.
    destruct Hh as [->|[-> _]]; simpl; lia.
Qed.

Lemma extracted_identifier_follows_host_witness :
  (List.length (lit "dQw4w9WgXcQ") = 11%nat /\
   forallb is_id_char (lit "dQw4w9WgXcQ") = true) /\
  (exists pre h mid post,
     lit "see https://youtu.be/dQw4w9WgXcQ?t=3"
     = pre ++ h ++ mid ++ lit "dQw4w9WgXcQ" ++ post /\
     (h = LONG_HOST \/ (h = SHORT_HOST /\ mid = []))) /\
  (20 <= List.length (lit "see https://youtu.be/dQw4w9WgXcQ?t=3"))%nat.
Proof.
  apply (@extracted_identifier_follows_host
           (lit "see https://youtu.be/dQw4w9WgXcQ?t=3") (lit "dQw4w9WgXcQ")).
  vm_compute. reflexivity.
Defined.

(** X7 -- An input that contains neither [youtube.com/] nor [youtu.be/]
    has no identifier: the answer is [null], however identifier-like its
    tokens are. *)
Theorem links_without_host_are_rejected (url : str) :
  contains LONG_HOST url = false -> contains SHORT_HOST url = false ->
  getYouTubeID url = None.
Proof.
  intros Hl Hs. destruct (getYouTubeID url) as [id|] eqn:E; [|reflexivity].
  exfalso. destruct (getYouTubeID_shape _ E)
    as [_ [pre [h [mid [post [-> Hh]]]]]].
  destruct Hh as [->|[-> _]].
  - rewrite contains_infix in Hl. discriminate.
  - rewrite contains_infix in Hs. discriminate.
Qed.

Lemma links_without_host_are_rejected_witness :
  getYouTubeID (lit "https://vimeo.com/watch?v=dQw4w9WgXcQ") = None.
Proof.
  apply links_without_host_are_rejected; vm_compute; reflexivity.
Defined.

Local Opaque alt_path capture.

Ltac match_at_start :=
  unfold getYouTubeID; erewrite search_at_start; [reflexivity|];
  unfold regex, scheme, www, host, LONG_HOST, SHORT_HOST; simpl.

(** X8 -- The plain link forms, from any of the six origins (no scheme,
    [http://] or [https://], each with or without [www.]): a short link
    yields the 11 characters after the host whatever follows them, and a
    watch link with [v] as its first parameter, an embed link and a [v/]
    link yield the 11 characters of the identifier when no slash follows
    them.  A longer token is cut to its first 11 characters. *)
Theorem plain_links_from_any_origin (o id rest : str) :
  In o origins -> valid_id id ->
  getYouTubeID (o ++ SHORT_HOST ++ id ++ rest) = Some id /\
  (no_slash rest ->
   getYouTubeID (o ++ LONG_HOST ++ lit "watch?v=" ++ id ++ rest) = Some id /\
   getYouTubeID (o ++ LONG_HOST ++ lit "embed/" ++ id ++ rest) = Some id /\
   getYouTubeID (o ++ LONG_HOST ++ lit "v/" ++ id ++ rest) = Some id).
Proof.
  intros Ho Hid.
  assert (Hw : no_slash rest ->
               (slashes (lit "watch?v=" ++ id ++ rest) < 2)%nat).
  { intros Hrest.
    rewrite !slashes_app, (no_slash_count (valid_id_no_slash Hid)),
      (no_slash_count Hrest).
    change (slashes (lit "watch?v=")) with 0%nat. lia. }
  assert (He : no_slash rest ->
               (slashes (lit "embed/" ++ id ++ rest) < 2)%nat).
  { intros Hrest.
    rewrite !slashes_app, (no_slash_count (valid_id_no_slash Hid)),
      (no_slash_count Hrest).
    change (slashes (lit "embed/")) with 1%nat. lia. }
  assert (Hv : no_slash rest ->
               (slashes (lit "v/" ++ id ++ rest) < 2)%nat).
  { intros Hrest.
    rewrite !slashes_app, (no_slash_count (valid_id_no_slash Hid)),
      (no_slash_count Hrest).
    change (slashes (lit "v/")) with 1%nat. lia. }
  unfold origins in Ho. simpl in Ho.
  destruct Ho as [<-|[<-|[<-|[<-|[<-|[<-|[]]]]]]];
    (split; [|intros Hrest; split; [|split]]).
  all: match_at_start.
  all: try (rewrite capture_complete by assumption; reflexivity).
  all: try (rewrite (@alt_path_fails _ _ _ _ (Hw Hrest));
            unfold alt_embed, alt_query; simpl;
            rewrite capture_complete by assumption; reflexivity).
  all: try (rewrite (@alt_path_fails _ _ _ _ (He Hrest));
            unfold alt_embed, alt_query; simpl;
            rewrite capture_complete by assumption; reflexivity).
  all: try (rewrite (@alt_path_fails _ _ _ _ (Hv Hrest));
            unfold alt_embed, alt_query; simpl;
            rewrite capture_complete by assumption; reflexivity).
Qed.

Lemma plain_links_from_any_origin_witness :
  getYouTubeID (lit "www." ++ SHORT_HOST ++ lit "dQw4w9WgXcQ" ++ lit "XYZ&t=3")
  = Some (lit "dQw4w9WgXcQ") /\
  (no_slash (lit "XYZ&t=3") ->
   getYouTubeID (lit "www." ++ LONG_HOST ++ lit "watch?v=" ++ lit "dQw4w9WgXcQ"
                 ++ lit "XYZ&t=3") = Some (lit "dQw4w9WgXcQ") /\
   getYouTubeID (lit "www." ++ LONG_HOST ++ lit "embed/" ++ lit "dQw4w9WgXcQ"
                 ++ lit "XYZ&t=3") = Some (lit "dQw4w9WgXcQ") /\
   getYouTubeID (lit "www." ++ LONG_HOST ++ lit "v/" ++ lit "dQw4w9WgXcQ"
                 ++ lit "XYZ&t=3") = Some (lit "dQw4w9WgXcQ")).
Proof.
  apply (@plain_links_from_any_origin (lit "www.") (lit "dQw4w9WgXcQ")
           (lit "XYZ&t=3")).
  - vm_compute. tauto.
  - split; vm_compute; reflexivity.
Defined.

(** The lazy loop passes over a run of characters at which the
    continuation fails. *)
Lemma lazy_loop_skip (X : Type) (p : char -> bool) (k : str -> option X)
      (path text : str) :
  forallb p path = true ->
  (forall a b, path = a ++ b -> b <> [] -> k (b ++ text) = None) ->
  lazy_loop p (path ++ text) k = lazy_loop p text k.
Proof.
  induction path as [|c path IH]; intros Hp Hk; [reflexivity|].
  simpl in Hp. apply andb_prop in Hp. destruct Hp as [Hc Hp].
  pose proof (Hk [] (c :: path) eq_refl ltac:(discriminate)) as E0.
  simpl app in *. simpl lazy_loop. rewrite E0, Hc.
  apply IH; [assumption|].
  intros a b E Hb. apply (Hk (c :: a) b); [now rewrite E | assumption].
Qed.

Lemma lazy_loop_here (X : Type) (p : char -> bool) (k : str -> option X)
      (s : str) (x : X) :
  k s = Some x -> lazy_loop p s k = Some x.
Proof. intros H. destruct s; simpl; rewrite H; reflexivity. Qed.

Lemma query_sep_cases (c : char) :
  is_query_sep c = true -> c = 63%N \/ c = 38%N.
Proof.
  unfold is_query_sep. rewrite orb_true_iff, !N.eqb_eq. tauto.
Qed.

(** No [v=] parameter starts inside [path]. *)
Lemma no_parameter_inside (path a b t : str) (x sep : char) :
  path = a ++ x :: b ->
  contains (x :: lit "v=") path = false ->
  is_query_sep sep = true ->
  strip_prefix (lit "v=") (b ++ sep :: t) = None.
Proof.
  intros -> Hc Hs. apply query_sep_cases in Hs.
  change (lit "v=") with [118%N; 61%N] in *.
  destruct b as [|y [|z b]]; cbn [strip_prefix app].
  - destruct Hs as [->| ->]; reflexivity.
  - destruct (N.eqb 118 y); [|reflexivity].
    destruct Hs as [->| ->]; reflexivity.
  - destruct (N.eqb_spec 118 y) as [<-|]; [|reflexivity].
    destruct (N.eqb_spec 61 z) as [<-|]; [|reflexivity].
    exfalso.
    change (a ++ x :: 118%N :: 61%N :: b)
      with (a ++ [x; 118%N; 61%N] ++ b) in Hc.
    rewrite contains_infix in Hc. discriminate.
Qed.

(** The embed alternative consumes a slash within its first six
    characters. *)
Lemma alt_embed_needs_slash (X : Type) (s : str) (c : option str)
      (k : str -> option str -> option X) (x : X) :
  run alt_embed s c k = Some x -> (1 <= slashes s)%nat.
Proof.
  unfold alt_embed.
  change (run (Seq (Alt (Lit (lit "v"))
                        (Seq (Lit (lit "e")) (Opt (Lit (lit "mbed")))))
                   (Lit (lit "/"))) s c k)
    with (run (Alt (Lit (lit "v"))
                   (Seq (Lit (lit "e")) (Opt (Lit (lit "mbed"))))) s c
              (fun s1 c1 => match strip_prefix (lit "/") s1 with
                            | Some s2 => k s2 c1
                            | None => None
                            end)).
  intros H. destruct (run_suffix _ _ _ _ H) as [s1 [c1 [[p1 ->] H1]]].
  destruct (strip_prefix (lit "/") s1) as [s2|] eqn:E; [|discriminate].
  apply strip_prefix_sound in E. subst s1.
  rewrite !slashes_app. change (slashes (lit "/")) with 1%nat. lia.
Qed.

Lemma alt_query_run (X : Type) (s : str) (c : option str)
      (k : str -> option str -> option X) :
  run alt_query s c k
  = lazy_loop not_space s
      (fun s1 => match s1 with
                 | x :: s2 =>
                     if is_query_sep x
                     then match strip_prefix (lit "v=") s2 with
                          | Some s3 => k s3 c
                          | None => None
                          end
                     else None
                 | [] => None
                 end).
Proof. reflexivity. Qed.

(** The three alternatives after [youtube.com/] on a query link. *)
Lemma query_link_matched (X : Type) (path id rest : str) (sep : char)
      (c : option str) (k : str -> option str -> option X) (x : X) :
  valid_id id -> is_query_sep sep = true ->
  forallb not_space path = true -> no_slash path ->
  contains (lit "?v=") path = false -> contains (lit "&v=") path = false ->
  no_slash rest ->
  k rest (Some id) = Some x ->
  run (Alt alt_path (Alt alt_embed alt_query))
      (path ++ sep :: lit "v=" ++ id ++ rest) c
      (fun s3 c3 => run capture s3 c3 k)
  = Some x.
Proof.
  intros Hid Hsep Hns Hpath Hq Ha Hrest Hk.
  assert (Hsl : slashes (path ++ sep :: lit "v=" ++ id ++ rest) = 0%nat).
  { change (sep :: lit "v=" ++ id ++ rest)
      with ([sep] ++ lit "v=" ++ id ++ rest).
    rewrite !slashes_app, (no_slash_count (valid_id_no_slash Hid)),
      (no_slash_count Hrest), (no_slash_count Hpath).
    change (slashes (lit "v=")) with 0%nat.
    destruct (query_sep_cases _ Hsep) as [->| ->]; reflexivity. }
  change (run (Alt alt_path (Alt alt_embed alt_query)) ?s ?c0 ?k0)
    with (match run alt_path s c0 k0 with
          | Some y => Some y
          | None => match run alt_embed s c0 k0 with
                    | Some y => Some y
                    | None => run alt_query s c0 k0
                    end
          end).
  rewrite alt_path_fails by (rewrite Hsl; lia).
  match goal with
  | |- match ?e with Some _ => _ | None => _ end = _ =>
      destruct e as [y|] eqn:Ee
  end.
  { apply alt_embed_needs_slash in Ee. rewrite Hsl in Ee. lia. }
  rewrite alt_query_run, lazy_loop_skip.
  - apply lazy_loop_here. rewrite Hsep.
    rewrite (strip_prefix_complete (lit "v=") (id ++ rest)).
    rewrite capture_complete by exact Hid. exact Hk.
  - exact Hns.
  - intros a b E Hb. destruct b as [|x0 b]; [congruence|].
    change ((x0 :: b) ++ sep :: lit "v=" ++ id ++ rest)
      with (x0 :: (b ++ sep :: lit "v=" ++ id ++ rest)).
    cbv beta iota.
    destruct (is_query_sep x0) eqn:Ex; [|reflexivity].
    rewrite (@no_parameter_inside path a b (lit "v=" ++ id ++ rest) x0 sep);
      [reflexivity | exact E | | exact Hsep].
    destruct (query_sep_cases _ Ex) as [->| ->]; assumption.
Qed.

Local Opaque alt_embed alt_query.

(** X9 -- A watch link with the [v] parameter anywhere in its query: after
    any of the six origins and [youtube.com/], a run [path] without
    whitespace and slashes in which no [?v=] or [&v=] occurs, then [?] or
    [&], then [v=] and the identifier, with no slash after it.  The
    extractor returns the identifier. *)
Theorem watch_link_with_parameters (o path id rest : str) (sep : char) :
  In o origins -> valid_id id -> is_query_sep sep = true ->
  forallb not_space path = true -> no_slash path ->
  contains (lit "?v=") path = false -> contains (lit "&v=") path = false ->
  no_slash rest ->
  getYouTubeID (o ++ LONG_HOST ++ path ++ sep :: lit "v=" ++ id ++ rest)
  = Some id.
Proof.
  intros Ho Hid Hsep Hns Hpath Hq Ha Hrest.
  pose proof (@query_link_matched (option str) path id rest sep None
                (fun _ c' => Some c') (Some id)
                Hid Hsep Hns Hpath Hq Ha Hrest eq_refl) as Hm.
  simpl in Hm.
  unfold origins in Ho. simpl in Ho.
  destruct Ho as [<-|[<-|[<-|[<-|[<-|[<-|[]]]]]]];
    match_at_start; rewrite Hm; reflexivity.
Qed.

Lemma watch_link_with_parameters_witness :
  getYouTubeID
    (lit "https://www." ++ LONG_HOST ++ lit "watch?feature=share"
     ++ 38%N :: lit "v=" ++ lit "dQw4w9WgXcQ" ++ lit "&t=10s")
  = Some (lit "dQw4w9WgXcQ").
Proof.
  apply (@watch_link_with_parameters (lit "https://www.")
           (lit "watch?feature=share") (lit "dQw4w9WgXcQ") (lit "&t=10s")
           38%N).
  - vm_compute. tauto.
  - split; vm_compute; reflexivity.
  - reflexivity.
  - vm_compute. reflexivity.
  - intros c Hc. vm_compute in Hc.
    repeat (destruct Hc as [<-|Hc]; [discriminate|]). contradiction.
  - vm_compute. reflexivity.
  - vm_compute. reflexivity.
  - intros c Hc. vm_compute in Hc.
    repeat (destruct Hc as [<-|Hc]; [discriminate|]). contradiction.
Defined.

End LinkFacts.

(* ------------------------------------------------------------------ *)
(** ** The target level as a function of the reported levels *)

Module LevelFacts.
Import Quality QualityFacts.
Open Scope string_scope.

Lemma includes_ext (ls ls' : list string) :
  (forall q, In q ls -> In q ls') ->
  forall q, includes ls q = true -> includes ls' q = true.
Proof.
  intros H q Hq. apply includes_In. apply H. now apply includes_In.
Qed.

Lemma index_of_inj (l : list string) (x y : string) (i : nat) :
  index_of x l = Some i -> index_of y l = Some i -> x = y.
Proof.
  revert i. induction l as [|a l IH]; simpl; intros i Hx Hy; [discriminate|].
  destruct (x =? a) eqn:Ex, (y =? a) eqn:Ey.
  - apply String.eqb_eq in Ex, Ey. congruence.
  - destruct (index_of y l); [|discriminate]. congruence.
  - destruct (index_of x l); [|discriminate]. congruence.
  - destruct (index_of x l) as [n|] eqn:Hn; [|discriminate].
    destruct (index_of y l) as [m|] eqn:Hm; [|discriminate].
    apply (IH n); congruence.
Qed.

(** With a recognized level among the reported ones, the target is the
    recognized level found first in [QUALITY_ORDER]. *)
Lemma target_found (ls : list string) :
  (exists q, In q QUALITY_ORDER /\ In q ls) ->
  exists t i,
    targetOf (Some ls) = t /\ find (includes ls) QUALITY_ORDER = Some t /\
    In t ls /\ rank t = Some i /\
    forall q j, In q ls -> rank q = Some j -> (i <= j)%nat.
Proof.
  intros [q0 [Hord Hin]]. unfold targetOf, lowestOf.
  destruct ls as [|a ls']; [contradiction|].
  set (ls := a :: ls') in *.
  destruct (find (includes ls) QUALITY_ORDER) as [t|] eqn:Hfind.
  - destruct (find_first _ _ Hfind) as [Ht [i [Hi Hmin]]].
    assert (Hne : (t =? "") = false)
      by (apply order_names_nonempty; exact (index_of_In _ _ Hi)).
    exists t, i. unfold orSmall. rewrite Hne.
    split; [reflexivity | split; [reflexivity | split]].
    + now apply includes_In.
    + split; [exact Hi|]. intros q j Hq Hj.
      apply (Hmin q j); [now apply includes_In | exact Hj].
  - apply find_none with (x := q0) in Hfind; [|assumption].
    apply includes_In in Hin. congruence.
Qed.

(** X10 -- The target never leaves the reported levels but for [small],
    and is never empty: for every read of the available levels (failed,
    empty, recognized or not), the target is [small] or one of the
    reported levels, and it is not the empty string. *)
Theorem target_is_small_or_reported (levels : option (list string)) :
  targetOf levels <> "" /\
  (targetOf levels = "small" \/
   exists ls, levels = Some ls /\ In (targetOf levels) ls).
Proof.
  destruct levels as [[|a ls']|];
    [ split; [discriminate | left; reflexivity]
    | | split; [discriminate | left; reflexivity] ].
  unfold targetOf, lowestOf.
  set (ls := a :: ls').
  destruct (find (includes ls) QUALITY_ORDER) as [t|] eqn:Hfind.
  - destruct (find_first _ _ Hfind) as [Ht [i [Hi _]]].
    assert (Hne : (t =? "") = false)
      by (apply order_names_nonempty; exact (index_of_In _ _ Hi)).
    unfold orSmall. rewrite Hne. split.
    + intros E. rewrite E in Hne. discriminate.
    + right. exists ls. split; [reflexivity | now apply includes_In].
  - unfold orSmall. destruct (last ls "" =? "") eqn:E.
    + split; [discriminate | left; reflexivity].
    + split.
      * intros K. rewrite K in E. discriminate.
      * right. exists ls. split; [reflexivity|].
        apply last_In. discriminate.
Qed.

(** X11 -- The target depends on the set of reported levels, not on their
    order or repetition, as long as a recognized level is reported: adding
    levels never raises the target in [QUALITY_ORDER], and two reports
    with the same members have the same target. *)
Theorem target_depends_on_level_set (ls ls' : list string) :
  (exists q, In q QUALITY_ORDER /\ In q ls) ->
  (forall q, In q ls -> In q ls') ->
  (exists i j, rank (targetOf (Some ls)) = Some i /\
               rank (targetOf (Some ls')) = Some j /\ (j <= i)%nat) /\
  ((forall q, In q ls' -> In q ls) ->
   targetOf (Some ls) = targetOf (Some ls')).
Proof.
  intros Hrec Hsub.
  assert (Hrec' : exists q, In q QUALITY_ORDER /\ In q ls').
  { destruct Hrec as [q [Ho Hq]]. exists q. split; [assumption | now apply Hsub]. }
  destruct (@target_found ls Hrec) as [t [i [Et [_ [Hin [Hi Hmin]]]]]].
  destruct (@target_found ls' Hrec') as [t' [j [Et' [_ [Hin' [Hj Hmin']]]]]].
  rewrite Et, Et'.
  assert (Hji : (j <= i)%nat) by (apply (Hmin' t i); [now apply Hsub | exact Hi]).
  split.
  - exists i, j. repeat split; assumption.
  - intros Hback.
    assert (Hij : (i <= j)%nat) by (apply (Hmin t' j); [now apply Hback | exact Hj]).
    assert (E : i = j) by lia. subst j.
    unfold rank in Hi, Hj. eapply index_of_inj; eassumption.
Qed.

Lemma target_depends_on_level_set_witness :
  (exists i j, rank (targetOf (Some ["hd720"; "medium"])) = Some i /\
               rank (targetOf (Some ["medium"; "hd720"; "medium"; "hd720"]))
               = Some j /\ (j <= i)%nat) /\
  ((forall q, In q ["medium"; "hd720"; "medium"; "hd720"] ->
              In q ["hd720"; "medium"]) ->
   targetOf (Some ["hd720"; "medium"])
   = targetOf (Some ["medium"; "hd720"; "medium"; "hd720"])).
Proof.
  apply (@target_depends_on_level_set ["hd720"; "medium"]
           ["medium"; "hd720"; "medium"; "hd720"]).
  - exists "medium". simpl. tauto.
  - simpl. tauto.
Defined.

End LevelFacts.

(* ------------------------------------------------------------------ *)
(** ** The controls and the player callbacks, step by step *)

Module FlowFacts.
Import Js Quality Extractor Controller Props Reach QueueFacts ReachFacts.
Open Scope string_scope.
Open Scope Z_scope.
Open Scope list_scope.

Local Arguments Z.add _ _ : simpl never.
Local Arguments Z.sub _ _ : simpl never.
Local Arguments Z.ltb _ _ : simpl never.
Local Arguments Z.eqb _ _ : simpl never.
Local Arguments Nat.eqb _ _ : simpl never.
Local Arguments Nat.leb _ _ : simpl never.

(** Handler code evaluated by value, with the queue vocabulary folded. *)
Ltac flow_compute :=
  cbv -[Z.add Z.sub Z.mul Z.ltb Z.eqb Z.leb Z.max Nat.eqb Nat.leb Nat.ltb
        filter existsb app In map negb String.append String.eqb
        Quality.targetOf Quality.label Quality.readable
        Quality.readableOrAuto Controller.tid Controller.due
        Controller.callback Controller.period Reach.without Reach.isRetry
        Reach.isMonitor Reach.isEnforcement Props.isTeardown Qfloor].

Ltac flow_compute_in H :=
  cbv -[Z.add Z.sub Z.mul Z.ltb Z.eqb Z.leb Z.max Nat.eqb Nat.leb Nat.ltb
        filter existsb app In map negb String.append String.eqb
        Quality.targetOf Quality.label Quality.readable
        Quality.readableOrAuto Controller.tid Controller.due
        Controller.callback Controller.period Reach.without Reach.isRetry
        Reach.isMonitor Reach.isEnforcement Props.isTeardown Qfloor] in H.

(** *** Queues without one kind of timer *)

Lemma without_app (kind : Callback -> bool) (l l' : list Timer) :
  without kind (l ++ l') = without kind l ++ without kind l'.
Proof. apply filter_app. Qed.

Lemma without_one (kind : Callback -> bool) (t : Timer) :
  without kind [t] = if kind (callback t) then [] else [t].
Proof. unfold without. simpl. now destruct (kind (callback t)). Qed.

Lemma without_nil (kind : Callback -> bool) : without kind [] = [].
Proof. reflexivity. Qed.

Lemma without_twice (k k' : Callback -> bool) (l : list Timer) :
  without k (without k' l) = without (fun cb => k' cb || k cb) l.
Proof.
  unfold without. induction l as [|a l IH]; simpl; [reflexivity|].
  destruct (k' (callback a)); simpl; [exact IH|].
  destruct (k (callback a)); simpl; [exact IH | now rewrite IH].
Qed.

Lemma without_ext (k k' : Callback -> bool) (l : list Timer) :
  (forall cb, k cb = k' cb) -> without k l = without k' l.
Proof.
  intros H. unfold without. apply filter_ext. intros t. now rewrite H.
Qed.

Lemma without_none (kind : Callback -> bool) (l : list Timer) :
  (forall t, In t l -> kind (callback t) = false) -> without kind l = l.
Proof.
  unfold without. induction l as [|a l IH]; simpl; intros H; [reflexivity|].
  rewrite (H a (or_introl eq_refl)). simpl. f_equal. apply IH.
  intros t Ht. apply H. now right.
Qed.

Lemma without_In (kind : Callback -> bool) (l : list Timer) (t : Timer) :
  In t (without kind l) <-> In t l /\ kind (callback t) = false.
Proof.
  unfold without. rewrite filter_In, Bool.negb_true_iff. reflexivity.
Qed.

(** Cancelling by handle is cancelling by kind, when the handle names the
    timers of the kind and only them. *)
Lemma cancel_by_handle (kind : Callback -> bool) (a : nat) (l : list Timer) :
  (forall t, In t l -> (kind (callback t) = true <-> tid t = a)) ->
  filter (fun t => negb (Nat.eqb (tid t) a)) l = without kind l.
Proof.
  intros H. unfold without. apply filter_ext_in. intros t Ht.
  specialize (H t Ht). destruct (kind (callback t)) eqn:K.
  - assert (E : tid t = a) by now apply H. now rewrite E, Nat.eqb_refl.
  - destruct (Nat.eqb_spec (tid t) a) as [E|E]; [|reflexivity].
    apply H in E. discriminate.
Qed.

Section WithPlayer.
Variable P : Type.
Variable api : PlayerAPI P.

(** *** What the two cancellations do to a consistent state *)

Lemma clearQualityRetry_effect (st : State P) :
  consistent st ->
  clearQualityRetry st
  = set_qualityRetryTimer None
      (set_timers (without isRetry (timers st)) st).
Proof.
  intros [Ho _]. destruct_state st. unfold orderly in Ho.
  state_proj_in Ho. destruct rt as [a|]; flow_compute.
  - f_equal. apply cancel_by_handle. intros t Ht.
    destruct (Ho t Ht) as (_ & Hr & _ & _ & Hb & _).
    split; intros H.
    + destruct (Hr H) as [E _]. congruence.
    + apply Hb. now rewrite H.
  - f_equal. symmetry. apply without_none. intros t Ht.
    destruct (Ho t Ht) as (_ & Hr & _).
    destruct (isRetry (callback t)); [|reflexivity].
    destruct (Hr eq_refl) as [E _]. discriminate.
Qed.

Lemma clearQualityMonitor_effect (st : State P) :
  consistent st ->
  clearQualityMonitor st
  = set_qualityMonitorTimer None
      (set_timers (without isMonitor (timers st)) st).
Proof.
  intros [Ho _]. destruct_state st. unfold orderly in Ho.
  state_proj_in Ho. destruct mt as [a|]; flow_compute.
  - f_equal. apply cancel_by_handle. intros t Ht.
    destruct (Ho t Ht) as (_ & _ & Hm & _ & _ & Hb & _).
    split; intros H.
    + destruct (Hm H) as [E _]. congruence.
    + apply Hb. now rewrite H.
  - f_equal. symmetry. apply without_none. intros t Ht.
    destruct (Ho t Ht) as (_ & _ & Hm & _).
    destruct (isMonitor (callback t)); [|reflexivity].
    destruct (Hm eq_refl) as [E _]. discriminate.
Qed.

Lemma cancel_teardown_effect (st : State P) :
  consistent st ->
  match pauseDestroyTimer st with
  | Some a => filter (fun t => negb (Nat.eqb (tid t) a)) (timers st)
  | None => timers st
  end = without isTeardown (timers st).
Proof.
  intros [Ho _]. destruct (pauseDestroyTimer st) as [a|] eqn:Ep.
  - apply cancel_by_handle. intros t Ht.
    destruct (Ho t Ht) as (_ & _ & _ & Htd & _ & _ & Hb).
    split; intros H.
    + destruct (Htd H) as [E _]. congruence.
    + apply Hb. now rewrite H.
  - symmetry. apply without_none. intros t Ht.
    destruct (Ho t Ht) as (_ & _ & _ & Htd & _).
    destruct (isTeardown (callback t)); [|reflexivity].
    destruct (Htd eq_refl) as [E _]. congruence.
Qed.

(** Consistency reads the timer queue, the handles, the counter, the
    runtime flag and whether a player exists, nothing else. *)
Lemma consistent_core (st st' : State P) :
  timers st' = timers st -> nextTimerId st' = nextTimerId st ->
  qualityRetryTimer st' = qualityRetryTimer st ->
  qualityMonitorTimer st' = qualityMonitorTimer st ->
  pauseDestroyTimer st' = pauseDestroyTimer st ->
  qualityRetryCount st' = qualityRetryCount st ->
  apiLoaded st' = apiLoaded st ->
  (player st <> None <-> player st' <> None) ->
  consistent st -> consistent st'.
Proof.
  unfold consistent, orderly, issued.
  intros -> -> -> -> -> -> -> Hp (Ho & Hd & Hc & Ha & Hi).
  split; [|split; [|split; [|split]]]; try assumption.
  - intros t Ht. destruct (Ho t Ht) as (H1 & H2 & H3).
    split; [exact H1 | split; [|exact H3]].
    intros Hk. destruct (H2 Hk) as (E1 & E2 & E3 & E4).
    repeat split; try assumption. now apply Hp.
  - intros Hq. apply Ha. now apply Hp.
Qed.

Ltac transfer H :=
  first [ exact H
        | refine (@consistent_core _ _ _ _ _ _ _ _ _ _ H);
          first [ reflexivity
                | split; intros _; discriminate
                | split; intros K; exact K ] ].

Lemma enforce_effect (st : State P) (p : P) :
  consistent st -> player st = Some p ->
  enforceLowQuality api st
  = set_qualityRetryTimer (Some (nextTimerId st))
      (set_nextTimerId (S (nextTimerId st))
         (set_timers
            (without isRetry (timers st)
             ++ [mkTimer (nextTimerId st) (now st + RETRY_MS) (Some RETRY_MS)
                         CbRetry])
            (set_qualityRetryCount 0%nat
               (set_commands
                  ((commands st ++ [CSetQuality (target api st)]) ++ [CPlay])
                  (set_player
                     (Some (playVideo api
                              (setPlaybackQuality api (target api st) p)))
                     (set_statusText
                        ("Requesting lower quality ("
                         ++ label (target api st) ++ ")...")%string st)))))).
Proof.
  intros H Hp. pose proof (clearQualityRetry_effect H) as Hc.
  destruct_state st. state_proj_in Hp. subst pl.
  unfold enforceLowQuality. state_proj. rewrite Hc. flow_compute.
  reflexivity.
Qed.

Lemma startQualityMonitor_effect (st : State P) :
  consistent st ->
  startQualityMonitor st
  = set_qualityMonitorTimer (Some (nextTimerId st))
      (set_nextTimerId (S (nextTimerId st))
         (set_timers
            (without isMonitor (timers st)
             ++ [mkTimer (nextTimerId st) (now st + MONITOR_MS)
                         (Some MONITOR_MS) CbMonitor])
            st)).
Proof.
  intros H. pose proof (clearQualityMonitor_effect H) as Hc.
  destruct_state st. unfold startQualityMonitor. rewrite Hc. flow_compute.
  reflexivity.
Qed.

(** Evaluate around the calls that arm and cancel timers. *)
Ltac expose_once :=
  cbv -[Z.add Z.sub Z.mul Z.ltb Z.eqb Z.leb Z.max Nat.eqb Nat.leb Nat.ltb
        filter existsb app In map negb String.append String.eqb
        Quality.targetOf Quality.label Quality.readable
        Quality.readableOrAuto Controller.tid Controller.due
        Controller.callback Controller.period Reach.without Reach.isRetry
        Reach.isMonitor Reach.isEnforcement Props.isTeardown Qfloor
        Controller.enforceLowQuality Controller.startQualityMonitor
        Controller.clearQualityRetry Controller.clearQualityMonitor].

Ltac expose := expose_once; cbn [negb]; expose_once.

Ltac expose_in E :=
  cbv -[Z.add Z.sub Z.mul Z.ltb Z.eqb Z.leb Z.max Nat.eqb Nat.leb Nat.ltb
        filter existsb app In map negb String.append String.eqb
        Quality.targetOf Quality.label Quality.readable
        Quality.readableOrAuto Controller.tid Controller.due
        Controller.callback Controller.period Reach.without Reach.isRetry
        Reach.isMonitor Reach.isEnforcement Props.isTeardown Qfloor
        Controller.enforceLowQuality Controller.startQualityMonitor
        Controller.clearQualityRetry Controller.clearQualityMonitor] in E.

(** Replace the innermost arming or cancelling call by its effect; [H] is
    the consistency of its argument, and becomes that of its result. *)
Ltac effect_enforce H :=
  match goal with
  | |- context [enforceLowQuality api ?s] =>
      let H1 := fresh "H" in
      assert (H1 : consistent s) by transfer H;
      clear H; pose proof (enforce_consistent api H1) as H;
      rewrite (enforce_effect H1 eq_refl) in H;
      rewrite (enforce_effect H1 eq_refl); clear H1; expose
  end.

Ltac effect_monitor H :=
  match goal with
  | |- context [startQualityMonitor ?s] =>
      let H1 := fresh "H" in
      assert (H1 : consistent s) by transfer H;
      clear H; pose proof (startQualityMonitor_consistent H1) as H;
      rewrite (startQualityMonitor_effect H1) in H;
      rewrite (startQualityMonitor_effect H1); clear H1; expose
  end.

Ltac effect_clear_retry H :=
  match goal with
  | |- context [clearQualityRetry ?s] =>
      let H1 := fresh "H" in
      assert (H1 : consistent s) by transfer H;
      clear H; pose proof (clearQualityRetry_consistent H1) as H;
      rewrite (clearQualityRetry_effect H1) in H;
      rewrite (clearQualityRetry_effect H1); clear H1; expose
  end.

Ltac effect_clear_monitor H :=
  match goal with
  | |- context [clearQualityMonitor ?s] =>
      let H1 := fresh "H" in
      assert (H1 : consistent s) by transfer H;
      clear H; pose proof (clearQualityMonitor_consistent H1) as H;
      rewrite (clearQualityMonitor_effect H1) in H;
      rewrite (clearQualityMonitor_effect H1); clear H1; expose
  end.

(** Bring a queue expression to the form [without kind l ++ news]. *)
Ltac queue_normal :=
  repeat (progress
            (rewrite ?without_app, ?without_one, ?without_twice, ?without_nil;
             timer_proj; cbn [isRetry isMonitor isTeardown orb app];
             rewrite ?app_nil_r, <- ?app_assoc)).

Ltac queue_algebra :=
  queue_normal;
  first [ reflexivity
        | apply without_ext;
          let cb := fresh "cb" in intros cb; destruct cb; reflexivity
        | f_equal; apply without_ext;
          let cb := fresh "cb" in intros cb; destruct cb; reflexivity ].

(** X12 -- Switching the mode on while a player exists.  From any
    reachable state with the mode off, the toggle enabled and a player
    present, one click on the toggle sets the flag and the label, sends
    one hint for the target followed by a play command, resets the tick
    counter, and leaves exactly one retry interval (1200 ms) and one
    monitor interval (700 ms) pending beside the timers of other kinds.
    The monitor is started twice in a row; the first handle is issued and
    cancelled at once. *)
Theorem toggle_on_starts_enforcement (st : State P) (p : P) :
  reachable api st ->
  lowBandwidthMode st = false -> buttonDisabled st = false ->
  player st = Some p ->
  let st' := handle api (ButtonClick P) st in
  let n := nextTimerId st in
  lowBandwidthMode st' = true /\
  buttonText st' = "Disable Low Internet" /\
  commands st' = commands st ++ [CSetQuality (target api st); CPlay] /\
  qualityRetryCount st' = 0%nat /\
  timers st'
  = without isEnforcement (timers st)
    ++ [mkTimer n (now st + RETRY_MS) (Some RETRY_MS) CbRetry;
        mkTimer (S (S n)) (now st + MONITOR_MS) (Some MONITOR_MS) CbMonitor] /\
  qualityRetryTimer st' = Some n /\
  qualityMonitorTimer st' = Some (S (S n)).
Proof.
  intros Hr Hlow Hbd Hp. pose proof (reachable_consistent Hr) as H.
  clear Hr. destruct_state st. state_proj_in Hlow. state_proj_in Hbd.
  state_proj_in Hp. subst low bd pl.
  expose. effect_enforce H. effect_monitor H. effect_monitor H.
  repeat split.
  - now rewrite <- app_assoc.
  - queue_algebra.
Qed.

(** X13 -- Switching the mode on before playback.  With no player, one
    click on the toggle sets the flag and the label and announces that the
    mode will apply on playback; nothing is sent, no retry interval is
    armed, and the monitor interval is armed all the same. *)
Theorem toggle_on_before_playback (st : State P) :
  reachable api st ->
  lowBandwidthMode st = false -> buttonDisabled st = false ->
  player st = None ->
  let st' := handle api (ButtonClick P) st in
  lowBandwidthMode st' = true /\
  buttonText st' = "Disable Low Internet" /\
  statusText st' = "Low-internet mode ON. Will apply on playback." /\
  commands st' = commands st /\
  pending isRetry st' = [] /\
  timers st'
  = without isMonitor (timers st)
    ++ [mkTimer (nextTimerId st) (now st + MONITOR_MS) (Some MONITOR_MS)
                CbMonitor].
Proof.
  intros Hr Hlow Hbd Hp. pose proof (reachable_consistent Hr) as H.
  clear Hr.
  assert (Hno : forall t, In t (timers st) -> isRetry (callback t) = false).
  { intros t Ht. destruct H as [Ho _].
    destruct (Ho t Ht) as (_ & Hret & _).
    destruct (isRetry (callback t)); [|reflexivity].
    destruct (Hret eq_refl) as (_ & _ & Hpl & _). congruence. }
  destruct_state st. state_proj_in Hlow. state_proj_in Hbd.
  state_proj_in Hp. state_proj_in Hno. subst low bd pl.
  expose. effect_monitor H.
  repeat split.
  unfold pending. state_proj. rewrite filter_app. simpl.
  rewrite app_nil_r.
  destruct (filter (fun t => isRetry (callback t)) (without isMonitor tms))
    as [|t l] eqn:E; [reflexivity|].
  assert (Ht : In t (filter (fun t => isRetry (callback t))
                            (without isMonitor tms)))
    by (rewrite E; now left).
  apply filter_In in Ht. destruct Ht as [Ht Hk].
  apply without_In in Ht. destruct Ht as [Ht _].
  rewrite (Hno t Ht) in Hk. discriminate.
Qed.

(** X14 -- Switching the mode off.  From any reachable state with the
    mode on and the toggle enabled, one click clears the flag, restores
    the label, cancels the retry and the monitor interval and nothing
    else, and hands the choice of quality back to the player with one
    [default] hint when a player exists. *)
Theorem toggle_off_releases (st : State P) :
  reachable api st ->
  lowBandwidthMode st = true -> buttonDisabled st = false ->
  let st' := handle api (ButtonClick P) st in
  lowBandwidthMode st' = false /\
  buttonText st' = "Simulate Low Internet" /\
  timers st' = without isEnforcement (timers st) /\
  qualityRetryTimer st' = None /\ qualityMonitorTimer st' = None /\
  commands st'
  = match player st with
    | Some _ => commands st ++ [CSetQuality "default"]
    | None => commands st
    end.
Proof.
  intros Hr Hlow Hbd. pose proof (reachable_consistent Hr) as H.
  clear Hr. destruct_state st. state_proj_in Hlow. state_proj_in Hbd.
  subst low bd.
  destruct pl as [p|]; expose; effect_clear_retry H; effect_clear_monitor H;
    effect_clear_monitor H; repeat split; try reflexivity; queue_algebra.
Qed.

(** Cancel the pending teardown in the goal, given the consistency of
    the state it is cancelled in. *)
Ltac effect_teardown H :=
  let E := fresh "E" in
  pose proof (cancel_teardown_effect H) as E; expose_in E;
  first [ rewrite E | rewrite <- E ]; clear E.

(** X15 -- A playing signal.  In any reachable state with a player, a
    playing signal reveals the toggle and cancels the pending teardown;
    in low-internet mode it also starts the retry loop afresh, whatever
    the loop did before: one hint for the target and a play command are
    sent, the tick counter is back at zero and a new 1200 ms interval
    replaces the old one.  With the mode off it sends nothing. *)
Theorem playing_restarts_loop (st : State P) (p : P) :
  reachable api st -> player st = Some p ->
  let st' := onPlayerStateChange api PLAYING st in
  buttonHidden st' = false /\ pauseDestroyTimer st' = None /\
  (lowBandwidthMode st = true ->
   commands st' = commands st ++ [CSetQuality (target api st); CPlay] /\
   qualityRetryCount st' = 0%nat /\
   qualityRetryTimer st' = Some (nextTimerId st) /\
   timers st'
   = without (fun cb => isRetry cb || isTeardown cb) (timers st)
     ++ [mkTimer (nextTimerId st) (now st + RETRY_MS) (Some RETRY_MS)
                 CbRetry]) /\
  (lowBandwidthMode st = false ->
   commands st' = commands st /\
   qualityRetryCount st' = qualityRetryCount st /\
   timers st' = without isTeardown (timers st)).
Proof.
  intros Hr Hp. pose proof (reachable_consistent Hr) as H. clear Hr.
  destruct_state st. state_proj_in Hp. subst pl.
  destruct low, pdt as [a|]; expose; try effect_enforce H;
    (split; [reflexivity | split; [reflexivity | split]]);
    intros Hm; try discriminate Hm; state_proj;
    effect_teardown H;
    (split; [try reflexivity; now rewrite <- app_assoc
            | split; [reflexivity | try split; try reflexivity;
                                    queue_algebra]]).
Qed.

(** X16 -- A quality-change event.  In any reachable state no command
    is sent and the player is left alone.  An event value that is not the
    name of a member every object inherits is reported in the narration
    by its label, or as [Auto] when it has none.  In low-internet mode an
    event that carries the target cancels the retry interval and nothing
    else; any other event, and any event with the mode off, leaves the
    timers as they are. *)
Theorem quality_event_stops_retry (q : string) (st : State P) :
  reachable api st ->
  let st' := onPlayerQualityChange api q st in
  (inherited q = false ->
   statusText st'
   = ("Video quality changed to: " ++ readableOrAuto q)%string) /\
  commands st' = commands st /\ player st' = player st /\
  (lowBandwidthMode st = true -> q = target api st ->
   timers st' = without isRetry (timers st) /\
   qualityRetryTimer st' = None) /\
  (lowBandwidthMode st = false \/ q <> target api st ->
   timers st' = timers st /\
   qualityRetryTimer st' = qualityRetryTimer st).
Proof.
  intros Hr. pose proof (reachable_consistent Hr) as H. clear Hr.
  intros st'. subst st'. unfold onPlayerQualityChange.
  set (s1 := set_statusText _ st).
  assert (H1 : consistent s1).
  { subst s1. destruct_state st. transfer H. }
  assert (Ht : target api s1 = target api st)
    by (subst s1; destruct_state st; reflexivity).
  assert (Hl : lowBandwidthMode s1 = lowBandwidthMode st)
    by (subst s1; destruct_state st; reflexivity).
  rewrite Hl, Ht.
  destruct (lowBandwidthMode st) eqn:Elow.
  - destruct (String.eqb_spec q (target api st)) as [Eq|Eq].
    + rewrite (clearQualityRetry_effect H1). subst s1.
      destruct_state st.
      split; [intros _; reflexivity
             | split; [reflexivity | split; [reflexivity|]]].
      split; [intros _ _; split; reflexivity|].
      intros [K|K]; [discriminate K | contradiction].
    + subst s1. destruct_state st.
      split; [intros _; reflexivity
             | split; [reflexivity | split; [reflexivity|]]].
      split; [intros _ K; contradiction|].
      intros _. split; reflexivity.
  - subst s1. destruct_state st.
    split; [intros _; reflexivity
           | split; [reflexivity | split; [reflexivity|]]].
    split; [intros K; discriminate K|].
    intros _. split; reflexivity.
Qed.

(** X17 -- A load request is facade-first and leaves the player alone:
    whatever the link and the state, it creates no player, sends no
    command (an existing player is neither stopped nor destroyed), keeps
    the last known playback position and the teardown handle, and arms no
    timer. *)
Theorem load_leaves_player_alone (url : str) (st : State P) :
  player (loadClick url st) = player st /\
  commands (loadClick url st) = commands st /\
  lastPlaybackTime (loadClick url st) = lastPlaybackTime st /\
  pauseDestroyTimer (loadClick url st) = pauseDestroyTimer st /\
  nextTimerId (loadClick url st) = nextTimerId st /\
  (forall t, In t (timers (loadClick url st)) -> In t (timers st)).
Proof.
  destruct_state st. unfold loadClick.
  destruct (getYouTubeID url) as [videoId|]; destruct rt, mt;
    state_compute; repeat split; intros t Ht; split_members; assumption.
Qed.

(** What a load request with a valid link does to a consistent state:
    the identifier is stored, the facade rendered, the narration cleared,
    the mode and the label reset, and the retry and the monitor interval
    cancelled. *)
Lemma load_effect (url videoId : str) (st : State P) :
  consistent st -> getYouTubeID url = Some videoId ->
  loadClick url st
  = set_qualityMonitorTimer None
      (set_qualityRetryTimer None
         (set_timers (without isEnforcement (timers st))
            (set_buttonText "Simulate Low Internet"
               (set_lowBandwidthMode false
                  (set_statusText ""
                     (set_buttonHidden false
                        (set_simulateOverlay false
                           (set_container (Facade (Some videoId) 0%Q)
                              (set_currentVideoId (Some videoId) st))))))))).
Proof.
  intros H E. unfold loadClick. rewrite E. destruct_state st.
  expose. effect_clear_retry H. effect_clear_monitor H.
  effect_clear_monitor H. f_equal. queue_algebra.
Qed.

(** The position the teardown keeps depends on the player and on the
    last known position only. *)
Lemma capturedTime_core (s s' : State P) :
  player s = player s' -> lastPlaybackTime s = lastPlaybackTime s' ->
  capturedTime api s = capturedTime api s'.
Proof.
  destruct_state s. destruct s'. simpl. intros -> ->. reflexivity.
Qed.

(** C7 -- A load request while a pause teardown is pending.  In any
    reachable state with a teardown timeout [t] in the queue, a load
    request with a valid link stores the new identifier, renders its
    facade with offset 0, clears the narration, resets the mode flag and
    the toggle label and cancels the retry and the monitor interval -- and
    leaves the teardown pending, its handle still in [pauseDestroyTimer],
    the player of the previous video still in [player].  When the
    teardown runs it drops that player and renders the facade of the new
    video again, now with the position it read from the previous video's
    player as resume offset (0 after an end signal). *)
Theorem load_keeps_pending_teardown (url videoId : str) (st : State P)
        (t : Timer) (cause : PlayerState) :
  reachable api st -> getYouTubeID url = Some videoId ->
  In t (timers st) -> callback t = CbPauseDestroy cause ->
  let st1 := loadClick url st in
  let st2 := fire api t st1 in
  (currentVideoId st1 = Some videoId /\
   container st1 = Facade (Some videoId) 0%Q /\
   statusText st1 = "" /\ lowBandwidthMode st1 = false /\
   buttonText st1 = "Simulate Low Internet" /\
   qualityRetryTimer st1 = None /\ qualityMonitorTimer st1 = None /\
   timers st1 = without isEnforcement (timers st)) /\
  (In t (timers st1) /\ pauseDestroyTimer st1 = Some (tid t) /\
   player st1 = player st) /\
  (player st2 = None /\
   container st2 = Facade (Some videoId) (lastPlaybackTime st2) /\
   lastPlaybackTime st2
   = match cause with
     | ENDED => 0%Q
     | _ => capturedTime api (passTime api (due t) st)
     end).
Proof.
  intros Hr Eid Hin Hcb. pose proof (reachable_consistent Hr) as H.
  clear Hr. intros st1 st2.
  assert (Hk : pauseDestroyTimer st = Some (tid t) /\ period t = None).
  { destruct H as [Ho _]. destruct (Ho t Hin) as (_ & _ & _ & Htd & _).
    apply Htd. rewrite Hcb. reflexivity. }
  destruct Hk as [Hpd Hper].
  assert (E1 : st1 = loadClick url st) by reflexivity.
  rewrite (load_effect url H Eid) in E1.
  assert (Hkeep : In t (without isEnforcement (timers st))).
  { apply without_In. split; [exact Hin|]. rewrite Hcb. reflexivity. }
  assert (E2 : st2 = pauseDestroy api cause
                       (clearTimer (tid t) (passTime api (due t) st1))).
  { subst st2. unfold fire. rewrite Hper, Hcb. reflexivity. }
  pose proof (LifecycleFacts.teardown_commits api cause
                (clearTimer (tid t) (passTime api (due t) st1))) as K.
  cbv zeta in K. rewrite <- E2 in K.
  destruct K as (K1 & K2 & K3 & _).
  assert (Hvid : currentVideoId
                   (clearTimer (tid t) (passTime api (due t) st1))
                 = Some videoId).
  { rewrite E1. unfold passTime. destruct_state st. simpl.
    destruct (nw <? due t); reflexivity. }
  assert (Hcap : capturedTime api
                   (clearTimer (tid t) (passTime api (due t) st1))
                 = capturedTime api (passTime api (due t) st)).
  { apply capturedTime_core; rewrite E1; unfold passTime;
      destruct_state st; simpl; destruct (nw <? due t); reflexivity. }
  rewrite Hvid in K3. rewrite Hcap in K2.
  split; [|split].
  - rewrite E1. destruct_state st. repeat split.
  - rewrite E1. destruct_state st. state_proj. state_proj_in Hkeep.
    state_proj_in Hpd. repeat split; assumption.
  - split; [exact K1 | split; [exact K3 | exact K2]].
Qed.

(** X18 -- A click on the facade.  With the player runtime loaded the
    player is created at once; otherwise nothing is created until the
    runtime reports ready, and then the player is created.  Either way it
    is created for the video of the facade, starting at the whole seconds
    of the facade's resume offset, and it takes the place of the
    facade. *)
Theorem facade_click_creates_player
        (st : State P) (videoId : option str) (startSeconds : Q) :
  container st = Facade videoId startSeconds ->
  (apiLoaded st = true ->
   player (facadeClick api st)
   = Some (create api videoId (startParam startSeconds)) /\
   container (facadeClick api st) = PlayerHost) /\
  (apiLoaded st = false ->
   player (facadeClick api st) = player st /\
   container (facadeClick api st) = Facade videoId startSeconds /\
   player (apiReady api (facadeClick api st))
   = Some (create api videoId (startParam startSeconds)) /\
   container (apiReady api (facadeClick api st)) = PlayerHost /\
   apiLoaded (apiReady api (facadeClick api st)) = true).
Proof.
  intros Hc. destruct_state st. state_proj_in Hc. subst cont.
  split; intros Ha; state_proj_in Ha; subst apil; repeat split.
Qed.

(** X19 -- The start parameter of a new player is a whole number of
    seconds, never negative: for an offset of zero or more it is the
    offset rounded down (within one second below it), for a negative
    offset it is zero. *)
Theorem start_parameter_bounds (s : Q) :
  0 <= startParam s /\
  ((0 <= s)%Q ->
   (inject_Z (startParam s) <= s)%Q /\
   (s < inject_Z (startParam s + 1))%Q) /\
  ((s < 0)%Q -> startParam s = 0).
Proof.
  unfold startParam. split; [apply Z.le_max_l | split].
  - intros Hs.
    assert (H0 : 0 <= Qfloor s).
    { change 0 with (Qfloor 0). now apply Qfloor_resp_le. }
    rewrite Z.max_r by exact H0.
    split; [apply Qfloor_le | apply Qlt_floor].
  - intros Hs. apply Z.max_l.
    assert (Hf : (inject_Z (Qfloor s) < 0)%Q).
    { eapply Qle_lt_trans; [apply Qfloor_le | exact Hs]. }
    change 0%Q with (inject_Z 0) in Hf. rewrite <- Zlt_Qlt in Hf. lia.
Qed.

(** X20 -- Resuming after a teardown.  When the debounced teardown runs
    with a player whose position reads [t], [t] not zero, the facade of
    the current video is rendered with offset [t] (offset 0 after an end
    signal), and a click on it creates a player for the same video that
    starts at the whole seconds of [t] (at 0 after an end signal). *)
Theorem resume_round_trip
        (cause : PlayerState) (st : State P) (p : P) (t : Q) :
  player st = Some p -> apiLoaded st = true ->
  getCurrentTime api p = Some t -> truthyNum t = true ->
  let offset := match cause with ENDED => 0%Q | _ => t end in
  container (pauseDestroy api cause st)
  = Facade (currentVideoId st) offset /\
  player (pauseDestroy api cause st) = None /\
  player (facadeClick api (pauseDestroy api cause st))
  = Some (create api (currentVideoId st) (startParam offset)) /\
  container (facadeClick api (pauseDestroy api cause st)) = PlayerHost.
Proof.
  intros Hp Ha Ht Hz. destruct_state st.
  state_proj_in Hp. state_proj_in Ha. subst pl apil.
  unfold pauseDestroy, capturedTime, safeGetCurrentTime. state_proj.
  rewrite Ht, Hz.
  destruct cause, rt, mt; repeat split.
Qed.

(** X21 -- The monitor tick and the steps of the simulated sequence only
    narrate: run in any state, each of these closures leaves everything
    but the narration and the log of uncaught errors as it was -- the
    player, the commands sent, the mode, the handles and the timers. *)
Theorem passive_closures_only_narrate (cb : Callback) (st : State P) :
  passive cb = true ->
  set_errors (errors st)
    (set_statusText (statusText st) (runCallback api cb st)) = st.
Proof.
  intros Hc. destruct_state st.
  destruct cb; try discriminate Hc; destruct pl, low; reflexivity.
Qed.

(** Running a timeout that is due in the future. *)
Lemma fire_timeout (t : Timer) (st : State P) :
  period t = None -> now st < due t ->
  fire api t st
  = runCallback api (callback t)
      (clearTimer (tid t)
         (set_now (due t)
            (set_player
               (option_map (elapse api (due t - now st)) (player st)) st))).
Proof.
  intros Hp Hn. unfold fire, passTime. rewrite Hp.
  replace (now st <? due t) with true by (symmetry; apply Z.ltb_lt; lia).
  reflexivity.
Qed.

(** Cancelling the handle that was issued last. *)
Lemma cancel_last (l : list Timer) (n : nat) (d : Z) (p : option Z)
      (cb : Callback) :
  (forall t, In t l -> (tid t < n)%nat) ->
  filter (fun t => negb (Nat.eqb (tid t) n)) (l ++ [mkTimer n d p cb]) = l.
Proof.
  intros H. rewrite filter_app. simpl. rewrite Nat.eqb_refl. simpl.
  rewrite app_nil_r. apply CeilingFacts.filter_absent.
  intros Hin. apply in_map_iff in Hin. destruct Hin as [t [E Ht]].
  specialize (H t Ht). lia.
Qed.

(** X22 -- The deferred start does not look at the mode again.  In
    low-internet mode the ready callback pauses the player, sends a hint
    and defers the start by 150 ms.  If the toggle is clicked within that
    time, the mode goes off and a [default] hint is sent -- and when the
    deferred closure runs it starts the retry loop and the monitor all the
    same: with the flag off, a hint for the target -- the lowest level the
    player reports at that moment -- and a play command are sent, and both
    intervals are pending. *)
Theorem deferred_start_ignores_mode_switch (st : State P) (p : P) :
  reachable api st ->
  lowBandwidthMode st = true -> buttonDisabled st = false ->
  player st = Some p ->
  let n := nextTimerId st in
  let defer := mkTimer n (now st + READY_DEFER_MS) None CbReadyDefer in
  let st2 := handle api (ButtonClick P) (handle api (PlayerReady P) st) in
  let st3 := fire api defer st2 in
  let p3 :=
    playVideo api
      (elapse api READY_DEFER_MS
         (setPlaybackQuality api "default"
            (setPlaybackQuality api (target api st) (pauseVideo api p)))) in
  lowBandwidthMode st2 = false /\
  timers st2 = without isEnforcement (timers st) ++ [defer] /\
  lowBandwidthMode st3 = false /\
  timers st3
  = without isEnforcement (timers st)
    ++ [mkTimer (S n) (now st + READY_DEFER_MS + RETRY_MS) (Some RETRY_MS)
                CbRetry;
        mkTimer (S (S n)) (now st + READY_DEFER_MS + MONITOR_MS)
                (Some MONITOR_MS) CbMonitor] /\
  commands st3
  = commands st
    ++ [CPause; CSetQuality (target api st); CSetQuality "default";
        CPlay; CSetQuality (targetOf (getAvailableQualityLevels api p3));
        CPlay].
Proof.
  intros Hr Hlow Hbd Hp. pose proof (reachable_consistent Hr) as H.
  clear Hr. intros n defer st2 st3 p3.
  assert (Hfresh : forall t, In t (without isEnforcement (timers st)) ->
                             (tid t < n)%nat).
  { intros t Ht. apply without_In in Ht. destruct Ht as [Ht _].
    destruct H as [Ho _]. now destruct (Ho t Ht). }
  pose proof (handle_consistent api (PlayerReady P) H) as H1.
  pose proof (handle_consistent api (ButtonClick P) H1) as H2.
  subst n defer st2 st3 p3.
  destruct_state st. state_proj_in Hlow. state_proj_in Hbd.
  state_proj_in Hp. state_proj_in Hfresh. subst low bd pl. state_proj.
  (* the state after the ready callback and the click *)
  match goal with
  | |- context [handle api (ButtonClick P) ?s] =>
      eassert (E2 : handle api (ButtonClick P) s = _)
  end.
  { expose.
    match goal with
    | |- context [clearQualityRetry ?s] =>
        assert (Hc : consistent s) by exact H1
    end.
    effect_clear_retry Hc. effect_clear_monitor Hc. effect_clear_monitor Hc.
    queue_normal.
    rewrite (@without_ext _ isEnforcement tms)
      by (intros cb; destruct cb; reflexivity).
    reflexivity. }
  rewrite E2 in H2 |- *. clear E2 H1.
  rewrite fire_timeout by (timer_proj; state_proj;
                           unfold READY_DEFER_MS; try reflexivity; lia).
  timer_proj. unfold clearTimer. cbn [timers set_now set_player].
  match goal with
  | |- context [filter _ (?l ++ [mkTimer ?k ?d ?q ?c])] =>
      rewrite (@cancel_last l k d q c Hfresh)
  end.
  (* the state the deferred closure starts in *)
  match goal with
  | |- context [runCallback api CbReadyDefer ?s] =>
      assert (H3 : consistent s)
  end.
  { pose proof (clearTimer_consistent nid
                  (passTime_consistent api (nw + READY_DEFER_MS) H2)) as K.
    unfold passTime, clearTimer in K. state_proj_in K.
    replace (nw <? nw + READY_DEFER_MS) with true in K
      by (symmetry; apply Z.ltb_lt; unfold READY_DEFER_MS; lia).
    cbn [timers set_now set_player] in K.
    match type of K with
    | context [filter _ (?l ++ [mkTimer ?k ?d ?q ?c])] =>
        rewrite (@cancel_last l k d q c Hfresh) in K
    end.
    exact K. }
  expose.
  match goal with
  | |- context [enforceLowQuality api ?s] =>
      assert (Hc : consistent s) by transfer H3
  end.
  effect_enforce Hc. effect_monitor Hc.
  split; [reflexivity | split; [reflexivity | split; [reflexivity|]]].
  split.
  - queue_algebra.
  - unfold READY_DEFER_MS. replace (nw + 150 - nw) with 150 by lia.
    rewrite <- !app_assoc. reflexivity.
Qed.

(** X26 -- The ready callback.  With the mode off it does nothing.  In
    low-internet mode, in any reachable state with a player, it pauses the
    player, sends a hint for the target and arms one 150 ms timeout,
    nothing else; when that timeout then runs, playback is resumed, a
    hint and a play command follow, and the retry interval and the
    monitor interval are armed from that moment on, replacing any that
    were pending. *)
Theorem ready_defers_start (st : State P) (p : P) :
  reachable api st -> player st = Some p ->
  (lowBandwidthMode st = false -> handle api (PlayerReady P) st = st) /\
  (lowBandwidthMode st = true ->
   let n := nextTimerId st in
   let defer := mkTimer n (now st + READY_DEFER_MS) None CbReadyDefer in
   let st1 := handle api (PlayerReady P) st in
   let st2 := fire api defer st1 in
   commands st1 = commands st ++ [CPause; CSetQuality (target api st)] /\
   timers st1 = timers st ++ [defer] /\
   timers st2
   = without isEnforcement (timers st)
     ++ [mkTimer (S n) (now st + READY_DEFER_MS + RETRY_MS) (Some RETRY_MS)
                 CbRetry;
         mkTimer (S (S n)) (now st + READY_DEFER_MS + MONITOR_MS)
                 (Some MONITOR_MS) CbMonitor] /\
   exists q,
     commands st2
     = commands st
       ++ [CPause; CSetQuality (target api st); CPlay; CSetQuality q; CPlay]).
Proof.
  intros Hr Hp. pose proof (reachable_consistent Hr) as H. clear Hr.
  split.
  { intros Hlow. destruct_state st. state_proj_in Hlow. subst low.
    reflexivity. }
  intros Hlow n defer st1 st2.
  assert (Hfresh : forall t, In t (timers st) -> (tid t < n)%nat).
  { intros t Ht. destruct H as [Ho _]. now destruct (Ho t Ht). }
  pose proof (handle_consistent api (PlayerReady P) H) as H1.
  subst n defer st1 st2.
  destruct_state st. state_proj_in Hlow. state_proj_in Hp.
  state_proj_in Hfresh. subst low pl. state_proj.
  match goal with
  | |- context [handle api (PlayerReady P) ?s] =>
      eassert (E1 : handle api (PlayerReady P) s = _)
  end.
  { expose. reflexivity. }
  rewrite E1 in H1 |- *. clear E1.
  split; [state_proj; now rewrite <- app_assoc|].
  split; [reflexivity|].
  rewrite fire_timeout by (timer_proj; state_proj;
                           unfold READY_DEFER_MS; try reflexivity; lia).
  timer_proj. unfold clearTimer. cbn [timers set_now set_player].
  match goal with
  | |- context [filter _ (?l ++ [mkTimer ?k ?d ?q ?c])] =>
      rewrite (@cancel_last l k d q c Hfresh)
  end.
  match goal with
  | |- context [runCallback api CbReadyDefer ?s] =>
      assert (H3 : consistent s)
  end.
  { pose proof (clearTimer_consistent nid
                  (passTime_consistent api (nw + READY_DEFER_MS) H1)) as K.
    unfold passTime, clearTimer in K. state_proj_in K.
    replace (nw <? nw + READY_DEFER_MS) with true in K
      by (symmetry; apply Z.ltb_lt; unfold READY_DEFER_MS; lia).
    cbn [timers set_now set_player] in K.
    match type of K with
    | context [filter _ (?l ++ [mkTimer ?k ?d ?q ?c])] =>
        rewrite (@cancel_last l k d q c Hfresh) in K
    end.
    exact K. }
  expose.
  match goal with
  | |- context [enforceLowQuality api ?s] =>
      assert (Hc : consistent s) by transfer H3
  end.
  effect_enforce Hc. effect_monitor Hc.
  split.
  - queue_algebra.
  - eexists. rewrite <- !app_assoc. reflexivity.
Qed.



End WithPlayer.

(** *** The moments are reachable *)

Lemma loaded_reachable : reachable Sim.yieldingAPI Moments.loaded.
Proof.
  apply run_reachable
    with (fuel := 100%nat) (trace := Moments.loadedTrace) (st := init _);
    [reflexivity | apply reach_init | vm_compute; reflexivity].
Qed.

Lemma playing_reachable : reachable Sim.yieldingAPI Moments.playing.
Proof.
  apply run_reachable
    with (fuel := 100%nat) (trace := Moments.playingTrace) (st := init _);
    [reflexivity | apply reach_init | vm_compute; reflexivity].
Qed.

Lemma low_reachable : reachable Sim.yieldingAPI Moments.low.
Proof.
  apply run_reachable
    with (fuel := 100%nat) (trace := Moments.lowTrace) (st := init _);
    [reflexivity | apply reach_init | vm_compute; reflexivity].
Qed.

(** Low-internet mode is on and video A is paused 0.8 s in; 100 ms
    later, within the debounce delay, video B is loaded.  The load cancels
    the retry and the monitor interval; the teardown armed by the pause is
    the one timer left, and it runs next, at 1350 ms: the facade of B is
    rendered with resume offset 0.8 s, the position of A. *)
Lemma load_during_debounce_run :
  run Sim.yieldingAPI 100 Scenarios.loadDuringDebounce (init _)
  = Some Scenarios.endOfLoadDuringDebounce /\
  Scenarios.endOfLoadDuringDebounce
  = loadClick Scenarios.linkB Scenarios.endOfBeforeLoad /\
  map tid (timers Scenarios.endOfBeforeLoad) = [1%nat; 3%nat; 4%nat] /\
  timers Scenarios.endOfLoadDuringDebounce
  = [mkTimer 4 1350 None (CbPauseDestroy PAUSED)] /\
  container Scenarios.endOfLoadDuringDebounce
  = Facade (Some Scenarios.idB) 0%Q /\
  fire_next Sim.yieldingAPI Scenarios.endOfLoadDuringDebounce
  = Some (fire Sim.yieldingAPI (mkTimer 4 1350 None (CbPauseDestroy PAUSED))
            Scenarios.endOfLoadDuringDebounce) /\
  option_map (@container _)
    (fire_next Sim.yieldingAPI Scenarios.endOfLoadDuringDebounce)
  = Some (Facade (Some Scenarios.idB) (800 # 1000)).
Proof. vm_compute. repeat split. Qed.

(** The same load, with the facade of B clicked at 1200 ms: the player of
    B is created at once, and the teardown of A's pause, still pending,
    runs at 1350 ms -- it destroys the player of B, 150 ms after it
    started, and puts the facade back. *)
Lemma started_player_is_torn_down :
  option_map (fun s => (currentVideoId s, container s,
                        option_map Sim.yPos (player s)))
    (run Sim.yieldingAPI 100 (removelast Scenarios.startDuringDebounce)
         (init _))
  = Some (Some Scenarios.idB, PlayerHost, Some 0) /\
  run Sim.yieldingAPI 100 Scenarios.startDuringDebounce (init _)
  = Some Scenarios.endOfStartDuringDebounce /\
  player Scenarios.endOfStartDuringDebounce = None /\
  container Scenarios.endOfStartDuringDebounce
  = Facade (Some Scenarios.idB) (150 # 1000) /\
  last (commands Scenarios.endOfStartDuringDebounce) CPlay = CDestroy /\
  timers Scenarios.endOfStartDuringDebounce = [].
Proof. vm_compute. repeat split. Qed.

Lemma load_keeps_pending_teardown_witness :
  In (mkTimer 4 1350 None (CbPauseDestroy PAUSED))
     (timers (loadClick Scenarios.linkB Scenarios.endOfBeforeLoad)) /\
  pauseDestroyTimer (loadClick Scenarios.linkB Scenarios.endOfBeforeLoad)
  = Some 4%nat /\
  container
    (fire Sim.yieldingAPI (mkTimer 4 1350 None (CbPauseDestroy PAUSED))
       (loadClick Scenarios.linkB Scenarios.endOfBeforeLoad))
  = Facade (Some Scenarios.idB)
      (lastPlaybackTime
         (fire Sim.yieldingAPI (mkTimer 4 1350 None (CbPauseDestroy PAUSED))
            (loadClick Scenarios.linkB Scenarios.endOfBeforeLoad))) /\
  lastPlaybackTime
    (fire Sim.yieldingAPI (mkTimer 4 1350 None (CbPauseDestroy PAUSED))
       (loadClick Scenarios.linkB Scenarios.endOfBeforeLoad))
  = capturedTime Sim.yieldingAPI
      (passTime Sim.yieldingAPI 1350 Scenarios.endOfBeforeLoad).
Proof.
  assert (Hid : getYouTubeID Scenarios.linkB = Some Scenarios.idB)
    by (vm_compute; reflexivity).
  assert (Hin : In (mkTimer 4 1350 None (CbPauseDestroy PAUSED))
                   (timers Scenarios.endOfBeforeLoad))
    by (simpl; auto).
  assert (Hr : reachable Sim.yieldingAPI Scenarios.endOfBeforeLoad).
  { apply reachableVia_weaken with (ok := @wired _); [reflexivity|].
    exact endOfBeforeLoad_reachable. }
  destruct (@load_keeps_pending_teardown _ Sim.yieldingAPI Scenarios.linkB
              Scenarios.idB Scenarios.endOfBeforeLoad
              (mkTimer 4 1350 None (CbPauseDestroy PAUSED)) PAUSED
              Hr Hid Hin eq_refl)
    as (_ & (Hk & Hh & _) & (_ & Hc & Hl)).
  split; [exact Hk | split; [exact Hh | split; [exact Hc | exact Hl]]].
Defined.

Lemma toggle_on_starts_enforcement_witness :
  commands (handle Sim.yieldingAPI (ButtonClick _) Moments.playing)
  = commands Moments.playing
    ++ [CSetQuality (target Sim.yieldingAPI Moments.playing); CPlay] /\
  timers (handle Sim.yieldingAPI (ButtonClick _) Moments.playing)
  = without isEnforcement (timers Moments.playing)
    ++ [mkTimer 1 (300 + RETRY_MS) (Some RETRY_MS) CbRetry;
        mkTimer 3 (300 + MONITOR_MS) (Some MONITOR_MS) CbMonitor].
Proof.
  destruct (@toggle_on_starts_enforcement _ Sim.yieldingAPI Moments.playing
              (Moments.playerOf Moments.playing) playing_reachable
              eq_refl eq_refl eq_refl)
    as (_ & _ & Hc & _ & Ht & _).
  split; [exact Hc | exact Ht].
Defined.

Lemma toggle_on_before_playback_witness :
  commands (handle Sim.yieldingAPI (ButtonClick _) Moments.loaded)
  = commands Moments.loaded /\
  pending isRetry (handle Sim.yieldingAPI (ButtonClick _) Moments.loaded) = [].
Proof.
  destruct (@toggle_on_before_playback _ Sim.yieldingAPI Moments.loaded
              loaded_reachable eq_refl eq_refl eq_refl)
    as (_ & _ & _ & Hc & Hp & _).
  split; [exact Hc | exact Hp].
Defined.

Lemma toggle_off_releases_witness :
  lowBandwidthMode (handle Sim.yieldingAPI (ButtonClick _) Moments.low)
  = false /\
  timers (handle Sim.yieldingAPI (ButtonClick _) Moments.low)
  = without isEnforcement (timers Moments.low).
Proof.
  destruct (@toggle_off_releases _ Sim.yieldingAPI Moments.low
              low_reachable eq_refl eq_refl)
    as (Hl & _ & Ht & _).
  split; [exact Hl | exact Ht].
Defined.

Lemma playing_restarts_loop_witness :
  qualityRetryCount
    (onPlayerStateChange Sim.yieldingAPI PLAYING Moments.low) = 0%nat /\
  commands (onPlayerStateChange Sim.yieldingAPI PLAYING Moments.low)
  = commands Moments.low
    ++ [CSetQuality (target Sim.yieldingAPI Moments.low); CPlay].
Proof.
  destruct (@playing_restarts_loop _ Sim.yieldingAPI Moments.low
              (Moments.playerOf Moments.low) low_reachable eq_refl)
    as (_ & _ & Hon & _).
  destruct (Hon eq_refl) as (Hc & Hk & _).
  split; [exact Hk | exact Hc].
Defined.

Lemma quality_event_stops_retry_witness :
  statusText (onPlayerQualityChange Sim.yieldingAPI "small" Moments.low)
  = "Video quality changed to: 240p" /\
  timers (onPlayerQualityChange Sim.yieldingAPI "small" Moments.low)
  = without isRetry (timers Moments.low) /\
  qualityRetryTimer (onPlayerQualityChange Sim.yieldingAPI "small" Moments.low)
  = None.
Proof.
  destruct (@quality_event_stops_retry _ Sim.yieldingAPI "small" Moments.low
              low_reachable)
    as (Hs & _ & _ & Hon & _).
  split; [exact (Hs eq_refl) | exact (Hon eq_refl eq_refl)].
Defined.

Lemma facade_click_creates_player_witness :
  player (apiReady Sim.yieldingAPI
            (facadeClick Sim.yieldingAPI Moments.loaded))
  = Some (create Sim.yieldingAPI (Some Scenarios.idA) (startParam 0)).
Proof.
  destruct (@facade_click_creates_player _ Sim.yieldingAPI Moments.loaded
              (Some Scenarios.idA) 0%Q eq_refl)
    as (_ & Hoff).
  destruct (Hoff eq_refl) as (_ & _ & Hp & _). exact Hp.
Defined.

Lemma resume_round_trip_witness :
  container (pauseDestroy Sim.yieldingAPI PAUSED Moments.playing)
  = Facade (Some Scenarios.idA) (100 # 1000) /\
  player (facadeClick Sim.yieldingAPI
            (pauseDestroy Sim.yieldingAPI PAUSED Moments.playing))
  = Some (create Sim.yieldingAPI (Some Scenarios.idA)
            (startParam (100 # 1000))).
Proof.
  destruct (@resume_round_trip _ Sim.yieldingAPI PAUSED Moments.playing
              (Moments.playerOf Moments.playing) (100 # 1000)
              eq_refl eq_refl eq_refl eq_refl)
    as (Hc & _ & Hp & _).
  split; [exact Hc | exact Hp].
Defined.

Lemma passive_closures_only_narrate_witness :
  set_errors (errors Moments.low)
    (set_statusText (statusText Moments.low)
       (runCallback Sim.yieldingAPI CbMonitor Moments.low))
  = Moments.low.
Proof.
  exact (@passive_closures_only_narrate _ Sim.yieldingAPI CbMonitor
           Moments.low eq_refl).
Defined.

Lemma ready_defers_start_witness :
  commands (handle Sim.yieldingAPI (PlayerReady _) Moments.low)
  = commands Moments.low
    ++ [CPause; CSetQuality (target Sim.yieldingAPI Moments.low)] /\
  timers (handle Sim.yieldingAPI (PlayerReady _) Moments.low)
  = timers Moments.low
    ++ [mkTimer 4 (500 + READY_DEFER_MS) None CbReadyDefer].
Proof.
  destruct (@ready_defers_start _ Sim.yieldingAPI Moments.low
              (Moments.playerOf Moments.low) low_reachable eq_refl)
    as (_ & Hon).
  destruct (Hon eq_refl) as (Hc & Ht & _).
  split; [exact Hc | exact Ht].
Defined.

Lemma deferred_start_ignores_mode_switch_witness :
  lowBandwidthMode
    (fire Sim.yieldingAPI (mkTimer 4 (500 + READY_DEFER_MS) None CbReadyDefer)
       (handle Sim.yieldingAPI (ButtonClick _)
          (handle Sim.yieldingAPI (PlayerReady _) Moments.low)))
  = false /\
  timers
    (fire Sim.yieldingAPI (mkTimer 4 (500 + READY_DEFER_MS) None CbReadyDefer)
       (handle Sim.yieldingAPI (ButtonClick _)
          (handle Sim.yieldingAPI (PlayerReady _) Moments.low)))
  = without isEnforcement (timers Moments.low)
    ++ [mkTimer 5 (500 + READY_DEFER_MS + RETRY_MS) (Some RETRY_MS) CbRetry;
        mkTimer 6 (500 + READY_DEFER_MS + MONITOR_MS) (Some MONITOR_MS)
                CbMonitor] /\
  commands
    (fire Sim.yieldingAPI (mkTimer 4 (500 + READY_DEFER_MS) None CbReadyDefer)
       (handle Sim.yieldingAPI (ButtonClick _)
          (handle Sim.yieldingAPI (PlayerReady _) Moments.low)))
  = commands Moments.low
    ++ [CPause; CSetQuality "small"; CSetQuality "default"; CPlay;
        CSetQuality "small"; CPlay].
Proof.
  destruct (@deferred_start_ignores_mode_switch _ Sim.yieldingAPI Moments.low
              (Moments.playerOf Moments.low) low_reachable
              eq_refl eq_refl eq_refl)
    as (_ & _ & Hl & Ht & Hc).
  split; [exact Hl | split; [exact Ht | exact Hc]].
Defined.

End FlowFacts.

(* ------------------------------------------------------------------ *)
(** ** The earlier draft: a purely visual simulation that completes *)

Module DraftFacts.
Import Js Quality Extractor Draft.
Open Scope string_scope.
Open Scope Z_scope.
Open Scope list_scope.

Local Arguments Z.add _ _ : simpl never.
Local Arguments Z.sub _ _ : simpl never.
Local Arguments Z.ltb _ _ : simpl never.
Local Arguments Z.eqb _ _ : simpl never.
Local Arguments Nat.eqb _ _ : simpl never.
Local Arguments Nat.leb _ _ : simpl never.

Ltac destruct_draft st :=
  destruct st as [pl vid low rt rc apil cbk cont ov bt bd bh stt al cm nw
                  tms nid].

Ltac draft_proj :=
  cbn [player currentVideoId lowBandwidthMode qualityRetryTimer
       qualityRetryCount apiLoaded onYouTubeIframeAPIReady container
       simulateOverlay buttonText buttonDisabled buttonHidden statusText
       alerts commands now timers nextTimerId tid due period callback].

Ltac draft_proj_in H :=
  cbn [player currentVideoId lowBandwidthMode qualityRetryTimer
       qualityRetryCount apiLoaded onYouTubeIframeAPIReady container
       simulateOverlay buttonText buttonDisabled buttonHidden statusText
       alerts commands now timers nextTimerId tid due period callback] in H.

Ltac draft_compute :=
  cbv -[Z.add Z.sub Z.mul Z.ltb Z.eqb Z.leb Nat.eqb Nat.leb Nat.ltb
        filter app In map negb String.append String.eqb
        Quality.targetOf Quality.label Quality.readable
        Quality.readableOrAuto].

Lemma draft_earliest_head (t : Timer) (l : list Timer) :
  (forall u, In u l -> due t < due u) -> earliest (t :: l) = Some t.
Proof.
  intros H. simpl. destruct (earliest l) as [u|] eqn:E; [|reflexivity].
  assert (Hu : In u l).
  { clear H. revert u E. induction l as [|a l IH]; simpl; intros u E;
      [discriminate|].
    destruct (earliest l) as [v|].
    - destruct (before v a); injection E as <-;
        [right; now apply IH | now left].
    - injection E as <-. now left. }
  specialize (H u Hu). unfold before.
  replace (due u <? due t) with false by (symmetry; apply Z.ltb_ge; lia).
  replace (due u =? due t) with false by (symmetry; apply Z.eqb_neq; lia).
  reflexivity.
Qed.

Lemma draft_filter_drops_head (t : Timer) (l : list Timer) :
  (forall u, In u l -> tid u <> tid t) ->
  filter (fun u => negb (Nat.eqb (tid u) (tid t))) (t :: l) = l.
Proof.
  intros H. simpl. rewrite Nat.eqb_refl. simpl.
  induction l as [|a l IH]; simpl; [reflexivity|].
  destruct (Nat.eqb_spec (tid a) (tid t)) as [E|E].
  - exfalso. apply (H a); [now left | exact E].
  - simpl. f_equal. apply IH. intros u Hu. apply H. now right.
Qed.

Section WithPlayer.
Variable P : Type.
Variable api : PlayerAPI P.

(** Running the timeout at the head of the queue when it is due before
    every other timer. *)
Lemma draft_fire_next_head (st : State P) (t : Timer) (l : list Timer) :
  timers st = t :: l -> period t = None ->
  (forall u, In u l -> due t < due u /\ tid u <> tid t) ->
  fire_next api st
  = Some (runCallback api (callback t)
            (set_timers l (passTime api (due t) st))).
Proof.
  intros Ht Hp Hl. unfold fire_next. rewrite Ht.
  rewrite draft_earliest_head by (intros u Hu; apply Hl, Hu).
  unfold fire. rewrite Hp. f_equal. f_equal.
  unfold clearTimer, passTime.
  destruct (now st <? due t); destruct_draft st; draft_proj_in Ht;
    subst tms; unfold set_timers; draft_proj; cbn [set_now set_player timers];
    rewrite draft_filter_drops_head by (intros u Hu; apply Hl, Hu); reflexivity.
Qed.

(** Take a calm state apart: the enforcement globals are at rest, and
    either nothing is pending or the rest of one sequence is. *)
Ltac subst_by H := match type of H with ?x = _ => subst x end.

Ltac open_calm st H :=
  let Hv := fresh "Hv" in
  let Hs := fresh "Hs" in
  let Hv1 := fresh "Hv" in
  let Hv2 := fresh "Hv" in
  let Hv3 := fresh "Hv" in
  let Hv4 := fresh "Hv" in
  let Hi1 := fresh "Hi" in
  let Hi2 := fresh "Hi" in
  let Hi3 := fresh "Hi" in
  let Hi4 := fresh "Hi" in
  let Hs1 := fresh "Hs" in
  let Hs2 := fresh "Hs" in
  let k := fresh "k" in
  let t0 := fresh "t0" in
  let n := fresh "n" in
  let Hk := fresh "Hk" in
  destruct H as [Hv Hs]; destruct_draft st;
  destruct Hv as (Hv1 & Hv2 & Hv3 & Hv4);
  draft_proj_in Hv1; draft_proj_in Hv2; draft_proj_in Hv3;
  draft_proj_in Hv4;
  subst_by Hv1; subst_by Hv2; subst_by Hv3; subst_by Hv4;
  destruct Hs as [(Hi1 & Hi2 & Hi3 & Hi4)|(Hs1 & k & t0 & n & Hk & Hs2)];
  [ draft_proj_in Hi1; draft_proj_in Hi2; draft_proj_in Hi3;
    draft_proj_in Hi4;
    subst_by Hi1; subst_by Hi2; subst_by Hi3; subst_by Hi4
  | draft_proj_in Hs1; draft_proj_in Hs2; subst_by Hs1; subst_by Hs2 ].

Ltac close_calm :=
  first
    [ (split; [repeat split |
               left; repeat split];
       fail)
    | (split; [repeat split |
               right; split; [reflexivity |
                 eexists; eexists; eexists; split; [eassumption | reflexivity]]];
       fail)
    | (split; [repeat split |
               right; split; [reflexivity |
                 exists 0%nat; eexists; eexists; split; [lia | reflexivity]]];
       fail) ].

Lemma init_calm : calm (init P).
Proof. split; [repeat split | left; repeat split]. Qed.

Lemma handle_calm (e : Event P) (st : State P) :
  calm st -> calm (handle api e st).
Proof.
  intros H. open_calm st H; destruct e; unfold handle; draft_proj.
  - unfold loadClick. destruct (getYouTubeID url); close_calm.
  - destruct cont, apil; close_calm.
  - destruct cbk; close_calm.
  - close_calm.
  - destruct d; close_calm.
  - close_calm.
  - close_calm.
  - destruct pl; close_calm.
  - unfold loadClick. destruct (getYouTubeID url); close_calm.
  - destruct cont, apil; close_calm.
  - destruct cbk; close_calm.
  - close_calm.
  - destruct d; close_calm.
  - close_calm.
  - close_calm.
  - destruct pl; close_calm.
Qed.

Lemma passTime_calm (t : Z) (st : State P) :
  calm st -> calm (passTime api t st).
Proof.
  intros H. unfold passTime. destruct (now st <? t); [|assumption].
  open_calm st H; destruct pl; close_calm.
Qed.

(** The side conditions of [draft_fire_next_head] on the steps of a sequence. *)
Ltac head_first :=
  let u := fresh "u" in
  let Hu := fresh "Hu" in
  intros u Hu; cbn [In] in Hu;
  repeat (destruct Hu as [<-|Hu]; [cbn [due tid]; split; lia|]);
  destruct Hu.

(** What is left of a sequence after its next step has run. *)
Lemma step_runs (st : State P) (k : nat) (t0 : Z) (n : nat) :
  (k < 4)%nat -> timers st = remaining k t0 n ->
  exists t,
    nth_error (steps t0 n) k = Some t /\
    fire_next api st
    = Some (runCallback api (callback t)
              (set_timers (remaining (S k) t0 n)
                 (passTime api (due t) st))).
Proof.
  intros Hk Ht.
  destruct k as [|[|[|[|k]]]]; try lia; unfold remaining, steps in *;
    cbn [skipn] in *; eexists; (split; [reflexivity|]);
    apply draft_fire_next_head; first [exact Ht | reflexivity | head_first].
Qed.

Lemma step_timers (s : State P) (k : nat) (t0 : Z) (n : nat) (t : Timer) :
  nth_error (steps t0 n) k = Some t ->
  timers (runCallback api (callback t)
            (set_timers (remaining (S k) t0 n) (passTime api (due t) s)))
  = remaining (S k) t0 n.
Proof.
  intros Hn. destruct k as [|[|[|[|k]]]]; cbn [nth_error steps] in Hn;
    try (destruct k; discriminate Hn); injection Hn as <-;
    destruct_draft s; unfold passTime; draft_proj;
    match goal with
    | |- context [if ?c then _ else _] => destruct c
    end; destruct ov; reflexivity.
Qed.

Lemma fire_next_calm (st st' : State P) :
  calm st -> fire_next api st = Some st' -> calm st'.
Proof.
  intros H Hf. open_calm st H.
  - discriminate Hf.
  - match type of Hf with
    | fire_next api ?s = _ =>
        destruct (@step_runs s k t0 n Hk eq_refl) as [t [Hn E]]
    end.
    rewrite E in Hf. injection Hf as <-. clear E.
    destruct k as [|[|[|[|k]]]]; try lia; cbn [nth_error steps] in Hn;
      injection Hn as <-; cbn [callback due]; unfold passTime; draft_proj;
      match goal with
      | |- context [if ?c then _ else _] => destruct c
      end;
      destruct ov;
      (split; [repeat split|]);
      first [ right; split; [reflexivity|];
              first [ exists 1%nat, t0, n; split; [lia | reflexivity]
                    | exists 2%nat, t0, n; split; [lia | reflexivity]
                    | exists 3%nat, t0, n; split; [lia | reflexivity] ]
            | left; repeat split ].
Qed.

(** Every state of the draft is calm. *)
Lemma reachable_calm (st : State P) : reachable api st -> calm st.
Proof.
  induction 1 as [|e st _ IH|st st' _ IH Hf|t st _ IH].
  - apply init_calm.
  - now apply handle_calm.
  - eapply fire_next_calm; eassumption.
  - now apply passTime_calm.
Qed.

(** The next step of a sequence, run when its time has not come yet. *)
Lemma fire_step (s : State P) (k : nat) (t0 : Z) (n : nat) (t : Timer) :
  timers s = remaining k t0 n ->
  nth_error (steps t0 n) k = Some t -> now s < due t ->
  fire_next api s
  = Some (runCallback api (callback t)
            (set_timers (remaining (S k) t0 n)
               (set_now (due t)
                  (set_player
                     (option_map (elapse api (due t - now s)) (player s))
                     s)))).
Proof.
  intros Ht Hn Hlt.
  assert (Hk : (k < 4)%nat).
  { change 4%nat with (List.length (steps t0 n)).
    apply nth_error_Some. rewrite Hn. discriminate. }
  destruct (@step_runs s k t0 n Hk Ht) as [t' [Hn' E]].
  rewrite Hn in Hn'. injection Hn' as <-. rewrite E.
  unfold passTime.
  replace (now s <? due t) with true by (symmetry; apply Z.ltb_lt; lia).
  reflexivity.
Qed.

(** X23 -- The draft is purely visual.  In every state the page of the
    draft can reach, the low-internet flag is off, the player has never
    received a command -- no quality hint, no reload, no play -- and no
    retry interval is pending or has ever ticked: the enforcement code of
    the draft never runs. *)
Theorem draft_is_visual_only (st : State P) :
  reachable api st ->
  lowBandwidthMode st = false /\ commands st = [] /\
  qualityRetryTimer st = None /\ qualityRetryCount st = 0%nat /\
  (forall t, In t (timers st) -> callback t <> CbRetry).
Proof.
  intros Hr. destruct (reachable_calm Hr) as [(H1 & H2 & H3 & H4) Hs].
  repeat split; try assumption.
  intros t Ht.
  destruct Hs as [(_ & Hnone & _)|(_ & k & t0 & n & Hk & Hq)].
  - rewrite Hnone in Ht. contradiction.
  - rewrite Hq in Ht. unfold remaining, steps in Ht.
    destruct k as [|[|[|[|k]]]]; try lia; cbn [skipn In] in Ht;
      repeat (destruct Ht as [<-|Ht]; [discriminate|]); contradiction.
Qed.

(** X24 -- One simulated sequence at a time, and it always ends.  In
    every reachable state of the draft the toggle is disabled exactly
    while steps of a sequence are pending, at most the four steps of one
    sequence are pending, and after at most four timer runs the toggle is
    enabled again with its own label, the overlay is gone and no timer is
    left. *)
Theorem draft_toggle_returns (st : State P) :
  reachable api st ->
  (buttonDisabled st = true <-> timers st <> []) /\
  (List.length (timers st) <= 4)%nat /\
  exists k st',
    (k <= 4)%nat /\ fires api k st = Some st' /\
    buttonDisabled st' = false /\
    buttonText st' = "Simulate Low Internet" /\
    simulateOverlay st' = false /\ timers st' = [].
Proof.
  intros Hr. pose proof (reachable_calm Hr) as Hcalm.
  assert (Hgo : forall j s, calm s -> (List.length (timers s) <= j)%nat ->
                exists k s', (k <= j)%nat /\ fires api k s = Some s' /\
                             idle s').
  { induction j as [|j IH]; intros s Hs Hlen.
    - exists 0%nat, s. split; [lia | split; [reflexivity|]].
      destruct Hs as [_ [Hi|(_ & k & t0 & n & Hk & Hq)]]; [exact Hi|].
      exfalso. rewrite Hq in Hlen.
      destruct k as [|[|[|[|k]]]]; try lia; simpl in Hlen; lia.
    - destruct Hs as [Hv [Hi|(Hd & k & t0 & n & Hk & Hq)]].
      + exists 0%nat, s. split; [lia | split; [reflexivity | exact Hi]].
      + destruct (@step_runs s k t0 n Hk Hq) as [t [Hn E]].
        assert (Hc : calm s) by (split; [exact Hv | right; split;
          [exact Hd | exists k, t0, n; split; assumption]]).
        pose proof (fire_next_calm Hc E) as Hc'.
        destruct (IH _ Hc') as [k' [s' [Hk' [Hf Hi]]]].
        { rewrite (@step_timers s k t0 n t Hn). rewrite Hq in Hlen.
          destruct k as [|[|[|[|k]]]]; try lia; simpl in Hlen |- *; lia. }
        exists (S k'), s'. split; [lia | split; [|exact Hi]].
        simpl. rewrite E. exact Hf. }
  destruct Hcalm as [Hv Hs].
  split; [|split].
  - destruct Hs as [(Hd & Hnone & _)|(Hd & k & t0 & n & Hk & Hq)].
    + rewrite Hd, Hnone. split; [discriminate | congruence].
    + rewrite Hd, Hq. split; [|reflexivity]. intros _.
      destruct k as [|[|[|[|k]]]]; try lia; discriminate.
  - destruct Hs as [(_ & Hnone & _)|(_ & k & t0 & n & Hk & Hq)].
    + rewrite Hnone. simpl. lia.
    + rewrite Hq. destruct k as [|[|[|[|k]]]]; try lia; simpl; lia.
  - assert (Hlen : (List.length (timers st) <= 4)%nat).
    { destruct Hs as [(_ & Hnone & _)|(_ & k & t0 & n & Hk & Hq)].
      - rewrite Hnone. simpl. lia.
      - rewrite Hq. destruct k as [|[|[|[|k]]]]; try lia; simpl; lia. }
    destruct (Hgo 4%nat st (conj Hv Hs) Hlen)
      as [k [s' [Hk [Hf (Hi1 & Hi2 & Hi3 & Hi4)]]]].
    exists k, s'. repeat split; assumption.
Qed.

(** X25 -- The simulated sequence of the draft, stage by stage.  From any
    reachable state with the toggle enabled, a click shows the overlay,
    disables the toggle and announces the simulation; the next four timer
    runs come 700, 1400, 2100 and 3000 ms after the click and narrate the
    diagnosis, the detected bandwidth and the lower resolution; the last
    one removes the overlay, reports the simulated quality change and
    gives the toggle back, enabled and with its own label.  The player
    receives no command. *)
Theorem draft_sequence_stages (st : State P) :
  reachable api st -> buttonDisabled st = false ->
  let s0 := handle api (ButtonClick P) st in
  (statusText s0 = "Simulating low internet..." /\
   buttonText s0 = "Simulating..." /\
   buttonDisabled s0 = true /\ simulateOverlay s0 = true) /\
  exists s1 s2 s3 s4,
    (fire_next api s0 = Some s1 /\ now s1 = now st + 700 /\
     statusText s1 = "Diagnosing network...") /\
    (fire_next api s1 = Some s2 /\ now s2 = now st + 1400 /\
     statusText s2 = "Bandwidth detected: 420 kbps (simulated)") /\
    (fire_next api s2 = Some s3 /\ now s3 = now st + 2100 /\
     statusText s3 = "Applying lower resolution: 240p (simulated)" /\
     buttonDisabled s3 = true /\ simulateOverlay s3 = true) /\
    (fire_next api s3 = Some s4 /\ now s4 = now st + 3000 /\
     statusText s4 = "Video quality changed to: 240p (simulated)" /\
     buttonDisabled s4 = false /\
     buttonText s4 = "Simulate Low Internet" /\
     simulateOverlay s4 = false /\ timers s4 = [] /\ commands s4 = []).
Proof.
  intros Hr Hd. pose proof (reachable_calm Hr) as H. clear Hr.
  open_calm st H; [|discriminate Hd]. clear Hd.
  draft_proj. split; [repeat split|].
  eexists. eexists. eexists. eexists.
  split; [|split; [|split]].
  - split; [eapply (@fire_step _ 0%nat nw nid);
            [reflexivity | reflexivity | simpl; lia]
           | split; reflexivity].
  - split; [eapply (@fire_step _ 1%nat nw nid);
            [reflexivity | reflexivity | simpl; lia]
           | split; reflexivity].
  - split; [eapply (@fire_step _ 2%nat nw nid);
            [reflexivity | reflexivity | simpl; lia]
           | repeat split].
  - split; [eapply (@fire_step _ 3%nat nw nid);
            [reflexivity | reflexivity | simpl; lia]
           | repeat split].
Qed.



End WithPlayer.

Lemma loadedDraft_reachable : reachable obedientAPI loadedDraft.
Proof.
  change loadedDraft
    with (handle obedientAPI (LoadClick _ Scenarios.linkA) (init _)).
  apply reach_event, reach_init.
Qed.

Lemma clickedDraft_reachable : reachable obedientAPI clickedDraft.
Proof.
  change clickedDraft with (handle obedientAPI (ButtonClick _) loadedDraft).
  apply reach_event, loadedDraft_reachable.
Qed.

Lemma draft_is_visual_only_witness :
  lowBandwidthMode clickedDraft = false /\ commands clickedDraft = [] /\
  qualityRetryTimer clickedDraft = None /\
  qualityRetryCount clickedDraft = 0%nat /\
  (forall t, In t (timers clickedDraft) -> callback t <> CbRetry).
Proof. exact (draft_is_visual_only clickedDraft_reachable). Defined.

Lemma draft_toggle_returns_witness :
  (buttonDisabled clickedDraft = true <-> timers clickedDraft <> []) /\
  (List.length (timers clickedDraft) <= 4)%nat.
Proof.
  destruct (draft_toggle_returns clickedDraft_reachable) as (H1 & H2 & _).
  split; [exact H1 | exact H2].
Defined.

Lemma draft_sequence_stages_witness :
  statusText (handle obedientAPI (ButtonClick _) loadedDraft)
  = "Simulating low internet..." /\
  buttonText (handle obedientAPI (ButtonClick _) loadedDraft)
  = "Simulating..." /\
  buttonDisabled (handle obedientAPI (ButtonClick _) loadedDraft) = true /\
  simulateOverlay (handle obedientAPI (ButtonClick _) loadedDraft) = true.
Proof.
  exact (proj1 (@draft_sequence_stages _ obedientAPI loadedDraft
                  loadedDraft_reachable eq_refl)).
Defined.

End DraftFacts.

(* ------------------------------------------------------------------ *)
(** ** The simulated sequence where it is bound

    script.js declares [simulateLowInternetExperience] and binds it to
    nothing: the toggle calls [toggleLowInternetMode].  The earlier draft
    binds it to the toggle.  The facts below follow the sequence through
    both scripts. *)

Module WiredFacts.
Import Js Quality Extractor Controller Props Reach QueueFacts ReachFacts
       FlowFacts.
Open Scope string_scope.
Open Scope Z_scope.
Open Scope list_scope.

Local Arguments Z.add _ _ : simpl never.
Local Arguments Z.sub _ _ : simpl never.
Local Arguments Z.ltb _ _ : simpl never.
Local Arguments Z.eqb _ _ : simpl never.
Local Arguments Nat.eqb _ _ : simpl never.
Local Arguments Nat.leb _ _ : simpl never.

Section WithPlayer.
Variable P : Type.
Variable api : PlayerAPI P.








End WithPlayer.

End WiredFacts.

(* ------------------------------------------------------------------ *)
(** ** The sequence and the enforcement in both scripts *)

Module VariantFacts.
Import Js Quality Controller Props Reach.
Open Scope string_scope.
Open Scope Z_scope.
Open Scope list_scope.





End VariantFacts.

